(** * Monopoly Deal rules engine: a shallow embedding of [gameLogic.ts] and
      [cards.ts], with the properties of the game core stated over it.

    Conventions of the embedding.
    - A JavaScript array is a [list] in array order: index 0 is the head,
      [push] appends at the end, [pop] takes the last element.
    - Objects mutated in place ([state], a player, a property set) are
      updated by index inside the owning list, so that two references to the
      same object (a responder who is also the initiator) stay one object.
    - An operation is a function from the state to an outcome and the state
      it leaves behind.  A [throw] does not roll anything back: the state
      returned with [Throw] is the state as mutated up to the throw.
    - [uuidv4] and [Math.random] are external sources; the operations that
      call them take the values drawn as arguments.
    - The time stamps [createdAt]/[updatedAt] and the display-only field
      [rentValues] of a property card are left out. *)

From Stdlib Require Import List ZArith String Ascii Bool Arith Lia DecimalString
  DecimalNat Permutation.
Import ListNotations.
Local Open Scope string_scope.
Local Open Scope Z_scope.

Set Implicit Arguments.

(* ================================================================== *)
(** ** JavaScript array helpers *)

Section ArrayOps.
Context {A : Type}.

(** [arr.find(p)] together with the index [arr.findIndex(p)] of what it
    found; [None] stands for [undefined] and -1. *)
Fixpoint findEntry (p : A -> bool) (l : list A) : option (nat * A) :=
  match l with
  | [] => None
  | x :: t => if p x then Some (0%nat, x)
              else match findEntry p t with
                   | Some (i, y) => Some (S i, y)
                   | None => None
                   end
  end.

(** [arr.splice(i, 1)]: the array without its element at index [i]. *)
Fixpoint removeAt (i : nat) (l : list A) : list A :=
  match l, i with
  | [], _ => []
  | _ :: t, O => t
  | x :: t, S j => x :: removeAt j t
  end.

(** [arr[i] = f(arr[i])] for an index in range; nothing otherwise. *)
Fixpoint updateAt (i : nat) (f : A -> A) (l : list A) : list A :=
  match l, i with
  | [], _ => []
  | x :: t, O => f x :: t
  | x :: t, S j => x :: updateAt j f t
  end.

(** [arr.push(x)]. *)
Definition push (l : list A) (x : A) : list A := l ++ [x].

(** [arr.pop()]: the last element, if any, and the shortened array. *)
Definition pop (l : list A) : option A * list A :=
  match rev l with
  | [] => (None, [])
  | x :: r => (Some x, rev r)
  end.
End ArrayOps.

(** [arr.includes(x)] for strings. *)
Definition includesStr (l : list string) (x : string) : bool :=
  existsb (String.eqb x) l.

(** Truthiness of an optional string: [undefined] and [''] are falsy. *)
Definition truthyStr (o : option string) : bool :=
  match o with
  | Some s => negb (String.eqb s "")
  | None => false
  end.

(** [String(n)] for an integer. *)
Definition showZ (z : Z) : string := NilZero.string_of_int (Z.to_int z).

(* ================================================================== *)
(** ** Cards (types/game.ts as used by cards.ts and gameLogic.ts) *)

Inductive PropertyColor :=
| brown | lightBlue | pink | orange | red | yellow | green | darkBlue
| railroad | utility.

Inductive ActionType :=
| passGo | birthday | debtCollector | slyDeal | forcedDeal | dealBreaker
| house | hotel | doubleRent | justSayNo.

Definition colorEqb (a b : PropertyColor) : bool :=
  match a, b with
  | brown, brown | lightBlue, lightBlue | pink, pink | orange, orange
  | red, red | yellow, yellow | green, green | darkBlue, darkBlue
  | railroad, railroad | utility, utility => true
  | _, _ => false
  end.

Definition actionEqb (a b : ActionType) : bool :=
  match a, b with
  | passGo, passGo | birthday, birthday | debtCollector, debtCollector
  | slyDeal, slyDeal | forcedDeal, forcedDeal | dealBreaker, dealBreaker
  | house, house | hotel, hotel | doubleRent, doubleRent
  | justSayNo, justSayNo => true
  | _, _ => false
  end.

Definition includesColor (l : list PropertyColor) (c : PropertyColor) : bool :=
  existsb (colorEqb c) l.

(** The colour as the string the source uses for it. *)
Definition colorName (c : PropertyColor) : string :=
  match c with
  | brown => "brown" | lightBlue => "lightBlue" | pink => "pink"
  | orange => "orange" | red => "red" | yellow => "yellow"
  | green => "green" | darkBlue => "darkBlue" | railroad => "railroad"
  | utility => "utility"
  end.

Definition actionName (a : ActionType) : string :=
  match a with
  | passGo => "passGo" | birthday => "birthday"
  | debtCollector => "debtCollector" | slyDeal => "slyDeal"
  | forcedDeal => "forcedDeal" | dealBreaker => "dealBreaker"
  | house => "house" | hotel => "hotel" | doubleRent => "doubleRent"
  | justSayNo => "justSayNo"
  end.

(** The variant part of a card: its [type] tag with the fields of that
    variant. *)
Inductive CardFace :=
| Property (color : PropertyColor) (isWildcard : bool)
           (wildcardColors : option (list PropertyColor))
| Money
| Action (action : ActionType)
| Rent (colors : list PropertyColor) (isWildRent : bool).

Record Card := mkCard {
  card_id : string;
  card_name : string;
  card_value : Z;
  card_image : string;
  face : CardFace
}.

(** [c.type === 'property'] and its siblings. *)
Definition isProperty (c : Card) : bool :=
  match face c with Property _ _ _ => true | _ => false end.
Definition isMoney (c : Card) : bool :=
  match face c with Money => true | _ => false end.
Definition isAction (c : Card) : bool :=
  match face c with Action _ => true | _ => false end.
Definition isRent (c : Card) : bool :=
  match face c with Rent _ _ => true | _ => false end.

(** [(c as PropertyCard).isWildcard], [undefined] (falsy) on other cards. *)
Definition cardIsWildcard (c : Card) : bool :=
  match face c with Property _ w _ => w | _ => false end.

(** [c.type === 'action' && (c as ActionCard).action === a]. *)
Definition isActionOf (a : ActionType) (c : Card) : bool :=
  match face c with Action b => actionEqb b a | _ => false end.

Definition hasId (cardId : string) (c : Card) : bool :=
  String.eqb (card_id c) cardId.

(* ================================================================== *)
(** ** The card catalog (cards.ts) *)

Definition PROPERTY_SET_REQUIREMENTS (c : PropertyColor) : Z :=
  match c with
  | brown => 2 | lightBlue => 3 | pink => 3 | orange => 3 | red => 3
  | yellow => 3 | green => 3 | darkBlue => 2 | railroad => 4 | utility => 2
  end.

Definition RENT_VALUES (c : PropertyColor) : list Z :=
  match c with
  | brown => [1; 2]
  | lightBlue => [1; 2; 3]
  | pink => [1; 2; 4]
  | orange => [1; 3; 5]
  | red => [2; 3; 6]
  | yellow => [2; 4; 6]
  | green => [2; 4; 7]
  | darkBlue => [3; 8]
  | railroad => [1; 2; 3; 4]
  | utility => [1; 2]
  end.

(** [colors.join(sep)]. *)
Fixpoint joinColors (sep : string) (l : list PropertyColor) : string :=
  match l with
  | [] => ""
  | [c] => colorName c
  | c :: t => colorName c ++ sep ++ joinColors sep t
  end.

(** The four constructors of cards.ts.  Each draws one [uuidv4()] for the
    id, which is the last argument here. *)
Definition createPropertyCard (name : string) (color : PropertyColor)
    (value : Z) (isWildcard : bool)
    (wildcardColors : option (list PropertyColor)) (id : string) : Card :=
  mkCard id name value ("property-" ++ colorName color)
         (Property color isWildcard wildcardColors).

Definition createMoneyCard (value : Z) (id : string) : Card :=
  mkCard id ("$" ++ showZ value ++ "M") value ("money-" ++ showZ value) Money.

Definition createActionCard (action : ActionType) (name : string) (value : Z)
    (id : string) : Card :=
  mkCard id name value ("action-" ++ actionName action) (Action action).

Definition createRentCard (colors : list PropertyColor) (value : Z)
    (isWildRent : bool) (id : string) : Card :=
  mkCard id
         (if isWildRent then "Wild Rent"
          else "Rent (" ++ joinColors "/" colors ++ ")")
         value
         (if isWildRent then "rent-wild"
          else "rent-" ++ joinColors "-" colors)
         (Rent colors isWildRent).

Definition allColors : list PropertyColor :=
  [brown; lightBlue; pink; orange; red; yellow; green; darkBlue; railroad;
   utility].

(** A plain (non-wildcard) property: the defaults [isWildcard = false],
    [wildcardColors = undefined]. *)
Definition plain (name : string) (color : PropertyColor) (value : Z) :=
  createPropertyCard name color value false None.

Definition wild (color : PropertyColor) (value : Z)
    (colors : list PropertyColor) :=
  createPropertyCard "Wild Property" color value true (Some colors).

(** The cards of [createDeck] in push order, each still waiting for its id. *)
Definition deckCards : list (string -> Card) :=
  [ plain "Mediterranean Avenue" brown 1; plain "Baltic Avenue" brown 1;
    plain "Oriental Avenue" lightBlue 1; plain "Vermont Avenue" lightBlue 1;
    plain "Connecticut Avenue" lightBlue 1;
    plain "St. Charles Place" pink 2; plain "States Avenue" pink 2;
    plain "Virginia Avenue" pink 2;
    plain "St. James Place" orange 2; plain "Tennessee Avenue" orange 2;
    plain "New York Avenue" orange 2;
    plain "Kentucky Avenue" red 3; plain "Indiana Avenue" red 3;
    plain "Illinois Avenue" red 3;
    plain "Atlantic Avenue" yellow 3; plain "Ventnor Avenue" yellow 3;
    plain "Marvin Gardens" yellow 3;
    plain "Pacific Avenue" green 4; plain "North Carolina Avenue" green 4;
    plain "Pennsylvania Avenue" green 4;
    plain "Park Place" darkBlue 4; plain "Boardwalk" darkBlue 4;
    plain "Reading Railroad" railroad 2;
    plain "Pennsylvania Railroad" railroad 2;
    plain "B&O Railroad" railroad 2; plain "Short Line" railroad 2;
    plain "Electric Company" utility 2; plain "Water Works" utility 2;
    wild brown 1 [brown; lightBlue];
    wild pink 2 [pink; orange];
    wild red 3 [red; yellow];
    wild green 4 [green; darkBlue];
    wild green 4 [green; railroad];
    wild lightBlue 4 [lightBlue; railroad];
    wild utility 2 [utility; railroad];
    wild railroad 0 allColors;
    wild railroad 0 allColors ]
  ++ repeat (createMoneyCard 1) 6
  ++ repeat (createMoneyCard 2) 5
  ++ repeat (createMoneyCard 3) 3
  ++ repeat (createMoneyCard 4) 3
  ++ repeat (createMoneyCard 5) 2
  ++ [createMoneyCard 10]
  ++ repeat (createActionCard dealBreaker "Deal Breaker" 5) 2
  ++ repeat (createActionCard justSayNo "Just Say No" 4) 3
  ++ repeat (createActionCard slyDeal "Sly Deal" 3) 3
  ++ repeat (createActionCard forcedDeal "Forced Deal" 3) 4
  ++ repeat (createActionCard debtCollector "Debt Collector" 3) 3
  ++ repeat (createActionCard birthday "It's My Birthday" 2) 3
  ++ repeat (createActionCard passGo "Pass Go" 1) 10
  ++ repeat (createActionCard house "House" 3) 3
  ++ repeat (createActionCard hotel "Hotel" 4) 2
  ++ repeat (createActionCard doubleRent "Double The Rent" 1) 2
  ++ repeat (createRentCard [brown; lightBlue] 1 false) 2
  ++ repeat (createRentCard [pink; orange] 1 false) 2
  ++ repeat (createRentCard [red; yellow] 1 false) 2
  ++ repeat (createRentCard [green; darkBlue] 1 false) 2
  ++ repeat (createRentCard [railroad; utility] 1 false) 2
  ++ repeat (createRentCard allColors 3 true) 3.

(** Give the [i]-th card made the [i]-th id drawn. *)
Fixpoint assignIds (uuid : nat -> string) (i : nat)
    (l : list (string -> Card)) : list Card :=
  match l with
  | [] => []
  | mk :: t => mk (uuid i) :: assignIds uuid (S i) t
  end.

(** [createDeck()], with [uuid i] the result of its [i]-th [uuidv4()]. *)
Definition createDeck (uuid : nat -> string) : list Card :=
  assignIds uuid 0 deckCards.

(** [const j = Math.floor(Math.random() * (i + 1)); swap(i, j)]. *)
Definition swapAt {A} (i j : nat) (l : list A) : list A :=
  match nth_error l i, nth_error l j with
  | Some x, Some y => updateAt i (fun _ => y) (updateAt j (fun _ => x) l)
  | _, _ => l
  end.

(** The Fisher-Yates loop, [i] running down to 1.  [rnd i] is the random
    draw made at index [i]; it is brought into the range [0..i] that
    [Math.floor(Math.random() * (i + 1))] has. *)
Fixpoint shuffleFrom {A} (rnd : nat -> nat) (i : nat) (l : list A) : list A :=
  match i with
  | O => l
  | S i' => shuffleFrom rnd i' (swapAt i (rnd i mod (i + 1))%nat l)
  end.

Definition shuffleDeck {A} (rnd : nat -> nat) (deck : list A) : list A :=
  shuffleFrom rnd (List.length deck - 1)%nat deck.

(* ================================================================== *)
(** ** Game state (types/game.ts as used by gameLogic.ts) *)

Record PropertySet := mkSet {
  set_color : PropertyColor;
  set_cards : list Card;
  hasHouse : bool;
  hasHotel : bool;
  isComplete : bool
}.

Record Player := mkPlayer {
  player_id : string;
  player_name : string;
  hand : list Card;
  properties : list PropertySet;
  bank : list Card;
  isConnected : bool;
  socketId : string
}.

(** The [type] of a pending action: the action played, or ['rent']. *)
Inductive PendingType := PAction (a : ActionType) | PRent.

Record PendingAction := mkPending {
  pa_type : PendingType;
  fromPlayerId : string;
  toPlayerId : option string;
  amount : option Z;
  pa_card : Card;
  canSayNo : bool;
  respondedPlayers : option (list string);
  targetSet : option PropertyColor;
  giveCardId : option string;
  giveFromSet : option PropertyColor;
  isDoubleRent : option bool
}.

Inductive GamePhase := phWaiting | phPlaying | phFinished.
Inductive TurnPhase :=
| tpDraw | tpAction | tpResponding | tpFinishing | tpDiscard.

Record GameState := mkState {
  game_id : string;
  roomCode : string;
  players : list Player;
  currentPlayerIndex : nat;
  deck : list Card;
  discardPile : list Card;
  phase : GamePhase;
  turnPhase : TurnPhase;
  actionsRemaining : Z;
  pendingAction : option PendingAction;
  winner : option string
}.

(** The optional record a card is played with. *)
Record PlayCardTarget := mkTarget {
  asBank : bool;
  t_playerId : option string;
  propertySetColor : option PropertyColor;
  t_giveCardId : option string;
  t_giveFromSet : option PropertyColor;
  useDoubleRent : option bool
}.

(** The record a pending action is answered with. *)
Record ActionResponse := mkResponse {
  accept : bool;
  useJustSayNo : bool;
  paymentCardIds : option (list string);
  selectedCardId : option string
}.

(** *** Field assignments *)

Definition setHand (h : list Card) (p : Player) : Player :=
  mkPlayer (player_id p) (player_name p) h (properties p) (bank p)
           (isConnected p) (socketId p).
Definition setProperties (s : list PropertySet) (p : Player) : Player :=
  mkPlayer (player_id p) (player_name p) (hand p) s (bank p)
           (isConnected p) (socketId p).
Definition setBank (b : list Card) (p : Player) : Player :=
  mkPlayer (player_id p) (player_name p) (hand p) (properties p) b
           (isConnected p) (socketId p).

Definition setCards (c : list Card) (s : PropertySet) : PropertySet :=
  mkSet (set_color s) c (hasHouse s) (hasHotel s) (isComplete s).
Definition setHasHouse (b : bool) (s : PropertySet) : PropertySet :=
  mkSet (set_color s) (set_cards s) b (hasHotel s) (isComplete s).
Definition setHasHotel (b : bool) (s : PropertySet) : PropertySet :=
  mkSet (set_color s) (set_cards s) (hasHouse s) b (isComplete s).
Definition setIsComplete (b : bool) (s : PropertySet) : PropertySet :=
  mkSet (set_color s) (set_cards s) (hasHouse s) (hasHotel s) b.

Definition setPlayers (ps : list Player) (st : GameState) : GameState :=
  mkState (game_id st) (roomCode st) ps (currentPlayerIndex st) (deck st)
          (discardPile st) (phase st) (turnPhase st) (actionsRemaining st)
          (pendingAction st) (winner st).
Definition setCurrentPlayerIndex (i : nat) (st : GameState) : GameState :=
  mkState (game_id st) (roomCode st) (players st) i (deck st)
          (discardPile st) (phase st) (turnPhase st) (actionsRemaining st)
          (pendingAction st) (winner st).
Definition setDeck (d : list Card) (st : GameState) : GameState :=
  mkState (game_id st) (roomCode st) (players st) (currentPlayerIndex st) d
          (discardPile st) (phase st) (turnPhase st) (actionsRemaining st)
          (pendingAction st) (winner st).
Definition setDiscardPile (d : list Card) (st : GameState) : GameState :=
  mkState (game_id st) (roomCode st) (players st) (currentPlayerIndex st)
          (deck st) d (phase st) (turnPhase st) (actionsRemaining st)
          (pendingAction st) (winner st).
Definition setPhase (ph : GamePhase) (st : GameState) : GameState :=
  mkState (game_id st) (roomCode st) (players st) (currentPlayerIndex st)
          (deck st) (discardPile st) ph (turnPhase st) (actionsRemaining st)
          (pendingAction st) (winner st).
Definition setTurnPhase (tp : TurnPhase) (st : GameState) : GameState :=
  mkState (game_id st) (roomCode st) (players st) (currentPlayerIndex st)
          (deck st) (discardPile st) (phase st) tp (actionsRemaining st)
          (pendingAction st) (winner st).
Definition setActionsRemaining (n : Z) (st : GameState) : GameState :=
  mkState (game_id st) (roomCode st) (players st) (currentPlayerIndex st)
          (deck st) (discardPile st) (phase st) (turnPhase st) n
          (pendingAction st) (winner st).
Definition setPendingAction (pa : option PendingAction) (st : GameState)
  : GameState :=
  mkState (game_id st) (roomCode st) (players st) (currentPlayerIndex st)
          (deck st) (discardPile st) (phase st) (turnPhase st)
          (actionsRemaining st) pa (winner st).
Definition setWinner (w : option string) (st : GameState) : GameState :=
  mkState (game_id st) (roomCode st) (players st) (currentPlayerIndex st)
          (deck st) (discardPile st) (phase st) (turnPhase st)
          (actionsRemaining st) (pendingAction st) w.

(** *** Reading and mutating the objects reached through the state *)

Definition hasPlayerId (playerId : string) (p : Player) : bool :=
  String.eqb (player_id p) playerId.
Definition hasColor (c : PropertyColor) (s : PropertySet) : bool :=
  colorEqb (set_color s) c.

(** Mutation of the player object at index [i] of [state.players]. *)
Definition modifyPlayer (i : nat) (f : Player -> Player) (st : GameState)
  : GameState :=
  setPlayers (updateAt i f (players st)) st.

(** Mutation of the set object at index [k] of a player's [properties]. *)
Definition modifySet (k : nat) (f : PropertySet -> PropertySet) (p : Player)
  : Player :=
  setProperties (updateAt k f (properties p)) p.

(** The fields of the player at index [i], which is in range wherever these
    are used (the index comes from a successful [find]). *)
Definition handOf (i : nat) (st : GameState) : list Card :=
  match nth_error (players st) i with Some p => hand p | None => [] end.
Definition bankOf (i : nat) (st : GameState) : list Card :=
  match nth_error (players st) i with Some p => bank p | None => [] end.
Definition propertiesOf (i : nat) (st : GameState) : list PropertySet :=
  match nth_error (players st) i with Some p => properties p | None => [] end.

Definition pushHand (c : Card) (p : Player) := setHand (push (hand p) c) p.
Definition pushBank (c : Card) (p : Player) := setBank (push (bank p) c) p.

(** *** Outcomes *)

Inductive Outcome (A : Type) := Ok (a : A) | Throw (msg : string).
Arguments Ok {A} a.
Arguments Throw {A} msg.

Definition Result (A : Type) := (Outcome A * GameState)%type.

Definition ok (st : GameState) : Result unit := (Ok tt, st).
Definition throw {A} (msg : string) (st : GameState) : Result A :=
  (Throw msg, st).

(** Sequencing: the rest runs on the state left by a call that returned;
    an exception passes through with the state it left. *)
Definition andThen {A B} (r : Result A) (k : A -> GameState -> Result B)
  : Result B :=
  match r with
  | (Ok a, st) => k a st
  | (Throw msg, st) => (Throw msg, st)
  end.

Notation "r >> k" := (andThen r (fun _ => k))
  (at level 61, left associativity).

(* ================================================================== *)
(** ** Lobby and turn operations (gameLogic.ts) *)

Definition createGameState (gameId : string) (uuid : nat -> string)
    (rnd : nat -> nat) (room : string) : GameState :=
  mkState gameId room [] 0 (shuffleDeck rnd (createDeck uuid)) []
          phWaiting tpDraw 3 None None.

(** [addPlayer]; [playerId] is the [uuidv4()] drawn for the new player. *)
Definition addPlayer (playerId name socket : string) (st : GameState)
  : Player * GameState :=
  let player := mkPlayer playerId name [] [] [] true socket in
  (player, setPlayers (push (players st) player) st).

Definition removePlayer (playerId : string) (st : GameState) : GameState :=
  match findEntry (hasPlayerId playerId) (players st) with
  | Some (index, _) =>
      let st1 := setPlayers (removeAt index (players st)) st in
      if (List.length (players st1) <=? currentPlayerIndex st1)%nat
      then setCurrentPlayerIndex 0 st1
      else st1
  | None => st
  end.

(** [for (i < n) { const card = deck.pop(); if (card) hand.push(card); }] *)
Fixpoint dealTo (n : nat) (hand0 deck0 : list Card)
  : list Card * list Card :=
  match n with
  | O => (hand0, deck0)
  | S n' => match pop deck0 with
            | (Some card, deck1) => dealTo n' (push hand0 card) deck1
            | (None, deck1) => dealTo n' hand0 deck1
            end
  end.

(** The dealing loop of [startGame] over the players in order. *)
Fixpoint dealAll (ps : list Player) (deck0 : list Card)
  : list Player * list Card :=
  match ps with
  | [] => ([], deck0)
  | p :: rest =>
      let '(h, deck1) := dealTo 5 [] deck0 in
      let '(rest', deck2) := dealAll rest deck1 in
      (setBank [] (setProperties [] (setHand h p)) :: rest', deck2)
  end.

Definition startGame (uuid : nat -> string) (rnd : nat -> nat)
    (st : GameState) : Result unit :=
  if (List.length (players st) <? 2)%nat
  then throw "Need at least 2 players to start" st
  else if (5 <? List.length (players st))%nat
  then throw "Maximum 5 players allowed" st
  else
    let st1 := setDeck (shuffleDeck rnd (createDeck uuid)) st in
    let st2 := setDiscardPile [] st1 in
    let st3 := setPhase phPlaying st2 in
    let st4 := setTurnPhase tpDraw st3 in
    let st5 := setCurrentPlayerIndex 0 st4 in
    let st6 := setActionsRemaining 3 st5 in
    let '(ps, d) := dealAll (players st6) (deck st6) in
    ok (setDeck d (setPlayers ps st6)).

(** The drawing loop shared by [drawCards] and the pass-go action: reshuffle
    the discard pile when the deck is empty, then pop a card into the hand of
    the player at index [pi].  Returns the cards drawn. *)
Fixpoint drawLoop (rnd : nat -> nat) (n : nat) (pi : nat) (st : GameState)
  : list Card * GameState :=
  match n with
  | O => ([], st)
  | S n' =>
      let st1 := match deck st with
                 | [] => setDiscardPile []
                           (setDeck (shuffleDeck rnd (discardPile st)) st)
                 | _ => st
                 end in
      match pop (deck st1) with
      | (Some card, d) =>
          let '(drawn, st2) :=
            drawLoop rnd n' pi (modifyPlayer pi (pushHand card) (setDeck d st1))
          in (card :: drawn, st2)
      | (None, d) => drawLoop rnd n' pi (setDeck d st1)
      end
  end.

(** [state.players[state.currentPlayerIndex].id !== playerId], which throws
    a TypeError when the index is out of range. *)
Definition notYourTurn (playerId : string) (st : GameState) : option bool :=
  match nth_error (players st) (currentPlayerIndex st) with
  | Some currentPlayer => Some (negb (String.eqb (player_id currentPlayer) playerId))
  | None => None
  end.

Definition typeError : string := "TypeError: Cannot read properties of undefined".

Definition tpEqb (a b : TurnPhase) : bool :=
  match a, b with
  | tpDraw, tpDraw | tpAction, tpAction | tpResponding, tpResponding
  | tpFinishing, tpFinishing | tpDiscard, tpDiscard => true
  | _, _ => false
  end.

(** The checks every turn operation starts with; [k] receives the index of
    the player found. *)
Definition asCurrentPlayer {A} (playerId : string) (st : GameState)
    (k : nat -> Player -> Result A) : Result A :=
  match findEntry (hasPlayerId playerId) (players st) with
  | None => throw "Player not found" st
  | Some (pi, player) =>
      match notYourTurn playerId st with
      | None => throw typeError st
      | Some true => throw "Not your turn" st
      | Some false => k pi player
      end
  end.

Definition drawCards (rnd : nat -> nat) (playerId : string) (st : GameState)
  : Result (list Card) :=
  asCurrentPlayer playerId st (fun pi player =>
    if negb (tpEqb (turnPhase st) tpDraw)
    then throw "Cannot draw cards now" st
    else
      let cardsToDraw := match hand player with [] => 5%nat | _ => 2%nat end in
      let '(drawnCards, st1) := drawLoop rnd cardsToDraw pi st in
      (Ok drawnCards, setTurnPhase tpAction st1)).

(* ================================================================== *)
(** ** Property ledger *)

Definition propertyCount (s : PropertySet) : Z :=
  Z.of_nat (List.length (filter isProperty (set_cards s))).

Definition updatePropertySetCompletion (s : PropertySet) : PropertySet :=
  setIsComplete (PROPERTY_SET_REQUIREMENTS (set_color s) <=? propertyCount s) s.

(** [set.cards.push(card); updatePropertySetCompletion(set)]. *)
Definition addToSet (card : Card) (s : PropertySet) : PropertySet :=
  updatePropertySetCompletion (setCards (push (set_cards s) card) s).

Definition newSet (c : PropertyColor) : PropertySet := mkSet c [] false false false.

(** The placement of [playPropertyCard] once the colour is settled: into the
    first set of that colour, or into a new set pushed at the end. *)
Definition placeProperty (c : PropertyColor) (card : Card) (p : Player)
  : Player :=
  match findEntry (hasColor c) (properties p) with
  | Some (k, _) => modifySet k (addToSet card) p
  | None => setProperties (push (properties p) (addToSet card (newSet c))) p
  end.

(** [playPropertyCard(state, player, card, targetColor)] for the player at
    index [pi].  Every call site tests [card.type === 'property'] first, so
    the fields of the property card are passed along with it. *)
Definition playPropertyCard (pi : nat) (card : Card)
    (cardColor : PropertyColor) (isWildcard : bool)
    (wildcardColors : option (list PropertyColor))
    (targetColor : option PropertyColor) (st : GameState) : Result unit :=
  let c := match targetColor with Some t => t | None => cardColor end in
  if isWildcard
     && match wildcardColors with
        | Some l => negb (includesColor l c)
        | None => false
        end
  then throw "Invalid color for wildcard" st
  else ok (modifyPlayer pi (placeProperty c card) st).

(** [arr[i]] for a JavaScript number index: [undefined] out of range. *)
Definition at_index (l : list Z) (i : Z) : option Z :=
  if i <? 0 then None else nth_error l (Z.to_nat i).

(** [x || 0] for a number that may be [undefined]. *)
Definition orZero (o : option Z) : Z :=
  match o with Some v => v | None => 0 end.

Definition rentCount (s : PropertySet) : Z :=
  Z.of_nat (List.length
              (filter (fun c => isProperty c || cardIsWildcard c) (set_cards s))).

Definition calculateRent (s : PropertySet) : Z :=
  let baseRent := RENT_VALUES (set_color s) in
  let propertyCount := rentCount s in
  let rent :=
    orZero (at_index baseRent
              (Z.min (propertyCount - 1) (Z.of_nat (List.length baseRent) - 1))) in
  let rent := if hasHouse s then rent + 3 else rent in
  let rent := if hasHotel s then rent + 4 else rent in
  rent.

(* ================================================================== *)
(** ** Win detector and end of turn *)

Definition completeSets (p : Player) : nat :=
  List.length (filter isComplete (properties p)).

Definition isWinner (p : Player) : bool := (3 <=? completeSets p)%nat.

Definition checkWinner (st : GameState) : GameState :=
  match find isWinner (players st) with
  | Some player => setPhase phFinished (setWinner (Some (player_id player)) st)
  | None => st
  end.

Definition endTurn (st : GameState) : GameState :=
  setPendingAction None
    (setActionsRemaining 3
       (setTurnPhase tpDraw
          (setCurrentPlayerIndex
             ((currentPlayerIndex st + 1) mod List.length (players st))%nat st))).

Definition endTurnEarly (playerId : string) (st : GameState) : Result unit :=
  asCurrentPlayer playerId st (fun pi player =>
    if negb (tpEqb (turnPhase st) tpAction)
       && negb (tpEqb (turnPhase st) tpFinishing)
    then throw "Cannot end turn now" st
    else match pendingAction st with
         | Some _ => throw "Must resolve pending action first" st
         | None =>
             if (7 <? List.length (hand player))%nat
             then ok (setTurnPhase tpDiscard st)
             else ok (endTurn st)
         end).

(** The loop of [discardCards]; a card id that is not in the hand throws
    after the cards before it have been discarded. *)
Fixpoint discardLoop (pi : nat) (cardIds : list string) (st : GameState)
  : Result unit :=
  match cardIds with
  | [] => ok st
  | cardId :: rest =>
      match findEntry (hasId cardId) (handOf pi st) with
      | None => throw "Card not in hand" st
      | Some (index, card) =>
          discardLoop pi rest
            (setDiscardPile (push (discardPile st) card)
               (modifyPlayer pi (fun p => setHand (removeAt index (hand p)) p) st))
      end
  end.

Definition discardCards (playerId : string) (cardIds : list string)
    (st : GameState) : Result unit :=
  asCurrentPlayer playerId st (fun pi player =>
    if negb (tpEqb (turnPhase st) tpDiscard)
    then throw "Not in discard phase" st
    else
      let cardsToDiscard := Z.of_nat (List.length (hand player)) - 7 in
      if negb (Z.of_nat (List.length cardIds) =? cardsToDiscard)
      then throw ("Must discard exactly " ++ showZ cardsToDiscard ++ " cards") st
      else discardLoop pi cardIds st >> (fun st1 => ok (endTurn st1))).

(* ================================================================== *)
(** ** Playing a card *)

(** [target?.field] on the optional target record. *)
Definition tget {A} (f : PlayCardTarget -> option A)
    (target : option PlayCardTarget) : option A :=
  match target with Some t => f t | None => None end.

Definition targetAsBank (target : option PlayCardTarget) : bool :=
  match target with Some t => asBank t | None => false end.

(** An optional string where it is truthy: [undefined] and [''] are not. *)
Definition truthy (o : option string) : option string :=
  if truthyStr o then o else None.

(** [target?.playerId] where it is truthy. *)
Definition targetPlayerId (target : option PlayCardTarget) : option string :=
  truthy (tget t_playerId target).

(** Truthiness of [target?.useDoubleRent]. *)
Definition targetDoubleRent (target : option PlayCardTarget) : bool :=
  match tget useDoubleRent target with Some b => b | None => false end.

(** A pending action with only the fields every kind sets. *)
Definition pendingOf (ty : PendingType) (from : string) (card : Card)
  : PendingAction :=
  mkPending ty from None None card true None None None None None.

Definition withTo (playerId : string) (pa : PendingAction) : PendingAction :=
  mkPending (pa_type pa) (fromPlayerId pa) (Some playerId) (amount pa)
            (pa_card pa) (canSayNo pa) (respondedPlayers pa) (targetSet pa)
            (giveCardId pa) (giveFromSet pa) (isDoubleRent pa).
Definition withAmount (n : Z) (pa : PendingAction) : PendingAction :=
  mkPending (pa_type pa) (fromPlayerId pa) (toPlayerId pa) (Some n)
            (pa_card pa) (canSayNo pa) (respondedPlayers pa) (targetSet pa)
            (giveCardId pa) (giveFromSet pa) (isDoubleRent pa).
Definition withResponded (l : list string) (pa : PendingAction)
  : PendingAction :=
  mkPending (pa_type pa) (fromPlayerId pa) (toPlayerId pa) (amount pa)
            (pa_card pa) (canSayNo pa) (Some l) (targetSet pa)
            (giveCardId pa) (giveFromSet pa) (isDoubleRent pa).
Definition withTargetSet (c : PropertyColor) (pa : PendingAction)
  : PendingAction :=
  mkPending (pa_type pa) (fromPlayerId pa) (toPlayerId pa) (amount pa)
            (pa_card pa) (canSayNo pa) (respondedPlayers pa) (Some c)
            (giveCardId pa) (giveFromSet pa) (isDoubleRent pa).
Definition withGive (cardId : string) (c : PropertyColor) (pa : PendingAction)
  : PendingAction :=
  mkPending (pa_type pa) (fromPlayerId pa) (toPlayerId pa) (amount pa)
            (pa_card pa) (canSayNo pa) (respondedPlayers pa) (targetSet pa)
            (Some cardId) (Some c) (isDoubleRent pa).
Definition withDoubleRent (b : option bool) (pa : PendingAction)
  : PendingAction :=
  mkPending (pa_type pa) (fromPlayerId pa) (toPlayerId pa) (amount pa)
            (pa_card pa) (canSayNo pa) (respondedPlayers pa) (targetSet pa)
            (giveCardId pa) (giveFromSet pa) b.

(** [state.pendingAction = pa; state.turnPhase = 'responding']. *)
Definition openPending (pa : PendingAction) (st : GameState) : Result unit :=
  ok (setTurnPhase tpResponding (setPendingAction (Some pa) st)).

(** The house and hotel cases of [playActionCard]. *)
Definition addHouse (pi : nat) (card : Card) (target : option PlayCardTarget)
    (st : GameState) : Result unit :=
  match tget propertySetColor target with
  | None => throw "Must select a property set" st
  | Some c =>
      match findEntry (hasColor c) (propertiesOf pi st) with
      | None => throw "Set must be complete" st
      | Some (k, houseSet) =>
          if negb (isComplete houseSet) then throw "Set must be complete" st
          else if hasHouse houseSet then throw "Set already has a house" st
          else ok (modifyPlayer pi
                     (modifySet k (fun s =>
                        setCards (push (set_cards s) card) (setHasHouse true s)))
                     st)
      end
  end.

Definition addHotel (pi : nat) (card : Card) (target : option PlayCardTarget)
    (st : GameState) : Result unit :=
  match tget propertySetColor target with
  | None => throw "Must select a property set" st
  | Some c =>
      match findEntry (hasColor c) (propertiesOf pi st) with
      | None => throw "Set must be complete" st
      | Some (k, hotelSet) =>
          if negb (isComplete hotelSet) then throw "Set must be complete" st
          else if negb (hasHouse hotelSet) then throw "Must have a house first" st
          else if hasHotel hotelSet then throw "Set already has a hotel" st
          else ok (modifyPlayer pi
                     (modifySet k (fun s =>
                        setCards (push (set_cards s) card) (setHasHotel true s)))
                     st)
      end
  end.

(** [playActionCard(state, player, card, target)]; [player] is the player at
    index [pi], whose id is [playerId]. *)
Definition playActionCard (rnd : nat -> nat) (pi : nat) (playerId : string)
    (card : Card) (action : ActionType) (target : option PlayCardTarget)
    (st : GameState) : Result unit :=
  match action with
  | passGo =>
      let st1 := snd (drawLoop rnd 2 pi st) in
      ok (setDiscardPile (push (discardPile st1) card) st1)
  | birthday =>
      openPending
        (withResponded [] (withAmount 2 (pendingOf (PAction birthday) playerId card)))
        st
  | debtCollector =>
      match targetPlayerId target with
      | Some to =>
          openPending
            (withAmount 5
               (withTo to (pendingOf (PAction debtCollector) playerId card)))
            st
      | None => throw "Must select a player" st
      end
  | slyDeal =>
      match targetPlayerId target, tget propertySetColor target with
      | Some to, Some c =>
          openPending
            (withTargetSet c
               (withTo to (pendingOf (PAction slyDeal) playerId card)))
            st
      | _, _ => throw "Must select a player and property set" st
      end
  | forcedDeal =>
      match targetPlayerId target, tget propertySetColor target,
            truthy (tget t_giveCardId target), tget t_giveFromSet target with
      | Some to, Some c, Some give, Some giveFrom =>
          openPending
            (withGive give giveFrom
               (withTargetSet c
                  (withTo to (pendingOf (PAction forcedDeal) playerId card))))
            st
      | _, _, _, _ =>
          throw "Must select a player, their property set, and your property to exchange" st
      end
  | dealBreaker =>
      match targetPlayerId target, tget propertySetColor target with
      | Some to, Some c =>
          let targetPlayer := find (hasPlayerId to) (players st) in
          let theSet :=
            match targetPlayer with
            | Some p => find (hasColor c) (properties p)
            | None => None
            end in
          match theSet with
          | Some s =>
              if isComplete s
              then openPending
                     (withTargetSet c
                        (withTo to
                           (pendingOf (PAction dealBreaker) playerId card)))
                     st
              else throw "Can only steal complete sets" st
          | None => throw "Can only steal complete sets" st
          end
      | _, _ => throw "Must select a player and complete set" st
      end
  | house => addHouse pi card target st
  | hotel => addHotel pi card target st
  | doubleRent =>
      throw "Double Rent must be played with a Rent card"
        (setActionsRemaining (actionsRemaining st + 1)
           (modifyPlayer pi (pushHand card) st))
  | justSayNo =>
      throw "Just Say No can only be played in response"
        (setActionsRemaining (actionsRemaining st + 1)
           (modifyPlayer pi (pushHand card) st))
  end.

(** [playRentCard(state, player, card, target)]. *)
Definition playRentCard (pi : nat) (playerId : string) (card : Card)
    (colors : list PropertyColor) (isWildRent : bool)
    (target : option PlayCardTarget) (st : GameState) : Result unit :=
  let matchingSet :=
    match tget propertySetColor target with
    | Some targetColor =>
        find (fun s => hasColor targetColor s && includesColor colors (set_color s))
             (propertiesOf pi st)
    | None =>
        find (fun s => includesColor colors (set_color s)) (propertiesOf pi st)
    end in
  match matchingSet with
  | None => throw "You need a matching property to charge rent" st
  | Some s =>
      let rentAmount := calculateRent s in
      let '(rentAmount, st1) :=
        if targetDoubleRent target then
          match findEntry (isActionOf doubleRent) (handOf pi st) with
          | Some (doubleRentIndex, doubleRentCard) =>
              (rentAmount * 2,
               setActionsRemaining (actionsRemaining st - 1)
                 (setDiscardPile (push (discardPile st) doubleRentCard)
                    (modifyPlayer pi
                       (fun p => setHand (removeAt doubleRentIndex (hand p)) p)
                       st)))
          | None => (rentAmount, st)
          end
        else (rentAmount, st) in
      let base :=
        withDoubleRent (tget useDoubleRent target)
          (withAmount rentAmount (pendingOf PRent playerId card)) in
      let pending :=
        if isWildRent then
          match targetPlayerId target with
          | Some to => Some (withTo to base)
          | None => None
          end
        else Some (withResponded [] base) in
      match pending with
      | None => throw "Must select a player for wild rent" st1
      | Some pa =>
          let st2 := setTurnPhase tpResponding (setPendingAction (Some pa) st1) in
          ok (setDiscardPile (push (discardPile st2) card) st2)
      end
  end.

(** The end-of-play phase change of [playCard]. *)
Definition afterPlay (pi : nat) (st : GameState) : GameState :=
  if (actionsRemaining st <=? 0)
     && match pendingAction st with None => true | Some _ => false end
  then if (7 <? List.length (handOf pi st))%nat
       then setTurnPhase tpDiscard st
       else setTurnPhase tpFinishing st
  else st.

Definition playCard (rnd : nat -> nat) (playerId cardId : string)
    (target : option PlayCardTarget) (st : GameState) : Result unit :=
  asCurrentPlayer playerId st (fun pi player =>
    if negb (tpEqb (turnPhase st) tpAction)
    then throw "Cannot play cards now" st
    else if actionsRemaining st <=? 0
    then throw "No actions remaining" st
    else
      match findEntry (hasId cardId) (hand player) with
      | None => throw "Card not in hand" st
      | Some (cardIndex, card) =>
          let st1 :=
            modifyPlayer pi (fun p => setHand (removeAt cardIndex (hand p)) p) st in
          (if targetAsBank target || isMoney card
           then ok (modifyPlayer pi (pushBank card) st1)
           else match face card with
                | Property c w wcs =>
                    playPropertyCard pi card c w wcs
                      (tget propertySetColor target) st1
                | Action a => playActionCard rnd pi playerId card a target st1
                | Rent colors w => playRentCard pi playerId card colors w target st1
                | Money => ok st1
                end)
          >> (fun st2 =>
                ok (afterPlay pi
                      (checkWinner
                         (setActionsRemaining (actionsRemaining st2 - 1) st2))))
      end).

(* ================================================================== *)
(** ** Answering a pending action *)

(** [state.pendingAction = null] followed by the phase rule; the source has
    this block three times in [respondToAction]. *)
Definition resumeTurn (st : GameState) : Result unit :=
  let st1 := setPendingAction None st in
  if actionsRemaining st1 <=? 0 then
    match nth_error (players st1) (currentPlayerIndex st1) with
    | Some currentPlayer =>
        if (7 <? List.length (hand currentPlayer))%nat
        then ok (setTurnPhase tpDiscard st1)
        else ok (setTurnPhase tpFinishing st1)
    | None => throw typeError st1
    end
  else ok (setTurnPhase tpAction st1).

(** [otherPlayers.every(p => respondedPlayers.includes(p.id))]. *)
Definition allResponded (fromId : string) (responded : list string)
    (ps : list Player) : bool :=
  forallb (fun p => includesStr responded (player_id p))
          (filter (fun p => negb (hasPlayerId fromId p)) ps).

(** For a multi-player action: record the response and resolve once all
    other players have answered; for a single-target action: resolve. *)
Definition trackResponse (playerId : string) (pa : PendingAction)
    (st : GameState) : Result unit :=
  match respondedPlayers pa with
  | Some responded =>
      let responded' := push responded playerId in
      let st1 := setPendingAction (Some (withResponded responded' pa)) st in
      if allResponded (fromPlayerId pa) responded' (players st1)
      then resumeTurn st1
      else ok st1
  | None => resumeTurn st
  end.

(** [{...pendingAction, fromPlayerId: playerId, toPlayerId:
    originalFromPlayerId, canSayNo: true}]. *)
Definition counterAction (playerId : string) (pa : PendingAction)
  : PendingAction :=
  mkPending (pa_type pa) playerId (Some (fromPlayerId pa)) (amount pa)
            (pa_card pa) true (respondedPlayers pa) (targetSet pa)
            (giveCardId pa) (giveFromSet pa) (isDoubleRent pa).

(** The Just Say No branch, for the responder at index [pi] and the
    initiator at index [fi]. *)
Definition refuse (pi fi : nat) (playerId : string) (pa : PendingAction)
    (st : GameState) : Result unit :=
  match findEntry (isActionOf justSayNo) (handOf pi st) with
  | None => throw "No Just Say No card" st
  | Some (justSayNoIndex, justSayNoCard) =>
      let st1 :=
        setDiscardPile (push (discardPile st) justSayNoCard)
          (modifyPlayer pi
             (fun p => setHand (removeAt justSayNoIndex (hand p)) p) st) in
      match respondedPlayers pa with
      | Some _ => trackResponse playerId pa st1
      | None =>
          match find (isActionOf justSayNo) (handOf fi st1) with
          | Some _ => ok (setPendingAction (Some (counterAction playerId pa)) st1)
          | None => resumeTurn st1
          end
      end
  end.

(** *** Payment *)

Definition sumValues (l : list Card) : Z :=
  fold_left (fun sum c => sum + card_value c) l 0.

(** [properties.flatMap(s => s.cards)]. *)
Definition allSetCards (sets : list PropertySet) : list Card :=
  flat_map set_cards sets.

Definition totalAssets (p : Player) : Z :=
  sumValues (bank p) + sumValues (allSetCards (properties p)).

(** [card?.value] where it is truthy. *)
Definition truthyValue (o : option Card) : option Z :=
  match o with
  | Some c => if card_value c =? 0 then None else Some (card_value c)
  | None => None
  end.

(** [bankCard?.value || propCard?.value || 0]. *)
Definition offeredValue (p : Player) (cardId : string) : Z :=
  let bankCard := find (hasId cardId) (bank p) in
  let propCard := find (hasId cardId) (allSetCards (properties p)) in
  match truthyValue bankCard with
  | Some v => v
  | None => orZero (truthyValue propCard)
  end.

Definition paymentValue (p : Player) (paymentIds : list string) : Z :=
  fold_left (fun sum cardId => sum + offeredValue p cardId) paymentIds 0.

(** The first set, by index from [k], that holds a card with the id, with
    the index of the card in it: the scan [for (const set of
    player.properties)] up to its [break]. *)
Fixpoint findInSets (cardId : string) (k : nat) (sets : list PropertySet)
  : option (nat * nat * Card) :=
  match sets with
  | [] => None
  | s :: rest =>
      match findEntry (hasId cardId) (set_cards s) with
      | Some (propIndex, card) => Some (k, propIndex, card)
      | None => findInSets cardId (S k) rest
      end
  end.

Definition takeFromSet (i : nat) (s : PropertySet) : PropertySet :=
  setCards (removeAt i (set_cards s)) s.

(** One turn of the payment loop. *)
Definition payCard (pi fi : nat) (cardId : string) (st : GameState)
  : Result unit :=
  match findEntry (hasId cardId) (bankOf pi st) with
  | Some (bankIndex, card) =>
      ok (modifyPlayer fi (pushBank card)
            (modifyPlayer pi (fun p => setBank (removeAt bankIndex (bank p)) p) st))
  | None =>
      match findInSets cardId 0 (propertiesOf pi st) with
      | Some (k, propIndex, card) =>
          let st1 := modifyPlayer pi (modifySet k (takeFromSet propIndex)) st in
          match face card with
          | Property c w wcs => playPropertyCard fi card c w wcs None st1
          | _ => ok (modifyPlayer fi (pushBank card) st1)
          end
          >> (fun st2 =>
                ok (modifyPlayer pi (modifySet k updatePropertySetCompletion) st2))
      | None => ok st
      end
  end.

Fixpoint payCards (pi fi : nat) (paymentIds : list string) (st : GameState)
  : Result unit :=
  match paymentIds with
  | [] => ok st
  | cardId :: rest => payCard pi fi cardId st >> payCards pi fi rest
  end.

Definition nonEmptySet (s : PropertySet) : bool :=
  match set_cards s with [] => false | _ => true end.

(** [player.properties = player.properties.filter(s => s.cards.length > 0)]. *)
Definition pruneEmptySets (p : Player) : Player :=
  setProperties (filter nonEmptySet (properties p)) p.

(** Truthiness of [pendingAction.amount]: [undefined] and 0 are falsy. *)
Definition truthyAmount (o : option Z) : option Z :=
  match o with
  | Some n => if n =? 0 then None else Some n
  | None => None
  end.

(** The payment block of [respondToAction]. *)
Definition settlePayment (pi fi : nat) (player : Player) (pa : PendingAction)
    (response : ActionResponse) (st : GameState) : Result unit :=
  match accept response, truthyAmount (amount pa) with
  | true, Some requiredAmount =>
      let total := totalAssets player in
      let paymentIds :=
        match paymentCardIds response with Some l => l | None => [] end in
      let paid := paymentValue player paymentIds in
      let minimumPayment := Z.min requiredAmount total in
      if (0 <? total) && (paid <? minimumPayment)
      then throw ("You must pay at least $" ++ showZ minimumPayment
                    ++ "M (you selected $" ++ showZ paid ++ "M)") st
      else payCards pi fi paymentIds st
           >> (fun st1 => ok (modifyPlayer pi pruneEmptySets st1))
  | _, _ => ok st
  end.

(** *** Steal, swap and break *)

(** The index [executeSlyDeal] and [executeForcedDeal] splice at: the last
    card, or the card with the given id when there is one.  On an empty
    array the source's index is -1 and nothing is spliced; here it is 0,
    where there is nothing either. *)
Definition chosenIndex (targetCardId : option string) (l : list Card) : nat :=
  let lastIndex := (List.length l - 1)%nat in
  match truthy targetCardId with
  | Some cardId =>
      match findEntry (hasId cardId) l with
      | Some (idx, _) => idx
      | None => lastIndex
      end
  | None => lastIndex
  end.

(** [if (card && card.type === 'property') playPropertyCard(state, player,
    card, color)] for the player at index [i]. *)
Definition placeIfProperty (i : nat) (card : option Card) (c : PropertyColor)
    (st : GameState) : Result unit :=
  match card with
  | Some cd =>
      match face cd with
      | Property cc w wcs => playPropertyCard i cd cc w wcs (Some c) st
      | _ => ok st
      end
  | None => ok st
  end.

(** [executeSlyDeal(state, fromPlayer, toPlayer, targetColor, targetCardId)]
    with [fromPlayer] at index [fi] and [toPlayer] at index [pi].  An
    [undefined] target colour matches no set. *)
Definition executeSlyDeal (fi pi : nat) (targetColor : option PropertyColor)
    (targetCardId : option string) (st : GameState) : Result unit :=
  match targetColor with
  | None => ok st
  | Some tc =>
      match findEntry (hasColor tc) (propertiesOf pi st) with
      | None => ok st
      | Some (k, theSet) =>
          if isComplete theSet then ok st
          else
            let cardIndex := chosenIndex targetCardId (set_cards theSet) in
            let card := nth_error (set_cards theSet) cardIndex in
            let st1 := modifyPlayer pi (modifySet k (takeFromSet cardIndex)) st in
            placeIfProperty fi card tc st1
            >> (fun st2 =>
                  ok (modifyPlayer pi pruneEmptySets
                        (modifyPlayer pi
                           (modifySet k updatePropertySetCompletion) st2)))
      end
  end.

(** Where the set object at index [k] sits after [properties.filter(s =>
    s.cards.length > 0)]; [None] when the filter dropped it. *)
Definition indexAfterPrune (k : nat) (sets : list PropertySet) : option nat :=
  match nth_error sets k with
  | Some s =>
      if nonEmptySet s
      then Some (List.length (filter nonEmptySet (firstn k sets)))
      else None
  | None => None
  end.

(** The middle block of [executeForcedDeal]: the initiator's card goes to the
    responder.  Returns where the responder's set [k] is afterwards: the
    filter of the initiator's sets moves it only when initiator and responder
    are one player object. *)
Definition giveInExchange (fi pi k : nat) (giveId : option string)
    (giveFrom : option PropertyColor) (st : GameState) : Result (option nat) :=
  match truthy giveId, giveFrom with
  | Some cardId, Some gc =>
      match findEntry (hasColor gc) (propertiesOf fi st) with
      | Some (g, giveSet) =>
          if isComplete giveSet then (Ok (Some k), st)
          else
            match findEntry (hasId cardId) (set_cards giveSet) with
            | Some (giveCardIndex, givenCard) =>
                let st1 :=
                  modifyPlayer fi (modifySet g (takeFromSet giveCardIndex)) st in
                andThen (placeIfProperty pi (Some givenCard) gc st1)
                  (fun _ st2 =>
                     let st3 :=
                       modifyPlayer fi
                         (modifySet g updatePropertySetCompletion) st2 in
                     (Ok (if (fi =? pi)%nat
                          then indexAfterPrune k (propertiesOf fi st3)
                          else Some k),
                      modifyPlayer fi pruneEmptySets st3))
            | None => (Ok (Some k), st)
            end
      | None => (Ok (Some k), st)
      end
  | _, _ => (Ok (Some k), st)
  end.

Definition executeForcedDeal (fi pi : nat) (targetColor : option PropertyColor)
    (targetCardId giveId : option string) (giveFrom : option PropertyColor)
    (st : GameState) : Result unit :=
  match targetColor with
  | None => ok st
  | Some tc =>
      match findEntry (hasColor tc) (propertiesOf pi st) with
      | None => ok st
      | Some (k, theSet) =>
          if isComplete theSet then ok st
          else
            let targetCardIndex := chosenIndex targetCardId (set_cards theSet) in
            let takenCard := nth_error (set_cards theSet) targetCardIndex in
            let st1 :=
              modifyPlayer pi (modifySet k (takeFromSet targetCardIndex)) st in
            andThen (giveInExchange fi pi k giveId giveFrom st1)
              (fun k' st2 =>
                 placeIfProperty fi takenCard tc st2
                 >> (fun st3 =>
                       let st4 :=
                         match k' with
                         | Some j =>
                             modifyPlayer pi
                               (modifySet j updatePropertySetCompletion) st3
                         | None => st3
                         end in
                       ok (modifyPlayer pi pruneEmptySets st4)))
      end
  end.

Definition executeDealBreaker (fi pi : nat) (targetColor : option PropertyColor)
    (st : GameState) : Result unit :=
  match targetColor with
  | None => ok st
  | Some tc =>
      match findEntry (hasColor tc) (propertiesOf pi st) with
      | None => ok st
      | Some (targetSetIndex, theSet) =>
          ok (modifyPlayer fi
                (fun p => setProperties (push (properties p) theSet) p)
                (modifyPlayer pi
                   (fun p => setProperties (removeAt targetSetIndex (properties p)) p)
                   st))
      end
  end.

(** The [switch (state.pendingAction.type)] of [respondToAction]. *)
Definition executeEffect (fi pi : nat) (pa : PendingAction)
    (response : ActionResponse) (st : GameState) : Result unit :=
  match pa_type pa with
  | PAction slyDeal =>
      executeSlyDeal fi pi (targetSet pa) (selectedCardId response) st
  | PAction forcedDeal =>
      executeForcedDeal fi pi (targetSet pa) (selectedCardId response)
        (giveCardId pa) (giveFromSet pa) st
  | PAction dealBreaker => executeDealBreaker fi pi (targetSet pa) st
  | _ => ok st
  end.

Definition isMultiPlayerAction (pa : PendingAction) : bool :=
  match respondedPlayers pa with Some _ => true | None => false end.

Definition alreadyResponded (playerId : string) (pa : PendingAction) : bool :=
  match respondedPlayers pa with
  | Some responded => includesStr responded playerId
  | None => false
  end.

Definition respondToAction (playerId : string) (response : ActionResponse)
    (st : GameState) : Result unit :=
  match pendingAction st with
  | None => throw "No pending action" st
  | Some pa =>
      match findEntry (hasPlayerId playerId) (players st) with
      | None => throw "Player not found" st
      | Some (pi, player) =>
          match findEntry (hasPlayerId (fromPlayerId pa)) (players st) with
          | None => throw "Action initiator not found" st
          | Some (fi, fromPlayer) =>
              if alreadyResponded playerId pa
              then throw "You have already responded to this action" st
              else if useJustSayNo response
              then refuse pi fi playerId pa st
              else
                settlePayment pi fi player pa response st
                >> (fun st1 =>
                      if accept response && negb (isMultiPlayerAction pa)
                      then executeEffect fi pi pa response st1
                      else ok st1)
                >> trackResponse playerId pa
          end
      end
  end.

(* ================================================================== *)
(** ** Wildcard relocation and the per-viewer projection *)

Definition rearrangeProperty (playerId cardId : string)
    (fromColor toColor : PropertyColor) (st : GameState) : Result unit :=
  asCurrentPlayer playerId st (fun pi player =>
    if negb (tpEqb (turnPhase st) tpAction)
       && negb (tpEqb (turnPhase st) tpFinishing)
    then throw "Cannot rearrange now" st
    else
      match findEntry (hasColor fromColor) (properties player) with
      | None => throw "Source property set not found" st
      | Some (k, fromSet) =>
          match findEntry (hasId cardId) (set_cards fromSet) with
          | None => throw "Card not found in source set" st
          | Some (cardIndex, card) =>
              if negb (cardIsWildcard card)
              then throw "Only wildcard properties can be rearranged" st
              else if match face card with
                      | Property _ _ (Some l) => negb (includesColor l toColor)
                      | _ => false
                      end
              then throw "This wildcard cannot be placed on that color" st
              else
                let st1 :=
                  modifyPlayer pi
                    (modifySet k (fun s =>
                       updatePropertySetCompletion (takeFromSet cardIndex s)))
                    st in
                let st2 := modifyPlayer pi (placeProperty toColor card) st1 in
                let st3 := modifyPlayer pi pruneEmptySets st2 in
                ok (checkWinner st3)
          end
      end).

Definition hiddenCard : Card := mkCard "hidden" "Hidden" 0 "card-back" Money.

(** [p.id === forPlayerId], false for every player when no id is given. *)
Definition isViewer (forPlayerId : option string) (p : Player) : bool :=
  match forPlayerId with
  | Some v => String.eqb (player_id p) v
  | None => false
  end.

Definition redactHand (forPlayerId : option string) (p : Player) : Player :=
  setHand (if isViewer forPlayerId p then hand p
           else map (fun _ => hiddenCard) (hand p)) p.

Definition getPublicGameState (forPlayerId : option string) (st : GameState)
  : GameState :=
  setPlayers (map (redactHand forPlayerId) (players st)) st.

(* ================================================================== *)
(** ** The exported operations as labelled transitions *)

Inductive Op :=
| OpAddPlayer (playerId name socket : string)
| OpRemovePlayer (playerId : string)
| OpStartGame (uuid : nat -> string) (rnd : nat -> nat)
| OpDrawCards (rnd : nat -> nat) (playerId : string)
| OpPlayCard (rnd : nat -> nat) (playerId cardId : string)
             (target : option PlayCardTarget)
| OpRespondToAction (playerId : string) (response : ActionResponse)
| OpDiscardCards (playerId : string) (cardIds : list string)
| OpEndTurnEarly (playerId : string)
| OpRearrangeProperty (playerId cardId : string)
                      (fromColor toColor : PropertyColor).

Definition void {A} (r : Result A) : Result unit :=
  match r with
  | (Ok _, st) => (Ok tt, st)
  | (Throw msg, st) => (Throw msg, st)
  end.

(** One call of an exported operation: what it returned or threw, and the
    state it left. *)
Definition run (op : Op) (st : GameState) : Result unit :=
  match op with
  | OpAddPlayer playerId name socket => ok (snd (addPlayer playerId name socket st))
  | OpRemovePlayer playerId => ok (removePlayer playerId st)
  | OpStartGame uuid rnd => startGame uuid rnd st
  | OpDrawCards rnd playerId => void (drawCards rnd playerId st)
  | OpPlayCard rnd playerId cardId target => playCard rnd playerId cardId target st
  | OpRespondToAction playerId response => respondToAction playerId response st
  | OpDiscardCards playerId cardIds => discardCards playerId cardIds st
  | OpEndTurnEarly playerId => endTurnEarly playerId st
  | OpRearrangeProperty playerId cardId fromColor toColor =>
      rearrangeProperty playerId cardId fromColor toColor st
  end.

(** The state after a sequence of calls.  A call that throws leaves its
    state behind like any other: the caller catches the error and keeps the
    same state object. *)
Definition runAll (ops : list Op) (st : GameState) : GameState :=
  fold_left (fun s op => snd (run op s)) ops st.

(** The states the exported operations can produce from a fresh game. *)
Inductive Reachable : GameState -> Prop :=
| reach_create gameId uuid rnd room :
    Reachable (createGameState gameId uuid rnd room)
| reach_step op st :
    Reachable st -> Reachable (snd (run op st)).

(* ================================================================== *)
(** ** The rules in the words of the specification *)

(** Rent: the base table entry at (count of qualifying cards - 1), clamped
    to the table's last index, plus 3 for a house and 4 for a hotel. *)
Definition rentBySpec (s : PropertySet) : Z :=
  let table := RENT_VALUES (set_color s) in
  let count := Z.to_nat (rentCount s) in
  nth (Nat.min (count - 1) (List.length table - 1)) table 0
  + (if hasHouse s then 3 else 0)
  + (if hasHotel s then 4 else 0).

(** Two players that differ at most in the contents, not the size, of a hand
    the viewer may not see. *)
Definition sameToViewer (viewer : option string) (p q : Player) : Prop :=
  player_id p = player_id q /\ player_name p = player_name q
  /\ properties p = properties q /\ bank p = bank q
  /\ isConnected p = isConnected q /\ socketId p = socketId q
  /\ List.length (hand p) = List.length (hand q)
  /\ (isViewer viewer p = true -> hand p = hand q).

(** Two states that differ only in the hands of players other than the
    viewer. *)
Definition differOnlyInOtherHands (viewer : option string)
    (s1 s2 : GameState) : Prop :=
  setPlayers [] s1 = setPlayers [] s2
  /\ Forall2 (sameToViewer viewer) (players s1) (players s2).

(** The phase a turn resumes in once a pending action is cleared: discard
    with more than 7 cards in the current player's hand and no action left,
    finishing with no action left, action otherwise. *)
Definition resumedPhase (st : GameState) (currentPlayer : Player) : TurnPhase :=
  if actionsRemaining st <=? 0
  then if (7 <? List.length (hand currentPlayer))%nat then tpDiscard
       else tpFinishing
  else tpAction.



(** A wildcard whose own colour is among the colours it may take, as every
    card of the catalog is. *)
Definition homeColorAllowed (c : Card) : bool :=
  match face c with
  | Property cc true (Some l) => includesColor l cc
  | _ => true
  end.

(** The pending actions that carry a payment: birthday, debt collector and
    rent.  The others have an effect on accept instead. *)
Definition paysOnly (pa : PendingAction) : bool :=
  match pa_type pa with
  | PAction slyDeal | PAction forcedDeal | PAction dealBreaker => false
  | _ => true
  end.

(** The card is in a property set of that colour owned by the player at
    index [i]. *)
Definition inSetOfColor (i : nat) (c : PropertyColor) (card : Card)
    (st : GameState) : Prop :=
  exists s, In s (propertiesOf i st) /\ set_color s = c /\ In card (set_cards s).

Definition cardColor (card : Card) : option PropertyColor :=
  match face card with Property c _ _ => Some c | _ => None end.

(** Which operations end a turn. *)
Definition endsTurn (op : Op) : bool :=
  match op with
  | OpDiscardCards _ _ | OpEndTurnEarly _ => true
  | _ => false
  end.

(* ================================================================== *)
(** ** Counting the catalog *)

Definition countCards (f : Card -> bool) (l : list Card) : nat :=
  List.length (filter f l).
Definition isPlainOfColor (col : PropertyColor) (c : Card) : bool :=
  match face c with Property cc false _ => colorEqb cc col | _ => false end.
Definition isPlainProperty (c : Card) : bool :=
  match face c with Property _ false _ => true | _ => false end.
Definition isUnrestrictedWildcard (c : Card) : bool :=
  match face c with
  | Property _ true (Some l) => forallb (includesColor l) allColors
  | _ => false
  end.
Definition isMoneyOf (v : Z) (c : Card) : bool := isMoney c && (card_value c =? v).
Definition isRentFor (a b : PropertyColor) (c : Card) : bool :=
  match face c with
  | Rent [x; y] false => colorEqb x a && colorEqb y b
  | _ => false
  end.
Definition isWildRentCard (c : Card) : bool :=
  match face c with
  | Rent l true => forallb (includesColor l) allColors
  | _ => false
  end.


(* ================================================================== *)
(** ** Vocabulary of the proofs *)

(** The card lies in a set of colour [c] of the player. *)
Definition ownsIn (owner : Player) (c : PropertyColor) (card : Card) : Prop :=
  exists s, In s (properties owner) /\ set_color s = c /\ In card (set_cards s).

Definition homeSet (owner : Player) (card : Card) : Prop :=
  exists c, cardColor card = Some c /\ ownsIn owner c card.

Definition playerAt (i : nat) (st : GameState) : option Player :=
  nth_error (players st) i.

(** Every card in the player's sets may sit in a set of its own colour. *)
Definition setsWellFormed (p : Player) : Prop :=
  forall card, In card (allSetCards (properties p)) -> homeColorAllowed card = true.

(** What one payment step establishes, from the responder [p] and initiator
    [f] before it to [p'] and [f'] after it. *)
Definition stepFacts (x : string) (p f p' f' : Player) : Prop :=
  incl (bank f) (bank f')
  /\ (forall card, homeSet f card -> homeSet f' card)
  /\ (forall card, find (hasId x) (bank p) = Some card -> In card (bank f'))
  /\ (forall card,
        find (hasId x) (bank p) = None ->
        find (hasId x) (allSetCards (properties p)) = Some card ->
        isProperty card = true -> homeSet f' card)
  /\ (forall cid, cid <> x ->
        filter (hasId cid) (bank p') = filter (hasId cid) (bank p)
        /\ filter (hasId cid) (allSetCards (properties p'))
           = filter (hasId cid) (allSetCards (properties p)))
  /\ incl (allSetCards (properties p')) (allSetCards (properties p)).

Definition takeFromBank (i : nat) (p : Player) : Player :=
  setBank (removeAt i (bank p)) p.

Definition loopFacts (ids : list string) (p f f' : Player) : Prop :=
  incl (bank f) (bank f')
  /\ (forall card, homeSet f card -> homeSet f' card)
  /\ (forall cid card,
        In cid ids -> find (hasId cid) (bank p) = Some card -> In card (bank f'))
  /\ (forall cid card,
        In cid ids ->
        find (hasId cid) (bank p) = None ->
        find (hasId cid) (allSetCards (properties p)) = Some card ->
        isProperty card = true -> homeSet f' card).


(** The match frame: its phase and its winner. *)
Definition sameMatch (st0 st : GameState) : Prop :=
  phase st = phase st0 /\ winner st = winner st0.

(** The negotiation frame: the pending action and the turn phase. *)
Definition samePending (st0 st : GameState) : Prop :=
  pendingAction st = pendingAction st0 /\ turnPhase st = turnPhase st0.

(** The turn frame: whose turn it is and how many players there are. *)
Definition sameTurn (st0 st : GameState) : Prop :=
  currentPlayerIndex st = currentPlayerIndex st0
  /\ List.length (players st) = List.length (players st0).

(** The pending action and the turn phase agree: an action is pending
    exactly in the responding phase. *)
Definition pendingOk (st : GameState) : Prop :=
  match pendingAction st with
  | Some _ => turnPhase st = tpResponding
  | None => turnPhase st <> tpResponding
  end.

(** The current player index points at a player, or is 0 in an empty
    lobby. *)
Definition indexOk (st : GameState) : Prop :=
  (currentPlayerIndex st < List.length (players st))%nat
  \/ currentPlayerIndex st = 0%nat.

(** Where a card play may leave the negotiation: nothing pending and still
    in the action phase, or an action pending and responding. *)
Definition duringPlay (st : GameState) : Prop :=
  match pendingAction st with
  | Some _ => turnPhase st = tpResponding
  | None => turnPhase st = tpAction
  end.

(** Pending action, turn phase, turn index and number of players at once. *)
Definition sameTable (st0 st : GameState) : Prop :=
  samePending st0 st /\ sameTurn st0 st.

(** A card play either leaves pending action and turn phase alone or opens
    a pending action and enters the responding phase. *)
Definition playStep (st st' : GameState) : Prop :=
  sameTable st st'
  \/ (pendingAction st' <> None /\ turnPhase st' = tpResponding
      /\ sameTurn st st').

Definition isStartGame (op : Op) : bool :=
  match op with OpStartGame _ _ => true | _ => false end.

(** No call in the sequence starts the game while an action is pending. *)
Fixpoint restartFree (ops : list Op) (st : GameState) : bool :=
  match ops with
  | [] => true
  | op :: rest =>
      (negb (isStartGame op)
       || match pendingAction st with None => true | Some _ => false end)
      && restartFree rest (snd (run op st))
  end.


(* ================================================================== *)
(** ** Concrete games *)

(** Ids for the cards of a deck: c0, c1, ... in the order of [createDeck]. *)
Definition cardUuid (n : nat) : string :=
  "c" ++ NilEmpty.string_of_uint (Nat.to_uint n).

(** A random source under which [shuffleDeck] swaps every index with itself. *)
Definition noShuffle (i : nat) : nat := i.

(** A random source that draws [j] at the indices listed and leaves the
    other indices in place. *)
Fixpoint rndOf (l : list (nat * nat)) (i : nat) : nat :=
  match l with
  | [] => i
  | (a, j) :: t => if (i =? a)%nat then j else rndOf t i
  end.

Definition freshGame : GameState := createGameState "g" cardUuid noShuffle "room".

Definition twoPlayers : list Op :=
  [OpAddPlayer "A" "Alice" "sa"; OpAddPlayer "B" "Bob" "sb"].

Definition onPlayer (playerId : string) : option PlayCardTarget :=
  Some (mkTarget false (Some playerId) None None None None).

(** A plays a birthday card, then the game is started again. *)
Definition restartWhilePending : list Op :=
  twoPlayers
  ++ [OpStartGame cardUuid (rndOf [(104, 72)]%nat);
      OpDrawCards noShuffle "A";
      OpPlayCard noShuffle "A" "c72" None;
      OpStartGame cardUuid noShuffle].

(** A lays down brown and utility and one dark blue, B one dark blue; A plays
    a debt collector on B. *)
Definition debtOnB : list Op :=
  twoPlayers
  ++ [OpStartGame cardUuid
        (rndOf [(104, 0); (103, 1); (102, 26); (101, 27); (100, 20);
                (99, 21); (94, 69)]%nat);
      OpDrawCards noShuffle "A";
      OpPlayCard noShuffle "A" "c0" None;
      OpPlayCard noShuffle "A" "c1" None;
      OpPlayCard noShuffle "A" "c26" None;
      OpEndTurnEarly "A";
      OpDrawCards noShuffle "B";
      OpPlayCard noShuffle "B" "c21" None;
      OpEndTurnEarly "B";
      OpDrawCards noShuffle "A";
      OpPlayCard noShuffle "A" "c27" None;
      OpPlayCard noShuffle "A" "c20" None;
      OpPlayCard noShuffle "A" "c69" (onPlayer "B")].

(** B pays the debt with the dark blue property. *)
Definition payWithProperty : Op :=
  OpRespondToAction "B" (mkResponse true false (Some ["c21"]) None).

(** A is dealt a double-rent card first and has drawn. *)
Definition holdingDoubleRent : list Op :=
  twoPlayers
  ++ [OpStartGame cardUuid (rndOf [(104, 90)]%nat);
      OpDrawCards noShuffle "A"].

(** Three players; A and B have ended their turns, C is to play. *)
Definition thirdPlayersTurn : list Op :=
  twoPlayers
  ++ [OpAddPlayer "C" "Carol" "sc";
      OpStartGame cardUuid noShuffle;
      OpDrawCards noShuffle "A"; OpEndTurnEarly "A";
      OpDrawCards noShuffle "B"; OpEndTurnEarly "B"].

Definition oneRed : PropertySet :=
  mkSet red [plain "Kentucky Avenue" red 3 "r1"] false false false.
Definition fullBrown : PropertySet :=
  mkSet brown [plain "Mediterranean Avenue" brown 1 "b1";
               plain "Baltic Avenue" brown 1 "b2";
               createActionCard house "House" 3 "h1";
               createActionCard hotel "Hotel" 4 "h2"] true true true.

(** B's hand as dealt, and a state where B holds other cards instead. *)
Definition afterDeal : GameState :=
  runAll (twoPlayers ++ [OpStartGame cardUuid noShuffle]) freshGame.
Definition afterOtherDeal : GameState :=
  runAll (twoPlayers ++ [OpStartGame cardUuid (rndOf [(99, 3)]%nat)]) freshGame.

Definition decline : ActionResponse := mkResponse false false None None.
Definition payDarkBlue : ActionResponse := mkResponse true false (Some ["c21"]) None.

Definition debtPending : GameState := runAll debtOnB freshGame.


(** B, who owns 1 + 2 in the bank and nothing else, owes A 5. *)
Definition owesFive : GameState :=
  mkState "g" "room"
    [mkPlayer "A" "Alice" [] [] [] true "sa";
     mkPlayer "B" "Bob" [] []
       [createMoneyCard 1 "m1"; createMoneyCard 2 "m2"] true "sb"]
    0 [] [] phPlaying tpResponding 2
    (Some (withAmount 5
             (withTo "B"
                (pendingOf (PAction debtCollector) "A"
                   (createActionCard debtCollector "Debt Collector" 3 "d1")))))
    None.

Definition payTwo : ActionResponse := mkResponse true false (Some ["m2"]) None.
Definition payThree : ActionResponse :=
  mkResponse true false (Some ["m1"; "m2"]) None.

(** B banks 1M and 2M; A plays a debt collector on B. *)
Definition debtOnBanker : list Op :=
  twoPlayers
  ++ [OpStartGame cardUuid (rndOf [(104, 69); (99, 37); (98, 43)]%nat);
      OpDrawCards noShuffle "A";
      OpEndTurnEarly "A";
      OpDrawCards noShuffle "B";
      OpPlayCard noShuffle "B" "c37" None;
      OpPlayCard noShuffle "B" "c43" None;
      OpEndTurnEarly "B";
      OpDrawCards noShuffle "A";
      OpPlayCard noShuffle "A" "c69" (onPlayer "B")].

(** B offers the 2M card, once and twice. *)
Definition payOnce : ActionResponse := mkResponse true false (Some ["c43"]) None.
Definition payTwice : ActionResponse :=
  mkResponse true false (Some ["c43"; "c43"]) None.

Definition threeInLobby : GameState :=
  runAll (twoPlayers ++ [OpAddPlayer "C" "Carol" "sc"]) freshGame.

(* ================================================================== *)
(** ** Room codes (gameSocket.ts) *)

(** [chars.charAt(i)]: the one-character string at index [i], the empty
    string out of range. *)
Definition charAt (s : string) (i : nat) : string :=
  match String.get i s with
  | Some c => String c EmptyString
  | None => ""
  end.

Definition roomCodeChars : string := "ABCDEFGHJKLMNPQRSTUVWXYZ23456789".

(** The loop of [generateRoomCode] with [n] rounds to go; [rnd i] is the
    random draw of round [i], brought into the range
    [Math.floor(Math.random() * chars.length)] has. *)
Fixpoint roomCodeFrom (rnd : nat -> nat) (i n : nat) (code : string) : string :=
  match n with
  | O => code
  | S n' =>
      roomCodeFrom rnd (S i) n'
        (code ++ charAt roomCodeChars
                   (rnd i mod String.length roomCodeChars)%nat)
  end.

Definition generateRoomCode (rnd : nat -> nat) : string :=
  roomCodeFrom rnd 0 6 "".

(* ================================================================== *)
(** ** Rent along a growing set *)

(** The rent a set of that colour charges with [n] qualifying cards and no
    house or hotel: the table lookup of [calculateRent]. *)
Definition baseRentAt (c : PropertyColor) (n : Z) : Z :=
  orZero (at_index (RENT_VALUES c)
            (Z.min (n - 1) (Z.of_nat (List.length (RENT_VALUES c)) - 1))).

(** What house and hotel add to the rent. *)
Definition improvements (s : PropertySet) : Z :=
  (if hasHouse s then 3 else 0) + (if hasHotel s then 4 else 0).

(* ================================================================== *)
(** ** More concrete games *)

(** Both players have drawn and passed; A has drawn again, holds nine cards
    and has ended the turn, so A must discard two. *)
Definition mustDiscard : list Op :=
  twoPlayers
  ++ [OpStartGame cardUuid noShuffle;
      OpDrawCards noShuffle "A"; OpEndTurnEarly "A";
      OpDrawCards noShuffle "B"; OpEndTurnEarly "B";
      OpDrawCards noShuffle "A"; OpEndTurnEarly "A"].

(* ================================================================== *)
(** ** Classes of operations *)

(** The operations all of whose [throw] statements come before their first
    assignment. *)
Definition checksFirst (op : Op) : bool :=
  match op with
  | OpAddPlayer _ _ _ | OpRemovePlayer _ | OpStartGame _ _ | OpDrawCards _ _
  | OpEndTurnEarly _ | OpRearrangeProperty _ _ _ _ => true
  | OpPlayCard _ _ _ _ | OpRespondToAction _ _ | OpDiscardCards _ _ => false
  end.

(* ================================================================== *)
(** ** Vocabulary of the play theorems *)

(** The turn phase [playCard] leaves: with no action left and nothing
    pending, discard with more than seven cards in hand and finishing
    otherwise; else the phase the play itself left. *)
Definition phaseAfterPlay (pi : nat) (st : GameState) : TurnPhase :=
  if (actionsRemaining st <=? 0)
     && match pendingAction st with None => true | Some _ => false end
  then if (7 <? List.length (handOf pi st))%nat then tpDiscard else tpFinishing
  else turnPhase st.

(** The card is out of the hand: [player.hand.splice(cardIndex, 1)]. *)
Definition takeFromHand (cardIndex : nat) (p : Player) : Player :=
  setHand (removeAt cardIndex (hand p)) p.

(** A has been dealt a hand and has drawn. *)
Definition afterDraw : GameState :=
  runAll (twoPlayers ++ [OpStartGame cardUuid noShuffle;
                         OpDrawCards noShuffle "A"]) freshGame.

Definition toBank : option PlayCardTarget :=
  Some (mkTarget true None None None None None).

Definition onColor (c : PropertyColor) : option PlayCardTarget :=
  Some (mkTarget false None (Some c) None None None).



(** The set [playRentCard] charges for: the first set of the player whose
    colour is on the rent card, and is the colour named when one is named. *)
Definition matchingSet (colors : list PropertyColor)
    (target : option PlayCardTarget) (sets : list PropertySet)
  : option PropertySet :=
  match tget propertySetColor target with
  | Some targetColor =>
      find (fun s => hasColor targetColor s && includesColor colors (set_color s))
           sets
  | None => find (fun s => includesColor colors (set_color s)) sets
  end.

(** Whether a rent is doubled: asked for, and a Double The Rent card is in
    the hand the rent card has just left. *)
Definition rentDoubled (target : option PlayCardTarget) (rest : list Card)
  : bool :=
  targetDoubleRent target
  && match find (isActionOf doubleRent) rest with
     | Some _ => true
     | None => false
     end.

Definition houseCard : Card := createActionCard house "House" 3 "h1".
Definition hotelCard : Card := createActionCard hotel "Hotel" 4 "h2".

(** A holds a brown property, a Double The Rent and a brown/light-blue rent
    card, has drawn and has laid down the property. *)
Definition rentReady : GameState :=
  runAll (twoPlayers
          ++ [OpStartGame cardUuid (rndOf [(104, 0); (103, 90)]%nat);
              OpDrawCards noShuffle "A";
              OpPlayCard noShuffle "A" "c0" None]) freshGame.

Definition doubling : option PlayCardTarget :=
  Some (mkTarget false None None None None (Some true)).

(** A's first hand holds a Pass Go (c75); A has drawn. *)
Definition holdingPassGo : GameState :=
  runAll (twoPlayers
          ++ [OpStartGame cardUuid (rndOf [(104, 75)]%nat);
              OpDrawCards noShuffle "A"]) freshGame.

(* ================================================================== *)
(** ** Where the cards are *)

(** The cards a player holds: hand, bank and property sets. *)
Definition playerCards (p : Player) : list Card :=
  hand p ++ bank p ++ allSetCards (properties p).

(** The cards in play: draw pile, discard pile and what the players hold. *)
Definition cardsInPlay (st : GameState) : list Card :=
  deck st ++ discardPile st ++ flat_map playerCards (players st).

(** How many cards in play pass a test. *)
Definition census (f : Card -> bool) (st : GameState) : nat :=
  countCards f (cardsInPlay st).

(** [st] together with the cards [flight], which an operation has taken out
    and not yet put down, holds no card that [st0] does not hold, and none
    more often. *)
Definition within (flight : list Card) (st0 st : GameState) : Prop :=
  forall f, (census f st + countCards f flight <= census f st0)%nat.

(** Who sits where: what [gameLogic.ts] never assigns in a player. *)
Definition seat (p : Player) : string * string * bool * string :=
  (player_id p, player_name p, isConnected p, socketId p).

Definition sameSeats (st0 st : GameState) : Prop :=
  map seat (players st) = map seat (players st0).

(** The card a splice may have brought out, in front of the cards in
    flight. *)
Definition andCard (card : option Card) (flight : list Card) : list Card :=
  match card with Some c => c :: flight | None => flight end.

(** The count of one card: 1 when it passes the test. *)
Definition counts (f : Card -> bool) (c : Card) : nat := if f c then 1 else 0.

(** How many cards of a list of sets, and of what a player holds, pass a
    test. *)
Definition countInSets (f : Card -> bool) (sets : list PropertySet) : nat :=
  list_sum (map (fun s => countCards f (set_cards s)) sets).
Definition countHeld (f : Card -> bool) (p : Player) : nat :=
  (countCards f (hand p) + countCards f (bank p)
   + countInSets f (properties p))%nat.

(** How many cards passing a test the player owns, in the bank and in the
    property sets: what a payment can be made of. *)
Definition countOwned (f : Card -> bool) (p : Player) : nat :=
  (countCards f (bank p) + countInSets f (properties p))%nat.

(** A run of answers to the pending action, each by the player named with
    the response given; [Some] state when every call returned normally. *)
Fixpoint answerChain (calls : list (string * ActionResponse))
    (st : GameState) : option GameState :=
  match calls with
  | [] => Some st
  | (playerId, response) :: rest =>
      match respondToAction playerId response st with
      | (Ok _, st1) => answerChain rest st1
      | (Throw _, _) => None
      end
  end.

(** Three players; A has played a birthday card, which B and C must
    answer. *)
Definition birthdayParty : GameState :=
  runAll (twoPlayers
          ++ [OpAddPlayer "C" "Carol" "sc";
              OpStartGame cardUuid (rndOf [(104, 72)]%nat);
              OpDrawCards noShuffle "A";
              OpPlayCard noShuffle "A" "c72" None]) freshGame.


(** The operations that end with [checkWinner]. *)
Definition checksWinner (op : Op) : bool :=
  match op with
  | OpPlayCard _ _ _ _ | OpRearrangeProperty _ _ _ _ => true
  | _ => false
  end.

(** The player an operation is called for. *)
Definition caller (op : Op) : option string :=
  match op with
  | OpDrawCards _ playerId | OpPlayCard _ playerId _ _
  | OpRespondToAction playerId _ | OpDiscardCards playerId _
  | OpEndTurnEarly playerId | OpRearrangeProperty playerId _ _ _ =>
      Some playerId
  | _ => None
  end.

(** A has laid down brown and utility and one dark blue, and holds the
    second dark blue (c21): one card short of three complete sets. *)
Definition oneCardFromWinning : GameState :=
  runAll (twoPlayers
          ++ [OpStartGame cardUuid
                (rndOf [(104, 0); (103, 1); (102, 26); (101, 27); (100, 20);
                        (94, 21)]%nat);
              OpDrawCards noShuffle "A";
              OpPlayCard noShuffle "A" "c0" None;
              OpPlayCard noShuffle "A" "c1" None;
              OpPlayCard noShuffle "A" "c26" None;
              OpEndTurnEarly "A";
              OpDrawCards noShuffle "B";
              OpEndTurnEarly "B";
              OpDrawCards noShuffle "A";
              OpPlayCard noShuffle "A" "c27" None;
              OpPlayCard noShuffle "A" "c20" None]) freshGame.

(* ================================================================== *)
(** ** What an answer depends on *)

(** A pending action without the two fields that say who is to answer and
    whether a refusal is allowed. *)
Definition unaddressedAction (pa : PendingAction) : PendingAction :=
  mkPending (pa_type pa) (fromPlayerId pa) None (amount pa) (pa_card pa) true
            (respondedPlayers pa) (targetSet pa) (giveCardId pa)
            (giveFromSet pa) (isDoubleRent pa).

Definition unaddressed (st : GameState) : GameState :=
  setPendingAction (option_map unaddressedAction (pendingAction st)) st.

(** The same outcome, with the state it left passed through [g]. *)
Definition onState {A} (g : GameState -> GameState) (r : Result A) : Result A :=
  (fst r, g (snd r)).

(** B owns the complete brown set, with house and hotel, and one red
    property; A, who owns one red property, has played a Deal Breaker on
    B's brown set. *)
Definition setAtStake : GameState :=
  mkState "g" "room"
    [mkPlayer "A" "Alice" [] [oneRed] [createMoneyCard 1 "m1"] true "sa";
     mkPlayer "B" "Bob" [] [oneRed; fullBrown] [createMoneyCard 2 "m2"]
       true "sb"]
    0 [] [] phPlaying tpResponding 2
    (Some (withTargetSet brown
             (withTo "B"
                (pendingOf (PAction dealBreaker) "A"
                   (createActionCard dealBreaker "Deal Breaker" 5 "d1")))))
    None.

(** An acceptance that names no cards. *)
Definition giveIn : ActionResponse := mkResponse true false None None.

(* ================================================================== *)
(** * Properties *)

Unset Implicit Arguments.

(** ** Arrays *)

Section FindEntry.
Context {A : Type} (p : A -> bool).

Lemma findEntry_Some l i x :
  findEntry p l = Some (i, x) -> nth_error l i = Some x /\ p x = true.
Proof.
  revert i. induction l as [|a l IH]; intros i H; simpl in H; [discriminate|].
  destruct (p a) eqn:Hpa.
  - injection H as <- <-. auto.
  - destruct (findEntry p l) as [[j y]|] eqn:Hf; [|discriminate].
    injection H as <- <-. simpl. now apply IH.
Qed.

Lemma findEntry_None l :
  findEntry p l = None -> forall x, In x l -> p x = false.
Proof.
  induction l as [|a l IH]; intros H x Hin; simpl in *; [contradiction|].
  destruct (p a) eqn:Hpa; [discriminate|].
  destruct (findEntry p l) as [[j y]|] eqn:Hf; [discriminate|].
  destruct Hin as [<-|Hin]; auto.
Qed.

Lemma findEntry_found l x :
  In x l -> p x = true -> exists i y, findEntry p l = Some (i, y).
Proof.
  intros Hin Hp. destruct (findEntry p l) as [[i y]|] eqn:Hf; [eauto|].
  rewrite (findEntry_None _ Hf _ Hin) in Hp. discriminate.
Qed.

Lemma find_findEntry l : find p l = option_map snd (findEntry p l).
Proof.
  induction l as [|a l IH]; simpl; [reflexivity|].
  destruct (p a); [reflexivity|]. rewrite IH.
  now destruct (findEntry p l) as [[j y]|].
Qed.
End FindEntry.

Section Lengths.
Context {A : Type}.

Lemma length_updateAt i (f : A -> A) l :
  List.length (updateAt i f l) = List.length l.
Proof.
  revert i. induction l as [|x l IH]; intros [|i]; simpl; auto.
Qed.

Lemma length_swapAt i j (l : list A) : List.length (swapAt i j l) = List.length l.
Proof.
  unfold swapAt. destruct (nth_error l i), (nth_error l j); auto.
  now rewrite !length_updateAt.
Qed.

Lemma length_shuffleFrom rnd i (l : list A) :
  List.length (shuffleFrom rnd i l) = List.length l.
Proof.
  revert l. induction i as [|i IH]; intros l; simpl; [reflexivity|].
  now rewrite IH, length_swapAt.
Qed.

Lemma length_shuffleDeck rnd (l : list A) :
  List.length (shuffleDeck rnd l) = List.length l.
Proof. apply length_shuffleFrom. Qed.

Lemma pop_nonempty (l : list A) :
  l <> [] ->
  exists x l', pop l = (Some x, l') /\ List.length l = S (List.length l').
Proof.
  intros Hne. unfold pop. destruct (rev l) as [|x r] eqn:Hr.
  - apply (f_equal (@rev A)) in Hr. rewrite rev_involutive in Hr. contradiction.
  - exists x, (rev r). split; [reflexivity|].
    rewrite <- (length_rev l), Hr. simpl. now rewrite length_rev.
Qed.
End Lengths.

(* ================================================================== *)
(** ** Rent (C8) *)

Lemma rentTable_nonempty c : RENT_VALUES c <> [].
Proof. destruct c; discriminate. Qed.

Lemma at_index_clamped (tbl : list Z) (m : nat) :
  (1 <= m)%nat -> tbl <> [] ->
  at_index tbl (Z.min (Z.of_nat m - 1) (Z.of_nat (List.length tbl) - 1))
  = Some (nth (Nat.min (m - 1) (List.length tbl - 1)) tbl 0).
Proof.
  intros Hm Hne.
  assert (Hlen : (0 < List.length tbl)%nat)
    by (destruct tbl; [congruence | simpl; lia]).
  replace (Z.min (Z.of_nat m - 1) (Z.of_nat (List.length tbl) - 1))
    with (Z.of_nat (Nat.min (m - 1) (List.length tbl - 1))) by lia.
  unfold at_index.
  destruct (Z.ltb_spec (Z.of_nat (Nat.min (m - 1) (List.length tbl - 1))) 0) as [Hneg|_];
    [lia|].
  rewrite Nat2Z.id.
  apply nth_error_nth'. lia.
Qed.

Lemma rentCount_nat s : rentCount s = Z.of_nat (Z.to_nat (rentCount s)).
Proof. unfold rentCount. now rewrite Nat2Z.id. Qed.

(** C8.  For every property set with at least one qualifying card,
    [calculateRent] is the rent of the specification: the base table entry
    of the set's colour at index (count - 1), clamped to the table's last
    index, plus 3 with a house and 4 with a hotel.  In particular a colour
    that needs three cards yields the table's first entry with one card and
    no building, and a set with as many cards as the table is long, a house
    and a hotel, yields the table's last entry + 3 + 4.  With no qualifying
    card the source's index is -1, the entry is [undefined] and the rent is
    what the buildings add. *)
Theorem C8_calculateRent_by_table (s : PropertySet) :
  (1 <= rentCount s -> calculateRent s = rentBySpec s)
  /\ (PROPERTY_SET_REQUIREMENTS (set_color s) = 3 -> rentCount s = 1 ->
      hasHouse s = false -> hasHotel s = false ->
      calculateRent s = hd 0 (RENT_VALUES (set_color s)))
  /\ (Z.of_nat (List.length (RENT_VALUES (set_color s))) <= rentCount s ->
      hasHouse s = true -> hasHotel s = true ->
      calculateRent s = last (RENT_VALUES (set_color s)) 0 + 3 + 4)
  /\ (rentCount s = 0 ->
      calculateRent s
      = (if hasHouse s then 3 else 0) + (if hasHotel s then 4 else 0)).
Proof.
  assert (Hmain : 1 <= rentCount s -> calculateRent s = rentBySpec s).
  { intros Hc.
    assert (Hm : (1 <= Z.to_nat (rentCount s))%nat) by lia.
    assert (Hbase :
      orZero (at_index (RENT_VALUES (set_color s))
                (Z.min (rentCount s - 1)
                   (Z.of_nat (List.length (RENT_VALUES (set_color s))) - 1)))
      = nth (Nat.min (Z.to_nat (rentCount s) - 1)
               (List.length (RENT_VALUES (set_color s)) - 1))
            (RENT_VALUES (set_color s)) 0).
    { rewrite (rentCount_nat s) at 1.
      now rewrite (at_index_clamped _ _ Hm (rentTable_nonempty (set_color s))). }
    unfold calculateRent, rentBySpec. cbv zeta. rewrite Hbase.
    destruct (hasHouse s), (hasHotel s); lia. }
  split; [exact Hmain|]. split; [|split].
  - intros _ Hone Hh Ht. rewrite Hmain by lia.
    unfold rentBySpec. rewrite Hone, Hh, Ht.
    destruct (set_color s); reflexivity.
  - intros Hfull Hh Ht.
    assert (Hpos : 1 <= rentCount s)
      by (destruct (set_color s); simpl in Hfull; lia).
    rewrite Hmain by exact Hpos.
    unfold rentBySpec. rewrite Hh, Ht.
    rewrite (rentCount_nat s) in Hfull.
    rewrite Nat.min_r by lia.
    destruct (set_color s); reflexivity.
  - intros Hzero. unfold calculateRent. cbv zeta. rewrite Hzero.
    destruct (set_color s), (hasHouse s), (hasHotel s); reflexivity.
Qed.

(** C8 at a single red property, and at a full brown set with house and
    hotel. *)
Lemma C8_witness :
  (1 <= rentCount oneRed /\ calculateRent oneRed = rentBySpec oneRed)
  /\ calculateRent oneRed = 2
  /\ calculateRent fullBrown = 2 + 3 + 4.
Proof.
  split; [split; [vm_compute; discriminate|]|split].
  - apply (proj1 (C8_calculateRent_by_table oneRed)). vm_compute. discriminate.
  - apply (proj1 (proj2 (C8_calculateRent_by_table oneRed))); reflexivity.
  - apply (proj1 (proj2 (proj2 (C8_calculateRent_by_table fullBrown)))).
    + vm_compute. discriminate.
    + reflexivity.
    + reflexivity.
Defined.

(* ================================================================== *)
(** ** The per-viewer projection (C9) *)

Lemma map_hidden_length (h1 h2 : list Card) :
  List.length h1 = List.length h2 ->
  map (fun _ => hiddenCard) h1 = map (fun _ => hiddenCard) h2.
Proof.
  revert h2. induction h1 as [|a h1 IH]; intros [|b h2] H; simpl in *;
    try discriminate; [reflexivity|]. f_equal. apply IH. lia.
Qed.

Lemma map_hidden_repeat (h : list Card) :
  map (fun _ => hiddenCard) h = repeat hiddenCard (List.length h).
Proof. induction h; simpl; congruence. Qed.

Lemma redactHand_same viewer p q :
  sameToViewer viewer p q -> redactHand viewer p = redactHand viewer q.
Proof.
  destruct p as [i n h pr b c s], q as [i' n' h' pr' b' c' s'].
  unfold sameToViewer, redactHand, isViewer, setHand. simpl.
  intros (-> & -> & -> & -> & -> & -> & Hlen & Hv).
  destruct viewer as [v|].
  - destruct (String.eqb i' v).
    + now rewrite Hv.
    + now rewrite (map_hidden_length _ _ Hlen).
  - now rewrite (map_hidden_length _ _ Hlen).
Qed.

(** C9.  [getPublicGameState] leaves every field but the players alone,
    changes nothing of a player but the hand, keeps the hand of the
    nominated player and replaces every other hand card for card by the
    placeholder; hence two states that differ only in what other players'
    hands hold have the same projection.  The projection is a function of
    its input: there is nothing it could mutate. *)
Theorem C9_getPublicGameState_redacts (viewer : option string) (st : GameState) :
  setPlayers [] (getPublicGameState viewer st) = setPlayers [] st
  /\ Forall2
       (fun p q =>
          q = setHand (hand q) p
          /\ (isViewer viewer p = true -> hand q = hand p)
          /\ (isViewer viewer p = false ->
              hand q = repeat hiddenCard (List.length (hand p))))
       (players st) (players (getPublicGameState viewer st))
  /\ (forall st2, differOnlyInOtherHands viewer st st2 ->
      getPublicGameState viewer st = getPublicGameState viewer st2).
Proof.
  split; [reflexivity|]. split.
  - unfold getPublicGameState. simpl.
    induction (players st) as [|p ps IH]; simpl; constructor; [|exact IH].
    unfold redactHand. destruct (isViewer viewer p); simpl.
    + split; [now destruct p | split; [reflexivity | discriminate]].
    + split; [reflexivity | split; [discriminate | intros _; apply map_hidden_repeat]].
  - intros st2 [Hframe Hplayers].
    assert (Hmap : map (redactHand viewer) (players st)
                   = map (redactHand viewer) (players st2)).
    { induction Hplayers as [|p q ps qs Hpq _ IH]; simpl; [reflexivity|].
      now rewrite (redactHand_same _ _ _ Hpq), IH. }
    unfold getPublicGameState. rewrite Hmap.
    destruct st, st2. unfold setPlayers in *. simpl in *. congruence.
Qed.

(** C9 at two deals that give B different cards. *)
Lemma C9_witness :
  differOnlyInOtherHands (Some "A") afterDeal
    (setDeck (deck afterDeal) afterOtherDeal)
  /\ handOf 1 afterDeal <> handOf 1 afterOtherDeal
  /\ getPublicGameState (Some "A") afterDeal
     = getPublicGameState (Some "A") (setDeck (deck afterDeal) afterOtherDeal).
Proof.
  assert (H : differOnlyInOtherHands (Some "A") afterDeal
                (setDeck (deck afterDeal) afterOtherDeal)).
  { vm_compute. split; [reflexivity|].
    repeat constructor; intros; discriminate. }
  split; [exact H|]. split; [vm_compute; discriminate|].
  exact (proj2 (proj2 (C9_getPublicGameState_redacts (Some "A") afterDeal)) _ H).
Defined.

(* ================================================================== *)
(** ** Declining a payment (C10) *)

Lemma hasPlayerId_found ps playerId :
  (exists p, In p ps /\ player_id p = playerId) ->
  exists i p, findEntry (hasPlayerId playerId) ps = Some (i, p).
Proof.
  intros [p [Hin Hid]]. apply (findEntry_found _ _ p Hin).
  unfold hasPlayerId. rewrite Hid. apply String.eqb_refl.
Qed.

(** C10.  Against a single-target pending action, whatever amount it
    carries, a response with [accept = false] and no refusal card returns
    normally, clears the pending action, moves the turn phase by the usual
    budget and hand-size rule and leaves players (hands, banks, property
    sets), deck and discard pile as they were.  The responder and the
    initiator must be players of the game and the current player index in
    range, or the call throws. *)
Theorem C10_decline_pays_nothing (st : GameState) (playerId : string)
    (response : ActionResponse) (pa : PendingAction) (currentPlayer : Player) :
  pendingAction st = Some pa ->
  respondedPlayers pa = None ->
  (exists p, In p (players st) /\ player_id p = playerId) ->
  (exists p, In p (players st) /\ player_id p = fromPlayerId pa) ->
  nth_error (players st) (currentPlayerIndex st) = Some currentPlayer ->
  accept response = false ->
  useJustSayNo response = false ->
  let st' := snd (respondToAction playerId response st) in
  respondToAction playerId response st
  = (Ok tt, setTurnPhase (resumedPhase st currentPlayer) (setPendingAction None st))
  /\ pendingAction st' = None
  /\ players st' = players st
  /\ deck st' = deck st
  /\ discardPile st' = discardPile st.
Proof.
  intros Hpa Hsingle Hresp Hinit Hcur Hacc Hjsn.
  assert (Heq : respondToAction playerId response st
    = (Ok tt, setTurnPhase (resumedPhase st currentPlayer) (setPendingAction None st))).
  { unfold respondToAction. rewrite Hpa.
    destruct (hasPlayerId_found _ _ Hresp) as (pi & p & ->).
    destruct (hasPlayerId_found _ _ Hinit) as (fi & fp & ->).
    unfold alreadyResponded, isMultiPlayerAction, settlePayment, trackResponse.
    rewrite Hsingle, Hjsn, Hacc. simpl.
    unfold resumeTurn, resumedPhase. simpl. rewrite Hcur.
    destruct (actionsRemaining st <=? 0); [|reflexivity].
    now destruct (7 <? List.length (hand currentPlayer))%nat. }
  cbv zeta. rewrite Heq. simpl. auto.
Qed.

(** C10 where B declines A's debt collector. *)
Lemma C10_witness :
  pendingAction (snd (respondToAction "B" decline debtPending)) = None
  /\ players (snd (respondToAction "B" decline debtPending)) = players debtPending.
Proof.
  edestruct (C10_decline_pays_nothing debtPending "B" decline)
    as (_ & H2 & H3 & _).
  - vm_compute. reflexivity.
  - reflexivity.
  - vm_compute. eexists. split; [right; left; reflexivity | reflexivity].
  - vm_compute. eexists. split; [left; reflexivity | reflexivity].
  - vm_compute. reflexivity.
  - reflexivity.
  - reflexivity.
  - split; [exact H2 | exact H3].
Defined.

(* ================================================================== *)
(** ** The catalog and the deal (C4) *)

Lemma dealTo_lengths n : forall h d,
  (n <= List.length d)%nat ->
  (List.length (fst (dealTo n h d)) = List.length h + n
   /\ List.length (snd (dealTo n h d)) + n = List.length d)%nat.
Proof.
  induction n as [|n IH]; intros h d Hn; simpl; [lia|].
  destruct (pop_nonempty d) as (x & d' & Hpop & Hlen).
  { destruct d; [simpl in Hn; lia | discriminate]. }
  rewrite Hpop.
  destruct (IH (push h x) d') as [H1 H2]; [lia|].
  assert (Hpush : List.length (push h x) = S (List.length h))
    by (unfold push; rewrite length_app; simpl; lia).
  lia.
Qed.

Lemma dealAll_lengths ps : forall d,
  (5 * List.length ps <= List.length d)%nat ->
  Forall (fun p => List.length (hand p) = 5%nat) (fst (dealAll ps d))
  /\ List.length (fst (dealAll ps d)) = List.length ps
  /\ (List.length (snd (dealAll ps d)) + 5 * List.length ps = List.length d)%nat.
Proof.
  induction ps as [|p ps IH]; intros d Hd.
  - cbn [dealAll fst snd List.length]. repeat split; [constructor | lia].
  - cbn [dealAll]. cbn [List.length] in Hd |- *.
    pose proof (dealTo_lengths 5 [] d) as Hfive.
    destruct (dealTo 5 [] d) as [h d1]. cbn [fst snd List.length] in Hfive.
    destruct Hfive as [H1 H2]; [lia|].
    destruct (IH d1) as (H3 & H4 & H5); [lia|].
    destruct (dealAll ps d1) as [ps' d2]. cbn [fst snd List.length] in *.
    repeat split; [constructor; [exact H1 | exact H3] | lia | lia].
Qed.

Lemma length_createDeck uuid : List.length (createDeck uuid) = 105%nat.
Proof. reflexivity. Qed.

(** C4 as stated fails: the deck of [createDeck] has 105 cards, not 110,
    with 9 wildcards, not 11, and 35 action cards, not 34; after [startGame]
    with three players 90 cards remain, not 95. *)
Lemma C4_counterexample :
  List.length (createDeck cardUuid) <> 110%nat
  /\ countCards cardIsWildcard (createDeck cardUuid) <> 11%nat
  /\ countCards isAction (createDeck cardUuid) <> 34%nat
  /\ List.length (deck (runAll (twoPlayers ++ [OpAddPlayer "C" "Carol" "sc";
                                  OpStartGame cardUuid noShuffle]) freshGame))
     <> 95%nat.
Proof. vm_compute. repeat split; discriminate. Qed.

(** C4, amended.  [createDeck] holds 28 plain properties, as many of each
    colour as that colour's set needs, exactly two wildcards that may take
    every colour, 20 money cards in the denominations 1, 2, 3, 4, 5, 10
    (6, 5, 3, 3, 2 and 1 of them), action cards of each of the 10 kinds, and
    13 rent cards: each of the five colour pairs twice and 3 wild rents.
    [startGame] with three players deals 5 cards to each and leaves the rest
    of the deck, 15 cards fewer, as the draw pile. *)
Theorem C4_deck_composition (uuid : nat -> string) (rnd : nat -> nat)
    (st : GameState) :
  let d := createDeck uuid in
  (countCards isPlainProperty d = 28%nat
   /\ forall col, Z.of_nat (countCards (isPlainOfColor col) d)
                  = PROPERTY_SET_REQUIREMENTS col)
  /\ countCards isUnrestrictedWildcard d = 2%nat
  /\ (countCards isMoney d = 20%nat
      /\ map (fun v => countCards (isMoneyOf v) d) [1; 2; 3; 4; 5; 10]
         = [6; 5; 3; 3; 2; 1]%nat)
  /\ (forall a, (0 < countCards (isActionOf a) d)%nat)
  /\ (countCards isRent d = 13%nat
      /\ map (fun ab => countCards (isRentFor (fst ab) (snd ab)) d)
             [(brown, lightBlue); (pink, orange); (red, yellow);
              (green, darkBlue); (railroad, utility)]
         = [2; 2; 2; 2; 2]%nat
      /\ countCards isWildRentCard d = 3%nat)
  /\ (List.length (players st) = 3%nat ->
      let st' := snd (startGame uuid rnd st) in
      fst (startGame uuid rnd st) = Ok tt
      /\ Forall (fun p => List.length (hand p) = 5%nat) (players st')
      /\ List.length (players st') = 3%nat
      /\ (List.length (deck st') + 15 = List.length d)%nat).
Proof.
  cbv zeta.
  split; [split; [reflexivity | intros []; reflexivity]|].
  split; [reflexivity|].
  split; [split; reflexivity|].
  split; [intros []; vm_compute; lia|].
  split; [repeat split; reflexivity|].
  intros H3. unfold startGame. rewrite H3. simpl Nat.ltb. cbv iota.
  set (d := shuffleDeck rnd (createDeck uuid)).
  assert (Hd : List.length d = 105%nat)
    by (unfold d; now rewrite length_shuffleDeck, length_createDeck).
  cbn [deck players setDeck setDiscardPile setPhase setTurnPhase
       setCurrentPlayerIndex setActionsRemaining].
  destruct (dealAll_lengths (players st) d) as (Hh & Hl & Hrest); [lia|].
  destruct (dealAll (players st) d) as [ps d'] eqn:Hdeal.
  cbn [fst snd ok players deck setPlayers setDeck] in *.
  rewrite length_createDeck.
  change (3 <? 2)%nat with false. change (5 <? 3)%nat with false.
  cbn [fst snd ok players deck setPlayers setDeck].
  repeat split; auto; lia.
Qed.

(** C4 (amended) on a lobby of three. *)
Lemma C4_witness :
  List.length (players threeInLobby) = 3%nat
  /\ Forall (fun p => List.length (hand p) = 5%nat)
       (players (snd (startGame cardUuid noShuffle threeInLobby)))
  /\ (List.length (deck (snd (startGame cardUuid noShuffle threeInLobby))) + 15
      = List.length (createDeck cardUuid))%nat.
Proof.
  split; [reflexivity|].
  destruct (C4_deck_composition cardUuid noShuffle threeInLobby)
    as (_ & _ & _ & _ & _ & H).
  destruct (H eq_refl) as (_ & H1 & _ & H2). split; [exact H1 | exact H2].
Defined.

(* ================================================================== *)
(** ** What the operations leave alone (C7) *)

Create HintDb turn.

Ltac break_match :=
  match goal with
  | |- context [match ?x with _ => _ end] => destruct x eqn:?
  end.

(** A frame is a relation [R st0 st], read "[st] still has what [st0] had",
    that survives the field assignments listed as hypotheses.  Each lemma of
    the section depends only on the assignments its operation makes, so a
    frame that does not survive, say, [setTurnPhase] still gets the lemmas of
    the operations that never assign the turn phase. *)
Section Frames.
Variable R : GameState -> GameState -> Prop.
Hypothesis R_modifyPlayer :
  forall st0 i f st, R st0 st -> R st0 (modifyPlayer i f st).
Hypothesis R_setDeck : forall st0 d st, R st0 st -> R st0 (setDeck d st).
Hypothesis R_setDiscardPile :
  forall st0 d st, R st0 st -> R st0 (setDiscardPile d st).
Hypothesis R_setActionsRemaining :
  forall st0 n st, R st0 st -> R st0 (setActionsRemaining n st).
Hypothesis R_setTurnPhase :
  forall st0 p st, R st0 st -> R st0 (setTurnPhase p st).
Hypothesis R_setPendingAction :
  forall st0 pa st, R st0 st -> R st0 (setPendingAction pa st).
Hypothesis R_setPhase : forall st0 p st, R st0 st -> R st0 (setPhase p st).
Hypothesis R_setWinner : forall st0 w st, R st0 st -> R st0 (setWinner w st).

Lemma kept_ok st0 st : R st0 st -> R st0 (snd (ok st)).
Proof. auto. Qed.

Lemma kept_throw st0 A msg st : R st0 st -> R st0 (snd (@throw A msg st)).
Proof. auto. Qed.

Lemma kept_pair st0 A (o : Outcome A) st : R st0 st -> R st0 (snd (o, st)).
Proof. auto. Qed.

Lemma kept_andThen st0 A B (r : Result A) (k : A -> GameState -> Result B) :
  R st0 (snd r) ->
  (forall a st, R st0 st -> R st0 (snd (k a st))) ->
  R st0 (snd (andThen r k)).
Proof.
  intros Hr Hk. destruct r as [[a|msg] st]; simpl in *; auto.
Qed.

#[local] Hint Resolve kept_ok kept_throw kept_pair R_modifyPlayer R_setDeck
  R_setDiscardPile R_setActionsRemaining R_setTurnPhase R_setPendingAction
  R_setPhase R_setWinner : turn.

(** Unfold one operation, split on everything it branches on, and close each
    branch with the frame lemmas proved so far. *)
Ltac frame_by_cases :=
  intros;
  repeat first
    [ apply kept_andThen; [| intros ]
    | break_match ];
  eauto 20 with turn.

Lemma kept_drawLoop st0 rnd n pi : forall st,
  R st0 st -> R st0 (snd (drawLoop rnd n pi st)).
Proof.
  induction n as [|n IH]; intros st H; cbn [drawLoop]; [auto|].
  set (st1 := match deck st with
              | [] => setDiscardPile [] (setDeck (shuffleDeck rnd (discardPile st)) st)
              | _ => st
              end).
  assert (H1 : R st0 st1)
    by (subst st1; destruct (deck st); eauto with turn).
  destruct (pop (deck st1)) as [[card|] d].
  - specialize (IH (modifyPlayer pi (pushHand card) (setDeck d st1))).
    destruct (drawLoop rnd n pi _) as [drawn st2]. cbn [snd] in *.
    apply IH; eauto with turn.
  - apply IH; eauto with turn.
Qed.
#[local] Hint Resolve kept_drawLoop : turn.

Lemma kept_checkWinner st0 st : R st0 st -> R st0 (checkWinner st).
Proof. unfold checkWinner. frame_by_cases. Qed.
#[local] Hint Resolve kept_checkWinner : turn.

Lemma kept_afterPlay st0 pi st : R st0 st -> R st0 (afterPlay pi st).
Proof. unfold afterPlay. frame_by_cases. Qed.
#[local] Hint Resolve kept_afterPlay : turn.

Lemma kept_playPropertyCard st0 pi card c w wcs t st :
  R st0 st -> R st0 (snd (playPropertyCard pi card c w wcs t st)).
Proof. unfold playPropertyCard. frame_by_cases. Qed.
#[local] Hint Resolve kept_playPropertyCard : turn.

Lemma kept_placeIfProperty st0 i card c st :
  R st0 st -> R st0 (snd (placeIfProperty i card c st)).
Proof. unfold placeIfProperty. frame_by_cases. Qed.
#[local] Hint Resolve kept_placeIfProperty : turn.

Lemma kept_addHouse st0 pi card t st :
  R st0 st -> R st0 (snd (addHouse pi card t st)).
Proof. unfold addHouse. frame_by_cases. Qed.

Lemma kept_addHotel st0 pi card t st :
  R st0 st -> R st0 (snd (addHotel pi card t st)).
Proof. unfold addHotel. frame_by_cases. Qed.
#[local] Hint Resolve kept_addHouse kept_addHotel : turn.

Lemma kept_playActionCard st0 rnd pi pid card a t st :
  R st0 st -> R st0 (snd (playActionCard rnd pi pid card a t st)).
Proof. unfold playActionCard, openPending. frame_by_cases. Qed.

Lemma kept_playRentCard st0 pi pid card cs w t st :
  R st0 st -> R st0 (snd (playRentCard pi pid card cs w t st)).
Proof.
  intros H. unfold playRentCard.
  match goal with
  | |- R _ (snd (match ?x with _ => _ end)) => destruct x
  end; [|auto with turn].
  match goal with
  | |- R _ (snd (let '(_, _) := ?X in _)) =>
      assert (Hx : R st0 (snd X))
        by (repeat break_match; eauto 20 with turn);
      destruct X as [amt st1]
  end.
  cbn [snd] in Hx. frame_by_cases.
Qed.
#[local] Hint Resolve kept_playActionCard kept_playRentCard : turn.

Lemma kept_asCurrentPlayer st0 A playerId st (k : nat -> Player -> Result A) :
  R st0 st ->
  (forall pi p, R st0 (snd (k pi p))) ->
  R st0 (snd (asCurrentPlayer playerId st k)).
Proof. unfold asCurrentPlayer. frame_by_cases. Qed.

Lemma kept_playCard st0 rnd pid cid t st :
  R st0 st -> R st0 (snd (playCard rnd pid cid t st)).
Proof.
  intros. unfold playCard. apply kept_asCurrentPlayer; [assumption|].
  frame_by_cases.
Qed.

Lemma kept_drawCards st0 rnd pid st :
  R st0 st -> R st0 (snd (drawCards rnd pid st)).
Proof.
  intros. unfold drawCards. apply kept_asCurrentPlayer; [assumption|].
  intros pi p. break_match; [eauto with turn|].
  pose proof (kept_drawLoop st0 rnd
    (match hand p with [] => 5%nat | _ => 2%nat end) pi st H) as Hd.
  destruct (drawLoop rnd _ pi st) as [l s]. eauto with turn.
Qed.

Lemma kept_resumeTurn st0 st : R st0 st -> R st0 (snd (resumeTurn st)).
Proof. unfold resumeTurn. frame_by_cases. Qed.
#[local] Hint Resolve kept_resumeTurn : turn.

Lemma kept_trackResponse st0 pid pa st :
  R st0 st -> R st0 (snd (trackResponse pid pa st)).
Proof. unfold trackResponse. frame_by_cases. Qed.
#[local] Hint Resolve kept_trackResponse : turn.

Lemma kept_refuse st0 pi fi pid pa st :
  R st0 st -> R st0 (snd (refuse pi fi pid pa st)).
Proof. unfold refuse. frame_by_cases. Qed.

Lemma kept_payCard st0 pi fi cid st :
  R st0 st -> R st0 (snd (payCard pi fi cid st)).
Proof. unfold payCard. frame_by_cases. Qed.
#[local] Hint Resolve kept_refuse kept_payCard : turn.

Lemma kept_payCards st0 pi fi ids : forall st,
  R st0 st -> R st0 (snd (payCards pi fi ids st)).
Proof.
  induction ids as [|cid ids IH]; intros st H; cbn [payCards]; [auto with turn|].
  apply kept_andThen; [auto with turn | intros; apply IH; assumption].
Qed.
#[local] Hint Resolve kept_payCards : turn.

Lemma kept_settlePayment st0 pi fi p pa r st :
  R st0 st -> R st0 (snd (settlePayment pi fi p pa r st)).
Proof. unfold settlePayment. frame_by_cases. Qed.

Lemma kept_executeSlyDeal st0 fi pi tc cid st :
  R st0 st -> R st0 (snd (executeSlyDeal fi pi tc cid st)).
Proof. unfold executeSlyDeal. frame_by_cases. Qed.

Lemma kept_giveInExchange st0 fi pi k gid gf st :
  R st0 st -> R st0 (snd (giveInExchange fi pi k gid gf st)).
Proof. unfold giveInExchange. frame_by_cases. Qed.
#[local] Hint Resolve kept_settlePayment kept_executeSlyDeal
  kept_giveInExchange : turn.

Lemma kept_executeForcedDeal st0 fi pi tc cid gid gf st :
  R st0 st -> R st0 (snd (executeForcedDeal fi pi tc cid gid gf st)).
Proof. unfold executeForcedDeal. frame_by_cases. Qed.

Lemma kept_executeDealBreaker st0 fi pi tc st :
  R st0 st -> R st0 (snd (executeDealBreaker fi pi tc st)).
Proof. unfold executeDealBreaker. frame_by_cases. Qed.
#[local] Hint Resolve kept_executeForcedDeal kept_executeDealBreaker : turn.

Lemma kept_executeEffect st0 fi pi pa r st :
  R st0 st -> R st0 (snd (executeEffect fi pi pa r st)).
Proof. unfold executeEffect. frame_by_cases. Qed.
#[local] Hint Resolve kept_executeEffect : turn.

Lemma kept_respondToAction st0 pid r st :
  R st0 st -> R st0 (snd (respondToAction pid r st)).
Proof. unfold respondToAction. frame_by_cases. Qed.

Lemma kept_rearrangeProperty st0 pid cid a b st :
  R st0 st -> R st0 (snd (rearrangeProperty pid cid a b st)).
Proof.
  intros. unfold rearrangeProperty. apply kept_asCurrentPlayer; [assumption|].
  frame_by_cases.
Qed.

Lemma kept_discardLoop st0 pi ids : forall st,
  R st0 st -> R st0 (snd (discardLoop pi ids st)).
Proof.
  induction ids as [|cid ids IH]; intros st H; cbn [discardLoop]; [auto with turn|].
  repeat break_match; [apply IH|]; eauto 20 with turn.
Qed.
End Frames.


(** Close the side conditions of a lemma of the section: a frame survives an
    assignment to a field it does not mention. *)
Ltac frame_survives modifyPlayerCase :=
  intros;
  first [ solve [eapply modifyPlayerCase; eassumption]
        | match goal with H : _ |- _ => exact H end ].

(** *** Whose turn it is *)

Lemma sameTurn_refl st : sameTurn st st.
Proof. split; reflexivity. Qed.

Lemma sameTurn_modifyPlayer st0 i f st :
  sameTurn st0 st -> sameTurn st0 (modifyPlayer i f st).
Proof.
  intros [H1 H2]. split; [exact H1|].
  unfold modifyPlayer. simpl. now rewrite length_updateAt.
Qed.

Ltac by_turn_frame L := intros; eapply L; eauto; frame_survives sameTurn_modifyPlayer.

Lemma sameTurn_playCard st0 rnd pid cid t st :
  sameTurn st0 st -> sameTurn st0 (snd (playCard rnd pid cid t st)).
Proof. by_turn_frame kept_playCard. Qed.

Lemma sameTurn_drawCards st0 rnd pid st :
  sameTurn st0 st -> sameTurn st0 (snd (drawCards rnd pid st)).
Proof. by_turn_frame kept_drawCards. Qed.

Lemma sameTurn_payCards st0 pi fi ids st :
  sameTurn st0 st -> sameTurn st0 (snd (payCards pi fi ids st)).
Proof. by_turn_frame kept_payCards. Qed.

Lemma sameTurn_respondToAction st0 pid r st :
  sameTurn st0 st -> sameTurn st0 (snd (respondToAction pid r st)).
Proof. by_turn_frame kept_respondToAction. Qed.

Lemma sameTurn_rearrangeProperty st0 pid cid a b st :
  sameTurn st0 st -> sameTurn st0 (snd (rearrangeProperty pid cid a b st)).
Proof. by_turn_frame kept_rearrangeProperty. Qed.

Lemma sameTurn_discardLoop st0 pi ids st :
  sameTurn st0 st -> sameTurn st0 (snd (discardLoop pi ids st)).
Proof. by_turn_frame kept_discardLoop. Qed.

Lemma sameTurn_current st0 st :
  sameTurn st0 st ->
  nth_error (players st0) (currentPlayerIndex st0) <> None ->
  nth_error (players st) (currentPlayerIndex st) <> None.
Proof. intros [H1 H2]. rewrite !nth_error_Some. lia. Qed.

(** *** Whether the match is decided *)

Lemma sameMatch_modifyPlayer st0 i f st :
  sameMatch st0 st -> sameMatch st0 (modifyPlayer i f st).
Proof. intros H. exact H. Qed.

Lemma sameMatch_respondToAction st0 pid r st :
  sameMatch st0 st -> sameMatch st0 (snd (respondToAction pid r st)).
Proof.
  intros; eapply kept_respondToAction; eauto;
    frame_survives sameMatch_modifyPlayer.
Qed.

Lemma length_removeAt_le {A} i (l : list A) :
  (List.length (removeAt i l) <= List.length l)%nat.
Proof.
  revert i. induction l as [|x l IH]; intros [|i]; simpl; auto.
  specialize (IH i). lia.
Qed.

(** C7, amended.  [currentPlayerIndex] changes only in a [discardCards] or
    [endTurnEarly] that returns normally (the latter with no pending
    action), where it becomes (index + 1) modulo the number of players; in
    [removePlayer], which resets it to 0 when it no longer indexes a player;
    and in a [startGame] that returns normally, which resets it to 0.  Every
    other operation, and every call that throws, leaves it as it was. *)
Theorem C7_turn_index (op : Op) (st : GameState) :
  let st' := snd (run op st) in
  let i := currentPlayerIndex st in
  let i' := currentPlayerIndex st' in
  match op with
  | OpDiscardCards _ _ =>
      i' = i
      \/ (fst (run op st) = Ok tt
          /\ i' = ((i + 1) mod List.length (players st))%nat)
  | OpEndTurnEarly _ =>
      i' = i
      \/ (fst (run op st) = Ok tt /\ pendingAction st = None
          /\ i' = ((i + 1) mod List.length (players st))%nat)
  | OpRemovePlayer _ =>
      i' = i \/ ((List.length (players st') <= i)%nat /\ i' = 0%nat)
  | OpStartGame _ _ =>
      i' = i \/ (fst (run op st) = Ok tt /\ i' = 0%nat)
  | _ => i' = i
  end.
Proof.
  cbv zeta. destruct op; cbn [run].
  - reflexivity.
  - unfold removePlayer. cbn [snd ok].
    destruct (findEntry _ _) as [[index p]|]; [|now left].
    cbn [players setPlayers currentPlayerIndex].
    destruct (Nat.leb_spec (List.length (removeAt index (players st)))
                (currentPlayerIndex st)); [right | left]; cbn; auto.
  - unfold startGame. repeat break_match; cbn; auto.
  - match goal with |- context [drawCards ?r ?p ?s] =>
      pose proof (sameTurn_drawCards st r p s (sameTurn_refl st)) as [H _];
      destruct (drawCards r p s) as [[a|m] s'] end; exact H.
  - apply sameTurn_playCard, sameTurn_refl.
  - apply sameTurn_respondToAction, sameTurn_refl.
  - unfold discardCards, asCurrentPlayer.
    repeat break_match; try (left; reflexivity).
    pose proof (sameTurn_discardLoop st n cardIds st (sameTurn_refl st)) as [H1 H2].
    destruct (discardLoop n cardIds st) as [[[]|msg] st1]; cbn in *.
    + right. split; [reflexivity|]. now rewrite H1, H2.
    + left. exact H1.
  - unfold endTurnEarly, asCurrentPlayer.
    repeat break_match; try (left; reflexivity).
    right. cbn. auto.
  - apply sameTurn_rearrangeProperty, sameTurn_refl.
Qed.


(* ================================================================== *)
(** ** Pending action and turn phase *)

Lemma sameTable_refl st : sameTable st st.
Proof. repeat split. Qed.

Lemma sameTable_modifyPlayer st0 i f st :
  sameTable st0 st -> sameTable st0 (modifyPlayer i f st).
Proof.
  intros [H1 H2]. split; [exact H1 | now apply sameTurn_modifyPlayer].
Qed.

Ltac by_table_frame L :=
  intros; eapply L; eauto; frame_survives sameTable_modifyPlayer.

Lemma sameTable_drawLoop st0 rnd n pi st :
  sameTable st0 st -> sameTable st0 (snd (drawLoop rnd n pi st)).
Proof. by_table_frame kept_drawLoop. Qed.

Lemma sameTable_playPropertyCard st0 pi card c w wcs t st :
  sameTable st0 st -> sameTable st0 (snd (playPropertyCard pi card c w wcs t st)).
Proof. by_table_frame kept_playPropertyCard. Qed.

Lemma sameTable_addHouse st0 pi card t st :
  sameTable st0 st -> sameTable st0 (snd (addHouse pi card t st)).
Proof. by_table_frame kept_addHouse. Qed.

Lemma sameTable_addHotel st0 pi card t st :
  sameTable st0 st -> sameTable st0 (snd (addHotel pi card t st)).
Proof. by_table_frame kept_addHotel. Qed.

Lemma sameTable_checkWinner st0 st :
  sameTable st0 st -> sameTable st0 (checkWinner st).
Proof. by_table_frame kept_checkWinner. Qed.

Lemma sameTable_settlePayment st0 pi fi p pa r st :
  sameTable st0 st -> sameTable st0 (snd (settlePayment pi fi p pa r st)).
Proof. by_table_frame kept_settlePayment. Qed.

Lemma sameTable_executeEffect st0 fi pi pa r st :
  sameTable st0 st -> sameTable st0 (snd (executeEffect fi pi pa r st)).
Proof. by_table_frame kept_executeEffect. Qed.

Lemma sameTable_discardLoop st0 pi ids st :
  sameTable st0 st -> sameTable st0 (snd (discardLoop pi ids st)).
Proof. by_table_frame kept_discardLoop. Qed.

Lemma sameTable_rearrangeProperty st0 pid cid a b st :
  sameTable st0 st -> sameTable st0 (snd (rearrangeProperty pid cid a b st)).
Proof. by_table_frame kept_rearrangeProperty. Qed.

Lemma sameTable_pendingOk st0 st : sameTable st0 st -> pendingOk st0 -> pendingOk st.
Proof. intros [[H1 H2] _]. unfold pendingOk. now rewrite H1, H2. Qed.

Lemma sameTable_duringPlay st0 st :
  sameTable st0 st -> duringPlay st0 -> duringPlay st.
Proof. intros [[H1 H2] _]. unfold duringPlay. now rewrite H1, H2. Qed.

Lemma sameTable_indexOk st0 st : sameTable st0 st -> indexOk st0 -> indexOk st.
Proof. intros [_ [H1 H2]]. unfold indexOk. now rewrite H1, H2. Qed.

Lemma duringPlay_pendingOk st : duringPlay st -> pendingOk st.
Proof.
  unfold duringPlay, pendingOk. destruct (pendingAction st); [auto|].
  intros ->. discriminate.
Qed.

Lemma playStep_duringPlay st st' : playStep st st' -> duringPlay st -> duringPlay st'.
Proof.
  intros [H|(H1 & H2 & _)] Hd; [now apply (sameTable_duringPlay st)|].
  unfold duringPlay. now destruct (pendingAction st').
Qed.

Lemma playStep_indexOk st st' : playStep st st' -> indexOk st -> indexOk st'.
Proof.
  intros [H|(_ & _ & [H1 H2])] Hi; [now apply (sameTable_indexOk st)|].
  unfold indexOk. now rewrite H1, H2.
Qed.

Lemma playStep_trans st0 st st' :
  sameTable st0 st -> playStep st st' -> playStep st0 st'.
Proof.
  intros [[A1 A2] [A3 A4]] [[[B1 B2] [B3 B4]]|(B1 & B2 & [B3 B4])].
  - left. repeat split; congruence.
  - right. repeat split; auto; congruence.
Qed.

Ltac table_facts :=
  repeat split; cbn; unfold modifyPlayer; cbn; rewrite ?length_updateAt;
  first [reflexivity | discriminate].

Ltac play_step :=
  first [ left; solve [table_facts] | right; solve [table_facts] ].

Lemma playStep_playActionCard rnd pi pid card a t st :
  playStep st (snd (playActionCard rnd pi pid card a t st)).
Proof.
  unfold playActionCard, openPending. destruct a.
  - left. cbn [snd ok].
    destruct (sameTable_drawLoop st rnd 2 pi st (sameTable_refl st)) as [[H1 H2] [H3 H4]].
    repeat split; cbn; assumption.
  - play_step.
  - repeat break_match; play_step.
  - repeat break_match; play_step.
  - repeat break_match; play_step.
  - repeat break_match; play_step.
  - left. apply sameTable_addHouse, sameTable_refl.
  - left. apply sameTable_addHotel, sameTable_refl.
  - play_step.
  - play_step.
Qed.

Lemma playStep_playRentCard pi pid card cs w t st :
  playStep st (snd (playRentCard pi pid card cs w t st)).
Proof.
  unfold playRentCard.
  match goal with
  | |- playStep _ (snd (match ?x with _ => _ end)) => destruct x
  end; [|play_step].
  match goal with
  | |- playStep _ (snd (let '(_, _) := ?X in _)) =>
      assert (Hx : sameTable st (snd X))
        by (repeat break_match; cbn [snd]; table_facts);
      destruct X as [amt st1]
  end.
  cbn [snd] in Hx. break_match; cbn [snd ok throw].
  - right. destruct Hx as [_ Hturn].
    split; [discriminate|]. split; [reflexivity | exact Hturn].
  - left. exact Hx.
Qed.

Lemma afterPlay_pendingOk pi n st :
  duringPlay st ->
  pendingOk (afterPlay pi (checkWinner (setActionsRemaining n st))).
Proof.
  intros Hd. unfold afterPlay.
  assert (Hs : sameTable st (checkWinner (setActionsRemaining n st)))
    by (apply sameTable_checkWinner; repeat split).
  pose proof (sameTable_duringPlay _ _ Hs Hd) as Hd'.
  set (s := checkWinner (setActionsRemaining n st)) in *. clearbody s.
  unfold duringPlay in Hd'. unfold pendingOk.
  destruct (pendingAction s) eqn:Hp.
  - rewrite andb_false_r. now rewrite Hp.
  - rewrite andb_true_r.
    destruct (actionsRemaining s <=? 0);
      [destruct (7 <? List.length (handOf pi s))%nat|];
      cbn [pendingAction turnPhase setTurnPhase]; rewrite Hp;
      [discriminate | discriminate | rewrite Hd'; discriminate].
Qed.

Lemma afterPlay_indexOk pi n st :
  indexOk st -> indexOk (afterPlay pi (checkWinner (setActionsRemaining n st))).
Proof.
  intros Hi. unfold afterPlay.
  assert (Hs : sameTable st (checkWinner (setActionsRemaining n st)))
    by (apply sameTable_checkWinner; repeat split).
  pose proof (sameTable_indexOk _ _ Hs Hi).
  repeat break_match; assumption.
Qed.

Lemma tpEqb_eq a b : tpEqb a b = true <-> a = b.
Proof. destruct a, b; cbn; split; congruence. Qed.

Lemma playCard_keeps rnd pid cid t st :
  pendingOk st -> indexOk st ->
  pendingOk (snd (playCard rnd pid cid t st))
  /\ indexOk (snd (playCard rnd pid cid t st)).
Proof.
  intros Hp Hi. unfold playCard, asCurrentPlayer.
  destruct (findEntry _ (players st)) as [[pi p]|]; [|auto].
  destruct (notYourTurn pid st) as [[]|]; auto.
  destruct (tpEqb (turnPhase st) tpAction) eqn:Hphase; [|auto].
  apply tpEqb_eq in Hphase. cbn [negb].
  destruct (actionsRemaining st <=? 0); [auto|].
  destruct (findEntry (hasId cid) (hand p)) as [[ci card]|]; [|auto].
  assert (Hd : duringPlay st).
  { unfold pendingOk in Hp. unfold duringPlay.
    destruct (pendingAction st); [congruence | exact Hphase]. }
  set (st1 := modifyPlayer pi _ st).
  assert (H1 : sameTable st st1) by (apply sameTable_modifyPlayer, sameTable_refl).
  match goal with
  | |- context [andThen ?r _] =>
      assert (Hstep : playStep st (snd r))
  end.
  { destruct (targetAsBank t || isMoney card).
    - left. now apply sameTable_modifyPlayer.
    - destruct (face card).
      + left. now apply sameTable_playPropertyCard.
      + left. exact H1.
      + apply (playStep_trans st st1 _ H1), playStep_playActionCard.
      + apply (playStep_trans st st1 _ H1), playStep_playRentCard. }
  match goal with
  | |- context [andThen ?r _] => destruct r as [[[]|msg] st2]
  end; cbn [andThen snd ok] in *.
  - split; [apply afterPlay_pendingOk | apply afterPlay_indexOk].
    + now apply (playStep_duringPlay st).
    + now apply (playStep_indexOk st).
  - split.
    + apply duringPlay_pendingOk. now apply (playStep_duringPlay st).
    + now apply (playStep_indexOk st).
Qed.

Lemma resumeTurn_pendingOk st :
  nth_error (players st) (currentPlayerIndex st) <> None ->
  pendingOk (snd (resumeTurn st)).
Proof.
  intros Hcur. unfold resumeTurn, pendingOk.
  cbn [players currentPlayerIndex actionsRemaining setPendingAction].
  repeat break_match; cbn; try discriminate. contradiction.
Qed.

Lemma trackResponse_pendingOk pid pa st :
  turnPhase st = tpResponding ->
  nth_error (players st) (currentPlayerIndex st) <> None ->
  pendingOk (snd (trackResponse pid pa st)).
Proof.
  intros Hphase Hcur. unfold trackResponse.
  destruct (respondedPlayers pa); [|now apply resumeTurn_pendingOk].
  break_match; [now apply resumeTurn_pendingOk|].
  unfold pendingOk. cbn. exact Hphase.
Qed.

Lemma found_player_in_range pid st pi p :
  findEntry (hasPlayerId pid) (players st) = Some (pi, p) ->
  indexOk st ->
  nth_error (players st) (currentPlayerIndex st) <> None.
Proof.
  intros Hf Hi. apply findEntry_Some in Hf as [Hf _].
  assert (pi < List.length (players st))%nat
    by (apply nth_error_Some; congruence).
  apply nth_error_Some. destruct Hi; lia.
Qed.

Lemma sameTable_in_range st0 st :
  sameTable st0 st ->
  nth_error (players st0) (currentPlayerIndex st0) <> None ->
  nth_error (players st) (currentPlayerIndex st) <> None.
Proof. intros [_ H]. now apply sameTurn_current. Qed.

Lemma sameTurn_indexOk st0 st : sameTurn st0 st -> indexOk st0 -> indexOk st.
Proof. intros [H1 H2]. unfold indexOk. now rewrite H1, H2. Qed.

Lemma respondToAction_keeps pid r st :
  pendingOk st -> indexOk st ->
  pendingOk (snd (respondToAction pid r st))
  /\ indexOk (snd (respondToAction pid r st)).
Proof.
  intros Hp Hi. split.
  2:{ apply (sameTurn_indexOk st); [|exact Hi].
      apply sameTurn_respondToAction, sameTurn_refl. }
  unfold respondToAction.
  destruct (pendingAction st) as [pa|] eqn:Hpa; [|exact Hp].
  assert (Hphase : turnPhase st = tpResponding)
    by (unfold pendingOk in Hp; now rewrite Hpa in Hp).
  destruct (findEntry (hasPlayerId pid) (players st)) as [[pi p]|] eqn:Hfind;
    [|exact Hp].
  pose proof (found_player_in_range _ _ _ _ Hfind Hi) as Hcur.
  destruct (findEntry (hasPlayerId (fromPlayerId pa)) (players st))
    as [[fi f]|]; [|exact Hp].
  destruct (alreadyResponded pid pa); [exact Hp|].
  destruct (useJustSayNo r).
  - unfold refuse.
    destruct (findEntry (isActionOf justSayNo) (handOf pi st)) as [[j jsn]|];
      [|exact Hp].
    set (st1 := setDiscardPile _ _).
    assert (H1 : sameTable st st1)
      by (apply (sameTable_modifyPlayer st pi _ st), sameTable_refl).
    assert (Hphase1 : turnPhase st1 = tpResponding) by exact Hphase.
    pose proof (sameTable_in_range _ _ H1 Hcur) as Hcur1.
    destruct (respondedPlayers pa).
    + now apply trackResponse_pendingOk.
    + destruct (find (isActionOf justSayNo) (handOf fi st1)).
      * unfold pendingOk. cbn. exact Hphase.
      * now apply resumeTurn_pendingOk.
  - pose proof (sameTable_settlePayment st pi fi p pa r st (sameTable_refl st))
      as H1.
    destruct (settlePayment pi fi p pa r st) as [[[]|msg] st1];
      cbn [andThen snd] in *; [|now apply (sameTable_pendingOk st)].
    match goal with
    | |- context [andThen ?r2 _] =>
        assert (H2 : sameTable st (snd r2))
          by (destruct (accept r && negb (isMultiPlayerAction pa));
              [now apply sameTable_executeEffect | exact H1]);
        destruct r2 as [[[]|msg] st2]
    end; cbn [andThen snd] in *; [|now apply (sameTable_pendingOk st)].
    apply trackResponse_pendingOk.
    + destruct H2 as [[_ H2] _]. congruence.
    + now apply (sameTable_in_range st).
Qed.

Lemma drawCards_keeps rnd pid st :
  pendingOk st -> indexOk st ->
  pendingOk (snd (drawCards rnd pid st))
  /\ indexOk (snd (drawCards rnd pid st)).
Proof.
  intros Hp Hi. split.
  2:{ apply (sameTurn_indexOk st); [|exact Hi].
      apply sameTurn_drawCards, sameTurn_refl. }
  unfold drawCards, asCurrentPlayer.
  destruct (findEntry _ (players st)) as [[pi p]|]; [|exact Hp].
  destruct (notYourTurn pid st) as [[]|]; try exact Hp.
  destruct (tpEqb (turnPhase st) tpDraw) eqn:Hphase; [|exact Hp].
  apply tpEqb_eq in Hphase. cbn [negb].
  pose proof (sameTable_drawLoop st rnd
                (match hand p with [] => 5%nat | _ => 2%nat end) pi st
                (sameTable_refl st)) as [[H1 _] _].
  destruct (drawLoop rnd _ pi st) as [drawn st1]. cbn [snd] in *.
  unfold pendingOk in *. cbn. rewrite H1.
  destruct (pendingAction st); [congruence | discriminate].
Qed.

Lemma endTurn_keeps st :
  (0 < List.length (players st))%nat ->
  pendingOk (endTurn st) /\ indexOk (endTurn st).
Proof.
  intros Hn. split; [unfold pendingOk; cbn; discriminate|].
  left. cbn. apply Nat.mod_upper_bound. lia.
Qed.

Lemma found_player_nonempty pid st pi p :
  findEntry (hasPlayerId pid) (players st) = Some (pi, p) ->
  (0 < List.length (players st))%nat.
Proof.
  intros Hf. apply findEntry_Some in Hf as [Hf _].
  assert (pi < List.length (players st))%nat
    by (apply nth_error_Some; congruence).
  lia.
Qed.

Lemma endTurnEarly_keeps pid st :
  pendingOk st -> indexOk st ->
  pendingOk (snd (endTurnEarly pid st)) /\ indexOk (snd (endTurnEarly pid st)).
Proof.
  intros Hp Hi. unfold endTurnEarly, asCurrentPlayer.
  destruct (findEntry _ (players st)) as [[pi p]|] eqn:Hf; [|auto].
  destruct (notYourTurn pid st) as [[]|]; auto.
  break_match; [auto|].
  destruct (pendingAction st) eqn:Hpa; [auto|].
  break_match; cbn [snd ok].
  - split; [|exact Hi]. unfold pendingOk. cbn. rewrite Hpa. discriminate.
  - apply endTurn_keeps. now apply (found_player_nonempty pid st pi p).
Qed.

Lemma discardCards_keeps pid ids st :
  pendingOk st -> indexOk st ->
  pendingOk (snd (discardCards pid ids st))
  /\ indexOk (snd (discardCards pid ids st)).
Proof.
  intros Hp Hi. unfold discardCards, asCurrentPlayer.
  destruct (findEntry _ (players st)) as [[pi p]|] eqn:Hf; [|auto].
  destruct (notYourTurn pid st) as [[]|]; auto.
  break_match; [auto|]. break_match; [auto|].
  pose proof (sameTable_discardLoop st pi ids st (sameTable_refl st)) as H1.
  destruct (discardLoop pi ids st) as [[[]|msg] st1]; cbn [andThen snd ok] in *.
  - apply endTurn_keeps. destruct H1 as [_ [_ H1]]. rewrite H1.
    now apply (found_player_nonempty pid st pi p).
  - split; [now apply (sameTable_pendingOk st) | now apply (sameTable_indexOk st)].
Qed.

Lemma removePlayer_keeps pid st :
  pendingOk st -> indexOk st ->
  pendingOk (removePlayer pid st) /\ indexOk (removePlayer pid st).
Proof.
  intros Hp Hi. unfold removePlayer.
  destruct (findEntry _ (players st)) as [[index p]|]; [|auto].
  cbn [players setPlayers currentPlayerIndex].
  destruct (Nat.leb_spec (List.length (removeAt index (players st)))
              (currentPlayerIndex st)).
  - split; [exact Hp | right; reflexivity].
  - split; [exact Hp | left; exact H].
Qed.

Lemma startGame_keeps uuid rnd st :
  pendingOk st -> indexOk st -> pendingAction st = None ->
  pendingOk (snd (startGame uuid rnd st))
  /\ indexOk (snd (startGame uuid rnd st)).
Proof.
  intros Hp Hi Hnone. unfold startGame.
  repeat break_match; cbn [snd ok throw]; auto.
  split; [|right; reflexivity].
  unfold pendingOk. cbn. rewrite Hnone. discriminate.
Qed.

(** Every exported operation keeps pending action and turn phase in step,
    except [startGame] called while an action is pending. *)
Lemma run_keeps op st :
  pendingOk st -> indexOk st ->
  isStartGame op = false \/ pendingAction st = None ->
  pendingOk (snd (run op st)) /\ indexOk (snd (run op st)).
Proof.
  intros Hp Hi Hstart. destruct op; cbn [run].
  - cbn. split; [exact Hp|]. unfold indexOk in *. cbn.
    unfold push. rewrite length_app. cbn. destruct Hi; [left; lia | auto].
  - cbn [snd ok]. now apply removePlayer_keeps.
  - destruct Hstart as [Hs|Hnone]; [discriminate|]. now apply startGame_keeps.
  - destruct (drawCards_keeps rnd playerId st Hp Hi) as [H1 H2].
    destruct (drawCards rnd playerId st) as [[a|m] s]; cbn in *; auto.
  - now apply playCard_keeps.
  - now apply respondToAction_keeps.
  - now apply discardCards_keeps.
  - now apply endTurnEarly_keeps.
  - split.
    + apply (sameTable_pendingOk st); [|exact Hp].
      apply sameTable_rearrangeProperty, sameTable_refl.
    + apply (sameTable_indexOk st); [|exact Hi].
      apply sameTable_rearrangeProperty, sameTable_refl.
Qed.

Lemma createGameState_ok gameId uuid rnd room :
  pendingOk (createGameState gameId uuid rnd room)
  /\ indexOk (createGameState gameId uuid rnd room).
Proof. split; [unfold pendingOk; cbn; discriminate | right; reflexivity]. Qed.

Lemma runAll_keeps ops : forall st,
  pendingOk st -> indexOk st -> restartFree ops st = true ->
  pendingOk (runAll ops st) /\ indexOk (runAll ops st).
Proof.
  induction ops as [|op ops IH]; intros st Hp Hi Hfree; [auto|].
  cbn [restartFree] in Hfree. apply andb_true_iff in Hfree as [Hop Hrest].
  destruct (run_keeps op st Hp Hi) as [Hp' Hi'].
  { apply orb_true_iff in Hop as [Hop|Hop].
    - left. now destruct (isStartGame op).
    - right. now destruct (pendingAction st). }
  exact (IH _ Hp' Hi' Hrest).
Qed.

(** X1.  As long as the game is not started again while an action is
    pending, an action is pending exactly in the responding phase, and the
    current player index points at a player (or is 0 in an empty lobby):
    this holds after every sequence of calls of the exported operations on a
    fresh game, calls that throw included. *)
Theorem X1_pending_only_while_responding (gameId room : string)
    (uuid : nat -> string) (rnd : nat -> nat) (ops : list Op) :
  restartFree ops (createGameState gameId uuid rnd room) = true ->
  pendingOk (runAll ops (createGameState gameId uuid rnd room))
  /\ indexOk (runAll ops (createGameState gameId uuid rnd room)).
Proof.
  intros Hfree.
  destruct (createGameState_ok gameId uuid rnd room) as [Hp Hi].
  exact (runAll_keeps ops _ Hp Hi Hfree).
Qed.

(** X1 on the game in which B owes A a debt. *)
Lemma X1_witness :
  restartFree debtOnB freshGame = true
  /\ pendingOk debtPending /\ indexOk debtPending.
Proof.
  split; [vm_compute; reflexivity|].
  apply (X1_pending_only_while_responding "g" "room" cardUuid noShuffle debtOnB).
  vm_compute. reflexivity.
Defined.

(* ================================================================== *)
(** ** Reachable states that break an invariant (C3, C5, C6, C7) *)

Lemma Reachable_runAll ops : forall st, Reachable st -> Reachable (runAll ops st).
Proof.
  induction ops as [|op ops IH]; intros st H; [exact H|].
  apply IH. now apply reach_step.
Qed.

Lemma Reachable_from_fresh ops : Reachable (runAll ops freshGame).
Proof. apply Reachable_runAll. apply reach_create. Qed.

(** C7 as stated fails on reachable states: [removePlayer] moves the index
    from 2 to 0, and a second [startGame] moves it from 1 to 0 among three
    players, which is not one step forward. *)
Lemma C7_counterexample :
  let st := runAll thirdPlayersTurn freshGame in
  Reachable st
  /\ currentPlayerIndex st = 2%nat
  /\ currentPlayerIndex (snd (run (OpRemovePlayer "A") st)) = 0%nat
  /\ endsTurn (OpRemovePlayer "A") = false
  /\ let st1 := runAll (twoPlayers ++ [OpAddPlayer "C" "Carol" "sc";
                          OpStartGame cardUuid noShuffle;
                          OpDrawCards noShuffle "A"; OpEndTurnEarly "A"]) freshGame in
     let op := OpStartGame cardUuid noShuffle in
     Reachable st1
     /\ endsTurn op = false
     /\ currentPlayerIndex st1 = 1%nat
     /\ List.length (players st1) = 3%nat
     /\ List.length (players (snd (run op st1))) = 3%nat
     /\ currentPlayerIndex (snd (run op st1)) = 0%nat
     /\ currentPlayerIndex (snd (run op st1))
        <> ((currentPlayerIndex st1 + 1) mod 3)%nat.
Proof.
  cbv zeta. split; [apply Reachable_from_fresh|].
  split; [vm_compute; reflexivity|]. split; [vm_compute; reflexivity|].
  split; [reflexivity|]. split; [apply Reachable_from_fresh|].
  vm_compute. repeat split; discriminate.
Qed.

(** C3 fails on the code: [startGame] sets the turn phase to draw and
    keeps the pending action, whereas [endTurn] clears it when it sets that
    phase.  Starting the game again while a birthday card awaits its answers
    gives a reachable state with a pending action outside the responding
    phase. *)
Theorem C3_restart_keeps_pending_action :
  let st := runAll restartWhilePending freshGame in
  Reachable st
  /\ turnPhase st = tpDraw
  /\ option_map pa_type (pendingAction st) = Some (PAction birthday)
  /\ ~ pendingOk st
  /\ (forall uuid rnd s,
        pendingAction (snd (startGame uuid rnd s)) = pendingAction s)
  /\ (forall s, pendingAction (endTurn s) = None).
Proof.
  cbv zeta. split; [apply Reachable_from_fresh|].
  split; [vm_compute; reflexivity|]. split; [vm_compute; reflexivity|].
  split; [vm_compute; discriminate|]. split; [|reflexivity].
  intros uuid rnd s. unfold startGame. repeat break_match; reflexivity.
Qed.

(** C5 fails on the code: [respondToAction] never runs [checkWinner]; it
    leaves phase and winner as they are on every input.  When B pays A's
    debt collector with a dark blue property, A holds three complete sets
    and the game is still being played, with no winner. *)
Theorem C5_no_win_check_after_response :
  let st := runAll debtOnB freshGame in
  let st' := snd (run payWithProperty st) in
  Reachable st'
  /\ fst (run payWithProperty st) = Ok tt
  /\ map completeSets (players st) = [2; 0]%nat
  /\ map completeSets (players st') = [3; 0]%nat
  /\ phase st' = phPlaying
  /\ winner st' = None
  /\ checkWinner st' <> st'
  /\ (forall playerId response s,
        phase (snd (respondToAction playerId response s)) = phase s
        /\ winner (snd (respondToAction playerId response s)) = winner s).
Proof.
  cbv zeta. split; [apply reach_step, Reachable_from_fresh|].
  repeat (split; [vm_compute; first [reflexivity | discriminate]|]).
  intros playerId response s.
  exact (sameMatch_respondToAction s playerId response s (conj eq_refl eq_refl)).
Qed.

(** C6 fails on the code: a double-rent card played on its own is refused,
    but the refusal leaves the card at the end of the hand and the action
    budget one higher than before.  The same holds for Just Say No, on every
    state. *)
Theorem C6_rejected_play_changes_state :
  let st := runAll holdingDoubleRent freshGame in
  let r := run (OpPlayCard noShuffle "A" "c90" None) st in
  Reachable st
  /\ fst r = Throw "Double Rent must be played with a Rent card"
  /\ actionsRemaining st = 3 /\ actionsRemaining (snd r) = 4
  /\ map card_id (handOf 0 st)
     = ["c90"; "c103"; "c102"; "c101"; "c100"; "c94"; "c93"]
  /\ map card_id (handOf 0 (snd r))
     = ["c103"; "c102"; "c101"; "c100"; "c94"; "c93"; "c90"]
  /\ snd r <> st
  /\ (forall rnd pi playerId card target s,
        playActionCard rnd pi playerId card doubleRent target s
        = (Throw "Double Rent must be played with a Rent card",
           setActionsRemaining (actionsRemaining s + 1)
             (modifyPlayer pi (pushHand card) s)))
  /\ (forall rnd pi playerId card target s,
        playActionCard rnd pi playerId card justSayNo target s
        = (Throw "Just Say No can only be played in response",
           setActionsRemaining (actionsRemaining s + 1)
             (modifyPlayer pi (pushHand card) s))).
Proof.
  cbv zeta. split; [apply Reachable_from_fresh|].
  repeat (split; [vm_compute; first [reflexivity | discriminate]|]).
  split; reflexivity.
Qed.

(* ================================================================== *)
(** ** The refusal chain (C2) *)

Section UpdateAt.
Context {A : Type}.

Lemma nth_error_updateAt_eq i (f : A -> A) l x :
  nth_error l i = Some x -> nth_error (updateAt i f l) i = Some (f x).
Proof.
  revert i. induction l as [|a l IH]; intros [|i] H; simpl in *;
    try discriminate; [congruence | auto].
Qed.

Lemma nth_error_updateAt_ne i j (f : A -> A) l :
  i <> j -> nth_error (updateAt i f l) j = nth_error l j.
Proof.
  revert i j. induction l as [|a l IH]; intros [|i] [|j] H; simpl; auto;
    try contradiction.
Qed.

Lemma nth_error_updateAt i j (f : A -> A) l :
  nth_error (updateAt i f l) j
  = if (i =? j)%nat then option_map f (nth_error l j) else nth_error l j.
Proof.
  revert i j. induction l as [|a l IH]; intros i j.
  - destruct i, j; simpl; try reflexivity; now destruct (i =? j)%nat.
  - destruct i, j; simpl; try reflexivity. apply IH.
Qed.


End UpdateAt.




Lemma players_resumeTurn st : players (snd (resumeTurn st)) = players st.
Proof. unfold resumeTurn. repeat break_match; reflexivity. Qed.

Lemma players_trackResponse pid pa st :
  players (snd (trackResponse pid pa st)) = players st.
Proof.
  unfold trackResponse. repeat break_match; try reflexivity;
    now rewrite players_resumeTurn.
Qed.

Lemma discardPile_resumeTurn st : discardPile (snd (resumeTurn st)) = discardPile st.
Proof. unfold resumeTurn. repeat break_match; reflexivity. Qed.

Lemma pendingAction_resumeTurn st : pendingAction (snd (resumeTurn st)) = None.
Proof. unfold resumeTurn. repeat break_match; reflexivity. Qed.

Lemma resumeTurn_ok st :
  nth_error (players st) (currentPlayerIndex st) <> None ->
  fst (resumeTurn st) = Ok tt.
Proof.
  intros H. unfold resumeTurn. cbn [players setPendingAction currentPlayerIndex].
  repeat break_match; try reflexivity. contradiction.
Qed.

Lemma discardPile_trackResponse pid pa st :
  discardPile (snd (trackResponse pid pa st)) = discardPile st.
Proof.
  unfold trackResponse. repeat break_match; try reflexivity;
    now rewrite discardPile_resumeTurn.
Qed.








(* ================================================================== *)
(** ** Payment settlement (C1) *)

Section MoreArrays.
Context {A : Type}.

Lemma In_removeAt (y : A) i l : In y (removeAt i l) -> In y l.
Proof.
  revert i. induction l as [|a l IH]; intros [|i] H; simpl in *; auto.
  destruct H as [->|H]; eauto.
Qed.

Lemma In_removeAt_or (y : A) i l :
  In y l -> In y (removeAt i l) \/ nth_error l i = Some y.
Proof.
  revert i. induction l as [|a l IH]; intros [|i] H; simpl in *; auto.
  - destruct H as [->|H]; auto.
  - destruct H as [->|H]; auto. destruct (IH i H); auto.
Qed.

Lemma filter_removeAt_other (q : A -> bool) i l y :
  nth_error l i = Some y -> q y = false ->
  filter q (removeAt i l) = filter q l.
Proof.
  revert i. induction l as [|a l IH]; intros [|i] H Hq; simpl in *;
    try discriminate.
  - injection H as ->. now rewrite Hq.
  - rewrite (IH i H Hq). reflexivity.
Qed.

Lemma filter_push_other (q : A -> bool) l y :
  q y = false -> filter q (push l y) = filter q l.
Proof.
  intros Hq. unfold push. rewrite filter_app. simpl. rewrite Hq.
  apply app_nil_r.
Qed.

Lemma find_filter (q : A -> bool) l : find q l = hd_error (filter q l).
Proof.
  induction l as [|a l IH]; simpl; [reflexivity|]. now destruct (q a).
Qed.

Lemma find_app (q : A -> bool) l1 l2 :
  find q (l1 ++ l2)
  = match find q l1 with Some x => Some x | None => find q l2 end.
Proof.
  induction l1 as [|a l1 IH]; simpl; [reflexivity|]. now destruct (q a).
Qed.

Lemma In_updateAt (y : A) i (f : A -> A) l :
  In y l -> In y (updateAt i f l) \/ nth_error l i = Some y.
Proof.
  revert i. induction l as [|a l IH]; intros [|i] H; simpl in *; auto.
  - destruct H as [->|H]; auto.
  - destruct H as [->|H]; auto. destruct (IH i H); auto.
Qed.

Lemma In_updateAt_inv (y : A) i (f : A -> A) l :
  In y (updateAt i f l) ->
  In y l \/ exists x, nth_error l i = Some x /\ y = f x.
Proof.
  revert i. induction l as [|a l IH]; intros [|i] H; simpl in *; auto.
  - destruct H as [<-|H]; eauto.
  - destruct H as [->|H]; auto. destruct (IH i H) as [|]; auto.
Qed.

Lemma In_updateAt_new i (f : A -> A) l x :
  nth_error l i = Some x -> In (f x) (updateAt i f l).
Proof.
  revert i. induction l as [|a l IH]; intros [|i] H; simpl in *;
    try discriminate.
  - injection H as ->. auto.
  - eauto.
Qed.
End MoreArrays.

(** *** Cards in property sets *)

Lemma allSetCards_In card sets :
  In card (allSetCards sets) <->
  exists s, In s sets /\ In card (set_cards s).
Proof. unfold allSetCards. apply in_flat_map. Qed.

Lemma filter_allSetCards q sets :
  filter q (allSetCards sets)
  = flat_map (fun s => filter q (set_cards s)) sets.
Proof.
  induction sets as [|s sets IH]; simpl; [reflexivity|].
  now rewrite filter_app, IH.
Qed.

Lemma filter_allSetCards_updateAt q k h sets :
  (forall s, nth_error sets k = Some s ->
             filter q (set_cards (h s)) = filter q (set_cards s)) ->
  filter q (allSetCards (updateAt k h sets)) = filter q (allSetCards sets).
Proof.
  rewrite !filter_allSetCards. revert k.
  induction sets as [|s sets IH]; intros [|k] H; simpl; auto.
  - now rewrite (H s eq_refl).
  - f_equal. apply IH. intros s' Hs'. now apply H.
Qed.

Lemma filter_allSetCards_push q sets s :
  filter q (allSetCards (push sets s))
  = (filter q (allSetCards sets) ++ filter q (set_cards s))%list.
Proof.
  unfold push, allSetCards. rewrite flat_map_app, filter_app. simpl.
  now rewrite app_nil_r.
Qed.

(** [findInSets] finds what [flatMap(...).find(...)] finds. *)
Lemma findInSets_find cardId sets : forall k0,
  find (hasId cardId) (allSetCards sets)
  = option_map snd (findInSets cardId k0 sets).
Proof.
  induction sets as [|s sets IH]; intros k0; simpl; [reflexivity|].
  rewrite find_app, (find_findEntry (hasId cardId) (set_cards s)).
  destruct (findEntry (hasId cardId) (set_cards s)) as [[i c]|]; simpl;
    [reflexivity | apply IH].
Qed.

Lemma findInSets_Some cardId sets : forall k0 k i card,
  findInSets cardId k0 sets = Some (k, i, card) ->
  exists s, (k0 <= k)%nat /\ nth_error sets (k - k0) = Some s
            /\ nth_error (set_cards s) i = Some card
            /\ hasId cardId card = true.
Proof.
  induction sets as [|s sets IH]; intros k0 k i card H; simpl in H;
    [discriminate|].
  destruct (findEntry (hasId cardId) (set_cards s)) as [[j c]|] eqn:Hf.
  - injection H as <- <- <-. apply findEntry_Some in Hf as [Hn Hq].
    exists s. rewrite Nat.sub_diag. auto.
  - destruct (IH _ _ _ _ H) as (s' & Hle & Hn & Hc & Hq).
    exists s'. split; [lia|].
    replace (k - k0)%nat with (S (k - S k0)) by lia. auto.
Qed.

(** *** Who owns what *)

Lemma ownsIn_allSetCards q card :
  In card (allSetCards (properties q)) <-> exists c, ownsIn q c card.
Proof.
  rewrite allSetCards_In. split.
  - intros (s & Hs & Hc). exists (set_color s), s. auto.
  - intros (c & s & Hs & _ & Hc). eauto.
Qed.

Lemma ownsIn_setBank b q c card : ownsIn (setBank b q) c card <-> ownsIn q c card.
Proof. reflexivity. Qed.

Lemma ownsIn_addToSet card s :
  set_color (addToSet card s) = set_color s
  /\ set_cards (addToSet card s) = push (set_cards s) card.
Proof. split; reflexivity. Qed.

Lemma ownsIn_placeProperty c card q c' y :
  ownsIn (placeProperty c card q) c' y <-> ownsIn q c' y \/ (c' = c /\ y = card).
Proof.
  unfold placeProperty.
  destruct (findEntry (hasColor c) (properties q)) as [[k sk]|] eqn:Hf.
  - apply findEntry_Some in Hf as [Hk Hcol].
    assert (Hc : set_color sk = c).
    { unfold hasColor in Hcol. destruct (set_color sk), c; try discriminate; reflexivity. }
    unfold ownsIn, modifySet. cbn [properties setProperties]. split.
    + intros (s & Hs & Hsc & Hy).
      apply In_updateAt_inv in Hs as [Hs|(x & Hx & ->)]; [left; eauto|].
      rewrite Hk in Hx. injection Hx as <-.
      cbn [addToSet updatePropertySetCompletion setIsComplete set_color
           set_cards setCards] in Hsc, Hy.
      unfold push in Hy. apply in_app_or in Hy as [Hy|[<-|[]]].
      * left. exists sk. split; [eapply nth_error_In; eauto | auto].
      * right. split; congruence.
    + intros [(s & Hs & Hsc & Hy)|[-> ->]].
      * destruct (In_updateAt s k (addToSet card) _ Hs) as [Hin|Hn].
        -- exists s. auto.
        -- rewrite Hk in Hn. injection Hn as ->.
           exists (addToSet card s). split; [now apply In_updateAt_new|].
           split; [exact Hsc|]. cbn. unfold push. apply in_or_app. auto.
      * exists (addToSet card sk). split; [now apply In_updateAt_new|].
        split; [exact Hc|]. cbn. unfold push. apply in_or_app. simpl. auto.
  - unfold ownsIn. cbn [properties setProperties]. unfold push. split.
    + intros (s & Hs & Hsc & Hy). apply in_app_or in Hs as [Hs|[<-|[]]].
      * left. eauto.
      * right. cbn in Hsc, Hy. destruct Hy as [<-|[]]. split; congruence.
    + intros [(s & Hs & Hsc & Hy)|[-> ->]].
      * exists s. split; [apply in_or_app; auto | auto].
      * exists (addToSet card (newSet c)). split; [apply in_or_app; simpl; auto|].
        split; [reflexivity | cbn; auto].
Qed.

Lemma ownsIn_recompute k q c y :
  ownsIn (modifySet k updatePropertySetCompletion q) c y <-> ownsIn q c y.
Proof.
  unfold ownsIn, modifySet. cbn [properties setProperties]. split.
  - intros (s & Hs & Hsc & Hy).
    apply In_updateAt_inv in Hs as [Hs|(x & Hx & ->)]; [eauto|].
    exists x. split; [eapply nth_error_In; eauto | auto].
  - intros (s & Hs & Hsc & Hy).
    destruct (In_updateAt s k updatePropertySetCompletion _ Hs) as [Hin|Hn];
      [eauto|].
    exists (updatePropertySetCompletion s).
    split; [now apply In_updateAt_new | auto].
Qed.

Lemma ownsIn_take_inv k i q c y :
  ownsIn (modifySet k (takeFromSet i) q) c y -> ownsIn q c y.
Proof.
  unfold ownsIn, modifySet. cbn [properties setProperties].
  intros (s & Hs & Hsc & Hy).
  apply In_updateAt_inv in Hs as [Hs|(x & Hx & ->)]; [eauto|].
  exists x. split; [eapply nth_error_In; eauto|]. split; [exact Hsc|].
  cbn in Hy. eapply In_removeAt; eauto.
Qed.

Lemma ownsIn_take k i q c y sk card :
  nth_error (properties q) k = Some sk ->
  nth_error (set_cards sk) i = Some card ->
  ownsIn q c y ->
  ownsIn (modifySet k (takeFromSet i) q) c y \/ (y = card /\ set_color sk = c).
Proof.
  intros Hk Hi (s & Hs & Hsc & Hy).
  unfold ownsIn, modifySet. cbn [properties setProperties].
  destruct (In_updateAt s k (takeFromSet i) _ Hs) as [Hin|Hn]; [left; eauto|].
  rewrite Hk in Hn. injection Hn as ->.
  destruct (In_removeAt_or y i _ Hy) as [Hr|Hn].
  - left. exists (takeFromSet i s). split; [now apply In_updateAt_new | auto].
  - right. rewrite Hi in Hn. injection Hn as ->. auto.
Qed.

(** *** What a filter on ids sees of the sets *)

Lemma filter_sets_recompute q k sets :
  filter q (allSetCards (updateAt k updatePropertySetCompletion sets))
  = filter q (allSetCards sets).
Proof. apply filter_allSetCards_updateAt. reflexivity. Qed.

Lemma filter_sets_take q k i sets sk card :
  nth_error sets k = Some sk ->
  nth_error (set_cards sk) i = Some card ->
  q card = false ->
  filter q (allSetCards (updateAt k (takeFromSet i) sets))
  = filter q (allSetCards sets).
Proof.
  intros Hk Hi Hq. apply filter_allSetCards_updateAt.
  intros s Hs. rewrite Hk in Hs. injection Hs as <-.
  cbn. now apply (filter_removeAt_other q i _ card).
Qed.

Lemma filter_sets_place q c card r :
  q card = false ->
  filter q (allSetCards (properties (placeProperty c card r)))
  = filter q (allSetCards (properties r)).
Proof.
  intros Hq. unfold placeProperty.
  destruct (findEntry (hasColor c) (properties r)) as [[k sk]|].
  - unfold modifySet. cbn [properties setProperties].
    apply filter_allSetCards_updateAt. intros s _. cbn.
    now apply filter_push_other.
  - cbn [properties setProperties]. rewrite filter_allSetCards_push. cbn.
    rewrite Hq. apply app_nil_r.
Qed.

(** *** One turn of the payment loop *)

Lemma playerAt_modifyPlayer i j g st p q :
  playerAt i st = Some p -> playerAt j st = Some q ->
  playerAt j (modifyPlayer i g st) = Some (if (i =? j)%nat then g p else q).
Proof.
  unfold playerAt, modifyPlayer. cbn [players setPlayers]. intros Hp Hq.
  destruct (Nat.eqb_spec i j) as [<-|Hne].
  - now apply nth_error_updateAt_eq.
  - now rewrite nth_error_updateAt_ne.
Qed.

Lemma bankOf_playerAt i st p : playerAt i st = Some p -> bankOf i st = bank p.
Proof. unfold playerAt, bankOf. now intros ->. Qed.

Lemma propertiesOf_playerAt i st p :
  playerAt i st = Some p -> propertiesOf i st = properties p.
Proof. unfold playerAt, propertiesOf. now intros ->. Qed.

Lemma hasId_other x cid card :
  hasId x card = true -> cid <> x -> hasId cid card = false.
Proof.
  unfold hasId. intros Hx Hne. apply String.eqb_eq in Hx.
  apply String.eqb_neq. congruence.
Qed.

Lemma stepFacts_refl x p f :
  find (hasId x) (bank p) = None ->
  find (hasId x) (allSetCards (properties p)) = None ->
  stepFacts x p f p f.
Proof.
  intros Hb Hs. unfold stepFacts. rewrite Hb, Hs.
  repeat split; auto using incl_refl; discriminate.
Qed.

Lemma playPropertyCard_home fi card c w wcs st :
  face card = Property c w wcs ->
  homeColorAllowed card = true ->
  playPropertyCard fi card c w wcs None st
  = ok (modifyPlayer fi (placeProperty c card) st).
Proof.
  unfold playPropertyCard, homeColorAllowed. intros ->.
  destruct w; [|reflexivity]. destruct wcs as [l|]; [|reflexivity].
  now intros ->.
Qed.

Lemma cardColor_face card c :
  cardColor card = Some c <-> exists w wcs, face card = Property c w wcs.
Proof.
  unfold cardColor. destruct (face card); split;
    try discriminate; try (intros (w & wcs & H); discriminate).
  - intros [= ->]. eauto.
  - intros (w & wcs & [= -> _ _]). reflexivity.
Qed.

Lemma facts_from_bank x p f bi card (same : bool) :
  (same = true -> f = p) ->
  nth_error (bank p) bi = Some card ->
  hasId x card = true ->
  find (hasId x) (bank p) = Some card ->
  let p1 := takeFromBank bi p in
  let f' := pushBank card (if same then p1 else f) in
  stepFacts x p f (if same then f' else p1) f'.
Proof.
  intros Hsame Hn Hq Hfind p1 f'. unfold stepFacts.
  assert (Hin : In card (bank f')).
  { unfold f', pushBank, push. cbn. apply in_or_app. simpl. auto. }
  split; [|split; [|split; [|split; [|split]]]].
  - intros y Hy. unfold f', pushBank, push. cbn. apply in_or_app.
    destruct same.
    + rewrite (Hsame eq_refl) in Hy. cbn.
      destruct (In_removeAt_or y bi _ Hy) as [|Hy']; [auto|].
      right. rewrite Hn in Hy'. injection Hy' as ->. simpl. auto.
    + auto.
  - intros y Hy. destruct same; [rewrite (Hsame eq_refl) in Hy|]; exact Hy.
  - intros y Hy. rewrite Hfind in Hy. injection Hy as <-. exact Hin.
  - intros y Hy. rewrite Hfind in Hy. discriminate.
  - intros cid Hne. pose proof (hasId_other _ _ _ Hq Hne) as Hq'.
    destruct same; unfold f', p1, pushBank, takeFromBank;
      cbn [bank properties setBank].
    + split; [|reflexivity]. rewrite filter_push_other by exact Hq'.
      now apply (filter_removeAt_other _ bi _ card).
    + split; [|reflexivity]. now apply (filter_removeAt_other _ bi _ card).
  - destruct same; cbn; apply incl_refl.
Qed.

Lemma homeSet_iff_ownsIn owner card c :
  cardColor card = Some c -> (homeSet owner card <-> ownsIn owner c card).
Proof.
  intros Hc. unfold homeSet. split.
  - intros (c' & Hc' & Ho). congruence.
  - eauto.
Qed.

Lemma facts_from_set x p f k i sk card (same : bool) :
  (same = true -> f = p) ->
  nth_error (properties p) k = Some sk ->
  nth_error (set_cards sk) i = Some card ->
  hasId x card = true ->
  find (hasId x) (bank p) = None ->
  find (hasId x) (allSetCards (properties p)) = Some card ->
  let p1 := modifySet k (takeFromSet i) p in
  let give := match cardColor card with
              | Some c => placeProperty c card
              | None => pushBank card
              end in
  let f2 := give (if same then p1 else f) in
  let p' := modifySet k updatePropertySetCompletion (if same then f2 else p1) in
  stepFacts x p f p' (if same then p' else f2).
Proof.
  intros Hsame Hk Hi Hq Hbank Hfind p1 give f2 p'. unfold stepFacts.
  assert (Hgive_bank : forall r y, In y (bank r) -> In y (bank (give r))).
  { intros r y Hy. unfold give. destruct (cardColor card).
    - unfold placeProperty. now destruct (findEntry _ _) as [[? ?]|].
    - unfold pushBank, push. cbn. apply in_or_app. auto. }
  assert (Hgive_own : forall r c y, ownsIn r c y -> ownsIn (give r) c y).
  { intros r c y Hy. unfold give. destruct (cardColor card).
    - apply ownsIn_placeProperty. auto.
    - exact Hy. }
  assert (Hgive_card : forall r c, cardColor card = Some c -> ownsIn (give r) c card).
  { intros r c Hc. unfold give. rewrite Hc. apply ownsIn_placeProperty. auto. }
  assert (Hgive_inv : forall r c y, ownsIn (give r) c y -> ownsIn r c y \/ y = card).
  { intros r c y Hy. unfold give in Hy. destruct (cardColor card).
    - apply ownsIn_placeProperty in Hy as [|[_ ->]]; auto.
    - auto. }
  assert (Hown : In card (allSetCards (properties p))).
  { apply allSetCards_In. exists sk.
    split; eapply nth_error_In; eauto. }
  split; [|split; [|split; [|split; [|split]]]].
  - intros y Hy. destruct same.
    + rewrite (Hsame eq_refl) in Hy. unfold p'. cbn. apply Hgive_bank. exact Hy.
    + apply Hgive_bank. exact Hy.
  - intros y (c & Hc & Hy). exists c. split; [exact Hc|]. destruct same.
    + rewrite (Hsame eq_refl) in Hy. unfold p'. apply ownsIn_recompute.
      destruct (ownsIn_take k i p c y sk card Hk Hi Hy) as [Ht|[-> _]].
      * apply Hgive_own. exact Ht.
      * apply Hgive_card. exact Hc.
    + apply Hgive_own. exact Hy.
  - intros y Hy. rewrite Hbank in Hy. discriminate.
  - intros y _ Hy Hprop. rewrite Hfind in Hy. injection Hy as <-.
    assert (Hc : exists c, cardColor card = Some c).
    { unfold cardColor, isProperty in *. destruct (face card); try discriminate.
      eauto. }
    destruct Hc as [c Hc]. exists c. split; [exact Hc|]. destruct same.
    + unfold p'. apply ownsIn_recompute. apply Hgive_card. exact Hc.
    + apply Hgive_card. exact Hc.
  - intros cid Hne. pose proof (hasId_other _ _ _ Hq Hne) as Hq'.
    assert (Htake : filter (hasId cid) (allSetCards (properties p1))
                    = filter (hasId cid) (allSetCards (properties p))).
    { unfold p1, modifySet. cbn [properties setProperties].
      now apply (filter_sets_take _ k i _ sk card). }
    unfold p'.
    change (bank (modifySet k updatePropertySetCompletion
                    (if same then f2 else p1)))
      with (bank (if same then f2 else p1)).
    change (properties (modifySet k updatePropertySetCompletion
                          (if same then f2 else p1)))
      with (updateAt k updatePropertySetCompletion
              (properties (if same then f2 else p1))).
    rewrite filter_sets_recompute. destruct same.
    + unfold f2, give. destruct (cardColor card).
      * rewrite filter_sets_place by exact Hq'. split; [|exact Htake].
        unfold placeProperty. now destruct (findEntry _ _) as [[? ?]|].
      * unfold pushBank. cbn [bank properties setBank].
        split; [|exact Htake]. now apply filter_push_other.
    + split; [reflexivity | exact Htake].
  - intros y Hy. unfold p' in Hy.
    apply ownsIn_allSetCards in Hy as (c & Hy). apply ownsIn_recompute in Hy.
    destruct same.
    + apply Hgive_inv in Hy as [Hy| ->]; [|exact Hown].
      apply ownsIn_take_inv in Hy. apply ownsIn_allSetCards. eauto.
    + apply ownsIn_take_inv in Hy. apply ownsIn_allSetCards. eauto.
Qed.

Lemma give_as_play fi card st :
  homeColorAllowed card = true ->
  match face card with
  | Property c w wcs => playPropertyCard fi card c w wcs None st
  | _ => ok (modifyPlayer fi (pushBank card) st)
  end
  = ok (modifyPlayer fi
          match cardColor card with
          | Some c => placeProperty c card
          | None => pushBank card
          end st).
Proof.
  intros Hwf. unfold cardColor.
  destruct (face card) as [c w wcs| |a|cs w] eqn:Hface; try reflexivity.
  now apply playPropertyCard_home.
Qed.

Lemma payCard_step pi fi x st p f :
  playerAt pi st = Some p ->
  playerAt fi st = Some f ->
  setsWellFormed p ->
  exists st' p' f',
    payCard pi fi x st = (Ok tt, st')
    /\ playerAt pi st' = Some p'
    /\ playerAt fi st' = Some f'
    /\ stepFacts x p f p' f'.
Proof.
  intros Hp Hf Hwf.
  assert (Hsame : (pi =? fi)%nat = true -> f = p).
  { intros H. apply Nat.eqb_eq in H. subst fi. congruence. }
  unfold payCard.
  rewrite (bankOf_playerAt _ _ _ Hp), (propertiesOf_playerAt _ _ _ Hp).
  pose proof (find_findEntry (hasId x) (bank p)) as Hfb.
  destruct (findEntry (hasId x) (bank p)) as [[bi card]|] eqn:Hb; cbn in Hfb.
  - apply findEntry_Some in Hb as [Hn Hq].
    pose proof (playerAt_modifyPlayer pi pi (takeFromBank bi) st p p Hp Hp) as Hp1.
    rewrite Nat.eqb_refl in Hp1.
    pose proof (playerAt_modifyPlayer pi fi (takeFromBank bi) st p f Hp Hf) as Hf1.
    pose proof (playerAt_modifyPlayer fi pi (pushBank card) _ _ _ Hf1 Hp1) as Hp2.
    pose proof (playerAt_modifyPlayer fi fi (pushBank card) _ _ _ Hf1 Hf1) as Hf2.
    rewrite Nat.eqb_refl in Hf2. rewrite (Nat.eqb_sym fi pi) in Hp2.
    eexists _, _, _. split; [reflexivity|].
    split; [exact Hp2|]. split; [exact Hf2|].
    exact (facts_from_bank x p f bi card (pi =? fi)%nat Hsame Hn Hq Hfb).
  - pose proof (findInSets_find x (properties p) 0) as Hfs.
    destruct (findInSets x 0 (properties p)) as [[[k i] card]|] eqn:Hs;
      cbn in Hfs.
    + destruct (findInSets_Some _ _ _ _ _ _ Hs) as (sk & _ & Hk & Hi & Hq).
      rewrite Nat.sub_0_r in Hk.
      assert (Hcard : homeColorAllowed card = true).
      { apply Hwf. apply allSetCards_In. exists sk.
        split; eapply nth_error_In; eauto. }
      rewrite (give_as_play fi card _ Hcard). cbn [andThen ok].
      set (give := match cardColor card with
                   | Some c => placeProperty c card
                   | None => pushBank card
                   end).
      pose proof (playerAt_modifyPlayer pi pi (modifySet k (takeFromSet i))
                    st p p Hp Hp) as Hp1.
      rewrite Nat.eqb_refl in Hp1.
      pose proof (playerAt_modifyPlayer pi fi (modifySet k (takeFromSet i))
                    st p f Hp Hf) as Hf1.
      pose proof (playerAt_modifyPlayer fi pi give _ _ _ Hf1 Hp1) as Hp2.
      pose proof (playerAt_modifyPlayer fi fi give _ _ _ Hf1 Hf1) as Hf2.
      rewrite Nat.eqb_refl in Hf2. rewrite (Nat.eqb_sym fi pi) in Hp2.
      pose proof (playerAt_modifyPlayer pi pi
                    (modifySet k updatePropertySetCompletion) _ _ _ Hp2 Hp2) as Hp3.
      rewrite Nat.eqb_refl in Hp3.
      pose proof (playerAt_modifyPlayer pi fi
                    (modifySet k updatePropertySetCompletion) _ _ _ Hp2 Hf2) as Hf3.
      eexists _, _, _. split; [reflexivity|].
      split; [exact Hp3|]. split; [exact Hf3|].
      pose proof (facts_from_set x p f k i sk card (pi =? fi)%nat
                    Hsame Hk Hi Hq Hfb Hfs) as Hfacts.
      cbv zeta in Hfacts. fold give in Hfacts.
      destruct (pi =? fi)%nat; exact Hfacts.
    + exists st, p, f. split; [reflexivity|]. split; [exact Hp|].
      split; [exact Hf|]. now apply stepFacts_refl.
Qed.

(** *** The whole payment loop *)

Lemma payCards_transfers pi fi ids : forall st p f,
  playerAt pi st = Some p ->
  playerAt fi st = Some f ->
  setsWellFormed p ->
  exists st' p' f',
    payCards pi fi ids st = (Ok tt, st')
    /\ playerAt pi st' = Some p'
    /\ playerAt fi st' = Some f'
    /\ loopFacts ids p f f'.
Proof.
  induction ids as [|x ids IH]; intros st p f Hp Hf Hwf; cbn [payCards].
  - exists st, p, f. split; [reflexivity|]. split; [exact Hp|].
    split; [exact Hf|]. unfold loopFacts.
    repeat split; auto using incl_refl; intros ? ? [].
  - destruct (payCard_step pi fi x st p f Hp Hf Hwf)
      as (st1 & p1 & f1 & Hrun & Hp1 & Hf1 & HA & HB & HC & HD & HE & HF).
    rewrite Hrun. cbn [andThen].
    assert (Hwf1 : setsWellFormed p1) by (intros card Hin; apply Hwf, HF, Hin).
    destruct (IH st1 p1 f1 Hp1 Hf1 Hwf1)
      as (st' & p' & f' & Hrun' & Hp' & Hf' & IA & IB & IC & ID).
    exists st', p', f'. split; [exact Hrun'|]. split; [exact Hp'|].
    split; [exact Hf'|]. unfold loopFacts.
    split; [|split; [|split]].
    + eapply incl_tran; eauto.
    + auto.
    + intros cid card Hin Hfind. destruct (string_dec cid x) as [->|Hne].
      * apply IA. now apply HC.
      * destruct Hin as [Heq|Hin]; [congruence|].
        apply (IC cid card Hin). destruct (HE cid Hne) as [Hb _].
        now rewrite find_filter, Hb, <- find_filter.
    + intros cid card Hin Hbank Hsets Hprop.
      destruct (string_dec cid x) as [->|Hne].
      * apply IB. now apply HD.
      * destruct Hin as [Heq|Hin]; [congruence|].
        destruct (HE cid Hne) as [Hb Hs].
        apply (ID cid card Hin); [| |exact Hprop].
        -- now rewrite find_filter, Hb, <- find_filter.
        -- now rewrite find_filter, Hs, <- find_filter.
Qed.

Lemma ownsIn_prune q c y : ownsIn (pruneEmptySets q) c y <-> ownsIn q c y.
Proof.
  unfold ownsIn, pruneEmptySets. cbn [properties setProperties]. split.
  - intros (s & Hs & Hrest). apply filter_In in Hs as [Hs _]. eauto.
  - intros (s & Hs & Hc & Hy). exists s. split; [|auto].
    apply filter_In. split; [exact Hs|].
    unfold nonEmptySet. destruct (set_cards s); [contradiction | reflexivity].
Qed.

Lemma executeEffect_paysOnly fi pi pa response st :
  paysOnly pa = true -> executeEffect fi pi pa response st = ok st.
Proof.
  unfold paysOnly, executeEffect.
  destruct (pa_type pa) as [[]|]; try reflexivity; discriminate.
Qed.

Lemma trackResponse_ok playerId pa st :
  nth_error (players st) (currentPlayerIndex st) <> None ->
  fst (trackResponse playerId pa st) = Ok tt.
Proof.
  intros H. unfold trackResponse.
  destruct (respondedPlayers pa); [|now apply resumeTurn_ok].
  break_match; [|reflexivity]. now apply resumeTurn_ok.
Qed.


Lemma bankOf_players i st st' :
  players st = players st' -> bankOf i st = bankOf i st'.
Proof. unfold bankOf. now intros ->. Qed.

Lemma propertiesOf_players i st st' :
  players st = players st' -> propertiesOf i st = propertiesOf i st'.
Proof. unfold propertiesOf. now intros ->. Qed.

Lemma inSetOfColor_ownsIn i c card st p :
  playerAt i st = Some p -> (inSetOfColor i c card st <-> ownsIn p c card).
Proof.
  intros Hp. unfold inSetOfColor, ownsIn.
  now rewrite (propertiesOf_playerAt _ _ _ Hp).
Qed.

(** Every card of the catalog may sit in a set of its own colour. *)
Lemma createDeck_homeColorAllowed uuid :
  forallb homeColorAllowed (createDeck uuid) = true.
Proof. reflexivity. Qed.

(** C1 fails on the code: the offered value is summed over the ids as they
    were sent, so a card named twice counts twice, although the payment loop
    can hand it over only once.  B, whose bank holds 1M and 2M and who owns
    nothing else, owes A 5 and so must pay 3.  Offering the 2M card is
    refused; offering the same card twice is accepted: A receives the 2M
    card, B keeps the 1M card, and the debt is settled. *)
Theorem C1_card_offered_twice_counts_twice :
  let st := runAll debtOnBanker freshGame in
  let once := respondToAction "B" payOnce st in
  let twice := respondToAction "B" payTwice st in
  Reachable st
  /\ option_map amount (pendingAction st) = Some (Some 5)
  /\ map totalAssets (players st) = [0; 3]
  /\ map card_id (bankOf 1 st) = ["c37"; "c43"]
  /\ map card_value (bankOf 1 st) = [1; 2]
  /\ once = (Throw "You must pay at least $3M (you selected $2M)", st)
  /\ fst twice = Ok tt
  /\ map card_id (bankOf 0 (snd twice)) = ["c43"]
  /\ sumValues (bankOf 0 (snd twice)) = 2
  /\ map card_id (bankOf 1 (snd twice)) = ["c37"]
  /\ pendingAction (snd twice) = None
  /\ (forall p cardId,
        paymentValue p [cardId; cardId] = 2 * offeredValue p cardId).
Proof.
  cbv zeta. split; [apply Reachable_from_fresh|].
  repeat (split; [vm_compute; reflexivity|]).
  intros p cardId. unfold paymentValue. cbn [fold_left]. lia.
Qed.

(* ================================================================== *)
(** ** The shuffle and the ids of a deck *)

Section Shuffle.
Context {A : Type}.

Lemma overwrite_Permutation (x y : A) j : forall l,
  nth_error l j = Some y ->
  Permutation (y :: updateAt j (fun _ => x) l) (x :: l).
Proof.
  induction j as [|j IH]; intros [|a l] H; simpl in H; try discriminate.
  - injection H as ->. simpl. apply perm_swap.
  - simpl. rewrite perm_swap. rewrite (perm_swap a x). apply perm_skip.
    now apply IH.
Qed.

Lemma swapAt_Permutation i j : forall l : list A, Permutation (swapAt i j l) l.
Proof.
  intros l. unfold swapAt.
  destruct (nth_error l i) as [x|] eqn:Hi; [|reflexivity].
  destruct (nth_error l j) as [y|] eqn:Hj; [|reflexivity].
  revert j l Hi Hj. induction i as [|i IH]; intros [|j] [|a l] Hi Hj;
    simpl in Hi, Hj; try discriminate.
  - injection Hi as ->. injection Hj as ->. reflexivity.
  - injection Hi as ->. simpl. now apply overwrite_Permutation.
  - injection Hj as ->. simpl. now apply overwrite_Permutation.
  - simpl. apply perm_skip. now apply IH.
Qed.

Lemma shuffleFrom_Permutation rnd i : forall l : list A,
  Permutation (shuffleFrom rnd i l) l.
Proof.
  induction i as [|i IH]; intros l; simpl; [reflexivity|].
  rewrite IH. apply swapAt_Permutation.
Qed.
End Shuffle.

Lemma shuffleDeck_Permutation {A} rnd (l : list A) :
  Permutation (shuffleDeck rnd l) l.
Proof. unfold shuffleDeck. apply shuffleFrom_Permutation. Qed.

(** X2: [shuffleDeck] rearranges: whatever the random draws, the shuffled
    deck holds exactly the cards of the deck given, each as often as
    before. *)
Theorem shuffleDeck_rearranges (rnd : nat -> nat) (cards : list Card) :
  Permutation (shuffleDeck rnd cards) cards.
Proof. apply shuffleDeck_Permutation. Qed.

Lemma cardUuid_inj i j : cardUuid i = cardUuid j -> i = j.
Proof.
  unfold cardUuid. intros H. simpl in H. injection H as H.
  apply Unsigned.to_uint_inj.
  apply (f_equal NilEmpty.uint_of_string) in H.
  rewrite !NilEmpty.usu in H. now injection H.
Qed.

(** X3: [createDeck] gives its cards the ids drawn, in the order drawn, one
    per card; when the 105 ids drawn are distinct, no two cards of the deck
    share an id. *)
Theorem createDeck_distinct_ids (uuid : nat -> string) :
  (forall i j, (i < 105)%nat -> (j < 105)%nat -> uuid i = uuid j -> i = j) ->
  map card_id (createDeck uuid) = map uuid (seq 0 105)
  /\ NoDup (map card_id (createDeck uuid)).
Proof.
  intros Hinj.
  assert (Hids : map card_id (createDeck uuid) = map uuid (seq 0 105))
    by reflexivity.
  split; [exact Hids|]. rewrite Hids.
  apply Finite.Injective_map_NoDup_in; [|apply seq_NoDup].
  intros x y Hx Hy. apply in_seq in Hx, Hy. apply Hinj; lia.
Qed.

Lemma createDeck_distinct_ids_witness :
  NoDup (map card_id (createDeck cardUuid)).
Proof.
  apply (createDeck_distinct_ids cardUuid).
  intros i j _ _. apply cardUuid_inj.
Defined.

(* ================================================================== *)
(** ** Rent along a growing set *)

Lemma calculateRent_split s :
  calculateRent s = baseRentAt (set_color s) (rentCount s) + improvements s.
Proof.
  unfold calculateRent, baseRentAt, improvements.
  destruct (hasHouse s), (hasHotel s); cbv zeta; lia.
Qed.

Lemma requirement_is_table_length c :
  PROPERTY_SET_REQUIREMENTS c = Z.of_nat (List.length (RENT_VALUES c)).
Proof. destruct c; reflexivity. Qed.

Lemma baseRentAt_full c n :
  Z.of_nat (List.length (RENT_VALUES c)) <= n ->
  baseRentAt c n = last (RENT_VALUES c) 0.
Proof.
  intros H. unfold baseRentAt. rewrite Z.min_r by lia.
  destruct c; reflexivity.
Qed.

Lemma small_count n : 0 <= n -> n = 0 \/ n = 1 \/ n = 2 \/ n = 3 \/ 4 <= n.
Proof. lia. Qed.

Lemma baseRentAt_grows c n :
  0 <= n -> 0 <= baseRentAt c n <= baseRentAt c (n + 1).
Proof.
  intros H.
  destruct (small_count n H) as [->|[->|[->|[->|H4]]]];
    try (destruct c; vm_compute; split; discriminate).
  rewrite !baseRentAt_full
    by (destruct c; cbn [RENT_VALUES List.length]; lia).
  destruct c; vm_compute; split; discriminate.
Qed.

Lemma propertyCount_le_rentCount s : propertyCount s <= rentCount s.
Proof.
  unfold propertyCount, rentCount. apply inj_le.
  induction (set_cards s) as [|c l IH]; simpl; [lia|].
  destruct (isProperty c), (cardIsWildcard c); simpl; lia.
Qed.

Lemma rentCount_addToSet card s :
  rentCount (addToSet card s)
  = rentCount s + (if isProperty card || cardIsWildcard card then 1 else 0).
Proof.
  unfold rentCount, addToSet, push. cbn [set_cards updatePropertySetCompletion setIsComplete setCards].
  rewrite filter_app, length_app. simpl.
  destruct (isProperty card || cardIsWildcard card); simpl; lia.
Qed.

(** X4: a set that [updatePropertySetCompletion] marks complete charges the
    last, highest entry of its colour's rent table, plus 3 with a house and 4
    with a hotel: the table has as many entries as the set needs cards. *)
Theorem calculateRent_complete_set (s : PropertySet) :
  isComplete (updatePropertySetCompletion s) = true ->
  calculateRent s
  = last (RENT_VALUES (set_color s)) 0
    + (if hasHouse s then 3 else 0) + (if hasHotel s then 4 else 0).
Proof.
  unfold updatePropertySetCompletion. cbn [isComplete setIsComplete].
  intros H. apply Z.leb_le in H.
  rewrite calculateRent_split, baseRentAt_full; [unfold improvements; lia|].
  rewrite <- requirement_is_table_length.
  pose proof (propertyCount_le_rentCount s). lia.
Qed.

Lemma calculateRent_complete_set_witness : calculateRent fullBrown = 2 + 3 + 4.
Proof. apply (calculateRent_complete_set fullBrown). reflexivity. Defined.

(** X5: the rent is never negative, and pushing one more card on a set
    ([set.cards.push(card)] with the completion update) never lowers it. *)
Theorem calculateRent_grows (card : Card) (s : PropertySet) :
  0 <= calculateRent s <= calculateRent (addToSet card s).
Proof.
  rewrite !calculateRent_split, rentCount_addToSet.
  change (set_color (addToSet card s)) with (set_color s).
  change (improvements (addToSet card s)) with (improvements s).
  assert (H0 : 0 <= rentCount s) by (unfold rentCount; lia).
  pose proof (baseRentAt_grows (set_color s) (rentCount s) H0).
  assert (0 <= improvements s)
    by (unfold improvements; destruct (hasHouse s), (hasHotel s); lia).
  destruct (isProperty card || cardIsWildcard card);
    [|rewrite Z.add_0_r]; lia.
Qed.

(* ================================================================== *)
(** ** Room codes *)

Lemma list_ascii_of_append s1 s2 :
  list_ascii_of_string (s1 ++ s2)
  = (list_ascii_of_string s1 ++ list_ascii_of_string s2)%list.
Proof. induction s1 as [|a s1 IH]; simpl; [reflexivity|]. now rewrite IH. Qed.

Lemma In_ascii c l : existsb (Ascii.eqb c) l = true <-> In c l.
Proof.
  rewrite existsb_exists. split.
  - intros (x & Hin & Heq). apply Ascii.eqb_eq in Heq. now subst.
  - intros Hin. exists c. split; [exact Hin | apply Ascii.eqb_refl].
Qed.

Lemma charAt_roomCodeChars k :
  (k < 32)%nat ->
  exists c, charAt roomCodeChars k = String c ""
            /\ In c (list_ascii_of_string roomCodeChars).
Proof.
  intros Hk.
  do 32 (destruct k as [|k];
         [eexists; split; [reflexivity|];
          apply In_ascii; vm_compute; reflexivity
         |]).
  lia.
Qed.

Lemma roomCodeFrom_chars rnd n : forall i code,
  let code' := roomCodeFrom rnd i n code in
  String.length code' = (String.length code + n)%nat
  /\ (Forall (fun c => In c (list_ascii_of_string roomCodeChars))
        (list_ascii_of_string code) ->
      Forall (fun c => In c (list_ascii_of_string roomCodeChars))
        (list_ascii_of_string code')).
Proof.
  induction n as [|n IH]; intros i code; cbn zeta; cbn [roomCodeFrom].
  - split; [lia | auto].
  - destruct (charAt_roomCodeChars (rnd i mod 32)) as (c & Hc & Hin).
    { apply Nat.mod_upper_bound. discriminate. }
    change (String.length roomCodeChars) with 32%nat. rewrite Hc.
    destruct (IH (S i) (code ++ String c "")) as [Hlen Hall].
    split.
    + rewrite Hlen.
      rewrite <- (string_of_list_ascii_of_string (code ++ String c "")).
      rewrite list_ascii_of_append.
      rewrite <- (string_of_list_ascii_of_string code) at 2.
      generalize (list_ascii_of_string code). intros l.
      induction l as [|a l IHl]; simpl in *; lia.
    + intros H. apply Hall. rewrite list_ascii_of_append.
      apply Forall_app. split; [exact H|]. simpl. auto.
Qed.

(** X6: whatever the random draws, [generateRoomCode] returns six characters,
    each one of the 32 of its alphabet, so never one of the look-alikes I, O,
    0 and 1 the alphabet leaves out. *)
Theorem generateRoomCode_alphabet (rnd : nat -> nat) :
  String.length (generateRoomCode rnd) = 6%nat
  /\ Forall (fun c => In c (list_ascii_of_string roomCodeChars))
       (list_ascii_of_string (generateRoomCode rnd))
  /\ Forall (fun c => ~ In c (list_ascii_of_string "IO01"))
       (list_ascii_of_string (generateRoomCode rnd)).
Proof.
  destruct (roomCodeFrom_chars rnd 6 0 "") as [Hlen Hall].
  specialize (Hall (Forall_nil _)).
  split; [exact Hlen|]. split; [exact Hall|].
  eapply Forall_impl; [|exact Hall].
  intros c Hin Hbad.
  apply In_ascii in Hin. simpl in Hbad.
  destruct Hbad as [<-|[<-|[<-|[<-|[]]]]]; vm_compute in Hin; discriminate.
Qed.

(* ================================================================== *)
(** ** The lobby *)

Section PopAndRemove.
Context {A : Type}.

Lemma pop_push (l : list A) x : pop (push l x) = (Some x, l).
Proof. unfold pop, push. rewrite rev_app_distr. simpl. now rewrite rev_involutive. Qed.

Lemma pop_nil : pop (@nil A) = (None, []).
Proof. reflexivity. Qed.

Lemma pop_cases (l : list A) :
  (l = [] /\ pop l = (None, []))
  \/ exists x l', l = push l' x /\ pop l = (Some x, l').
Proof.
  destruct l as [|a l]; [now left|]. right.
  destruct (@exists_last _ (a :: l)) as (l' & x & Hl); [discriminate|].
  exists x, l'. rewrite Hl. split; [reflexivity | apply pop_push].
Qed.

Lemma removeAt_push_last (l : list A) x : removeAt (List.length l) (push l x) = l.
Proof.
  unfold push. induction l as [|a l IH]; simpl; [reflexivity|]. now rewrite IH.
Qed.

Lemma findEntry_push_new (p : A -> bool) l x :
  (forall y, In y l -> p y = false) -> p x = true ->
  findEntry p (push l x) = Some (List.length l, x).
Proof.
  intros Hl Hx. unfold push. induction l as [|a l IH]; simpl.
  - now rewrite Hx.
  - rewrite (Hl a) by now left.
    rewrite IH; [reflexivity|].
    intros y Hy. apply Hl. now right.
Qed.
End PopAndRemove.

Lemma setPlayers_same st : setPlayers (players st) st = st.
Proof. now destruct st. Qed.

(** X7: a player who joins and leaves again leaves no trace: when no player
    has the new id yet and the turn index is in order, [removePlayer] after
    [addPlayer] gives back the state as it was; and [removePlayer] with an id
    nobody has changes nothing. *)
Theorem removePlayer_addPlayer (playerId name socket : string) (st : GameState) :
  (forall p, In p (players st) -> player_id p <> playerId) ->
  indexOk st ->
  removePlayer playerId (snd (addPlayer playerId name socket st)) = st
  /\ removePlayer playerId st = st.
Proof.
  intros Hnew Hidx.
  assert (Hno : forall y, In y (players st) -> hasPlayerId playerId y = false).
  { intros y Hy. unfold hasPlayerId. apply String.eqb_neq. now apply Hnew. }
  split.
  - unfold removePlayer, addPlayer. cbn [snd players setPlayers].
    rewrite (findEntry_push_new (hasPlayerId playerId) (players st)
               (mkPlayer playerId name [] [] [] true socket) Hno)
      by apply String.eqb_refl.
    rewrite removeAt_push_last. cbn [players setPlayers currentPlayerIndex].
    destruct (List.length (players st) <=? currentPlayerIndex st)%nat eqn:Hle.
    + apply Nat.leb_le in Hle.
      destruct Hidx as [Hlt|H0]; [lia|].
      destruct st; cbn in *. now subst.
    + now destruct st.
  - unfold removePlayer.
    destruct (findEntry (hasPlayerId playerId) (players st)) as [[i p]|] eqn:Hf;
      [|reflexivity].
    apply findEntry_Some in Hf. destruct Hf as [Hnth Hp].
    apply nth_error_In in Hnth. rewrite (Hno p Hnth) in Hp. discriminate.
Qed.

Lemma removePlayer_addPlayer_witness :
  removePlayer "C" (snd (addPlayer "C" "Carol" "sc" afterDeal)) = afterDeal.
Proof.
  apply (removePlayer_addPlayer "C" "Carol" "sc" afterDeal).
  - vm_compute. intros p [<-|[<-|[]]]; discriminate.
  - left. vm_compute. lia.
Defined.

(** *** The deal *)

Lemma dealTo_Permutation n : forall h d,
  (n <= List.length d)%nat ->
  Permutation (snd (dealTo n h d) ++ fst (dealTo n h d)) (d ++ h).
Proof.
  induction n as [|n IH]; intros h d Hn; simpl; [reflexivity|].
  destruct (pop_cases d) as [[-> _]|(x & d' & -> & ->)]; [simpl in Hn; lia|].
  unfold push in Hn. rewrite length_app in Hn. simpl in Hn.
  rewrite IH by lia. unfold push. rewrite <- app_assoc.
  apply Permutation_app_head. apply Permutation_app_comm.
Qed.

Lemma dealAll_deals ps : forall d,
  (5 * List.length ps <= List.length d)%nat ->
  Permutation (snd (dealAll ps d) ++ flat_map hand (fst (dealAll ps d))) d
  /\ Forall2 (fun p q => q = setBank [] (setProperties [] (setHand (hand q) p)))
       ps (fst (dealAll ps d)).
Proof.
  induction ps as [|p ps IH]; intros d Hd; cbn [dealAll].
  - simpl. rewrite app_nil_r. split; [reflexivity | constructor].
  - cbn [List.length] in Hd.
    pose proof (dealTo_lengths 5 [] d ltac:(lia)) as [_ Hlen].
    pose proof (dealTo_Permutation 5 [] d ltac:(lia)) as Hperm.
    destruct (dealTo 5 [] d) as [h d1]. cbn [fst snd] in *.
    destruct (IH d1 ltac:(lia)) as [IHperm IHall].
    destruct (dealAll ps d1) as [rest d2]. cbn [fst snd] in *.
    split.
    + cbn [flat_map hand setBank setProperties setHand].
      rewrite app_nil_r in Hperm. rewrite <- Hperm.
      rewrite <- IHperm. rewrite <- !app_assoc.
      apply Permutation_app_head. apply Permutation_app_comm.
    + constructor; [reflexivity | exact IHall].
Qed.

Lemma startGame_dealt (uuid : nat -> string) (rnd : nat -> nat)
    (st : GameState) :
  (2 <= List.length (players st) <= 5)%nat ->
  let st' := snd (startGame uuid rnd st) in
  fst (startGame uuid rnd st) = Ok tt
  /\ Forall2 (fun p q => q = setBank [] (setProperties [] (setHand (hand q) p)))
       (players st) (players st')
  /\ Forall (fun q => List.length (hand q) = 5%nat) (players st')
  /\ Permutation (deck st' ++ flat_map hand (players st')) (createDeck uuid)
  /\ discardPile st' = []
  /\ phase st' = phPlaying /\ turnPhase st' = tpDraw
  /\ currentPlayerIndex st' = 0%nat /\ actionsRemaining st' = 3.
Proof.
  intros [H2 H5]. unfold startGame.
  destruct (List.length (players st) <? 2)%nat eqn:E2;
    [apply Nat.ltb_lt in E2; lia|].
  destruct (5 <? List.length (players st))%nat eqn:E5;
    [apply Nat.ltb_lt in E5; lia|].
  cbv zeta. cbn [players deck setDeck setDiscardPile setPhase setTurnPhase
                 setCurrentPlayerIndex setActionsRemaining].
  assert (Hd : (5 * List.length (players st)
                <= List.length (shuffleDeck rnd (createDeck uuid)))%nat).
  { rewrite length_shuffleDeck, length_createDeck. lia. }
  destruct (dealAll_deals (players st) _ Hd) as [Hperm Hall].
  destruct (dealAll_lengths (players st) _ Hd) as [Hfive _].
  destruct (dealAll (players st) (shuffleDeck rnd (createDeck uuid)))
    as [ps d]. cbn [fst snd] in *.
  repeat split; try assumption.
  cbn. rewrite Hperm. apply shuffleDeck_Permutation.
Qed.

(** X8: [startGame] with two to five players returns normally and deals a
    fresh deck: every player keeps identity and seat and has five cards in
    hand, an empty bank and no property sets; the draw pile and the hands
    together are the cards of [createDeck], none lost and none twice; the
    discard pile is empty and the first player is to draw with three
    actions. *)
Theorem startGame_deals (uuid : nat -> string) (rnd : nat -> nat)
    (st : GameState) :
  (2 <= List.length (players st) <= 5)%nat ->
  let st' := snd (startGame uuid rnd st) in
  fst (startGame uuid rnd st) = Ok tt
  /\ Forall2 (fun p q => q = setBank [] (setProperties [] (setHand (hand q) p)))
       (players st) (players st')
  /\ Forall (fun q => List.length (hand q) = 5%nat) (players st')
  /\ Permutation (deck st' ++ flat_map hand (players st')) (createDeck uuid)
  /\ discardPile st' = []
  /\ phase st' = phPlaying /\ turnPhase st' = tpDraw
  /\ currentPlayerIndex st' = 0%nat /\ actionsRemaining st' = 3.
Proof. apply startGame_dealt. Qed.

Lemma startGame_deals_witness :
  Permutation
    (deck (snd (startGame cardUuid noShuffle threeInLobby))
     ++ flat_map hand (players (snd (startGame cardUuid noShuffle threeInLobby))))
    (createDeck cardUuid).
Proof.
  apply (startGame_deals cardUuid noShuffle threeInLobby).
  vm_compute. split; lia.
Defined.

(* ================================================================== *)
(** ** Drawing *)

(** What [drawLoop] does to the state: the fields it leaves alone. *)
Lemma drawLoop_draws rnd pi n : forall st p,
  nth_error (players st) pi = Some p ->
  let r := drawLoop rnd n pi st in
  nth_error (players (snd r)) pi = Some (setHand (hand p ++ fst r) p)
  /\ List.length (fst r)
     = Nat.min n (List.length (deck st) + List.length (discardPile st))
  /\ Permutation (fst r ++ deck (snd r) ++ discardPile (snd r))
       (deck st ++ discardPile st)
  /\ (forall j, j <> pi ->
        nth_error (players (snd r)) j = nth_error (players st) j).
Proof.
  induction n as [|n IH]; intros st p Hp; cbn zeta.
  - cbn [drawLoop fst snd]. rewrite app_nil_r.
    repeat split; [|reflexivity].
    rewrite Hp. now destruct p.
  - cbn [drawLoop].
    set (st1 := match deck st with
                | [] => setDiscardPile []
                          (setDeck (shuffleDeck rnd (discardPile st)) st)
                | _ => st
                end).
    assert (Hplayers : players st1 = players st)
      by (subst st1; now destruct (deck st)).
    assert (Hperm : Permutation (deck st1 ++ discardPile st1)
                      (deck st ++ discardPile st)).
    { subst st1. destruct (deck st) eqn:E; [|now rewrite E].
      cbn [deck discardPile setDeck setDiscardPile app]. rewrite app_nil_r.
      apply shuffleDeck_Permutation. }
    assert (Hlen : (List.length (deck st1) + List.length (discardPile st1)
                    = List.length (deck st) + List.length (discardPile st))%nat).
    { rewrite <- !length_app. now apply Permutation_length. }
    assert (Hempty : deck st1 = [] -> discardPile st1 = []).
    { subst st1. destruct (deck st) eqn:E; [reflexivity | now rewrite E]. }
    clearbody st1.
    destruct (pop_cases (deck st1)) as [[Hnil ->]|(card & d & Hd & ->)].
    + specialize (IH (setDeck [] st1) p).
      cbn [players deck discardPile setDeck] in IH.
      rewrite Hplayers in IH. specialize (IH Hp).
      rewrite (Hempty Hnil), Hnil in *.
      cbn [List.length Nat.add] in *. rewrite <- Hlen, <- Hperm.
      rewrite Nat.min_0_r in *. exact IH.
    + pose (st2 := modifyPlayer pi (pushHand card) (setDeck d st1)).
      assert (Hp2 : nth_error (players st2) pi = Some (pushHand card p)).
      { subst st2. cbn [players modifyPlayer setPlayers setDeck].
        apply nth_error_updateAt_eq. now rewrite Hplayers. }
      specialize (IH st2 _ Hp2). cbn zeta in IH.
      fold st2. destruct (drawLoop rnd n pi st2) as [drawn st3].
      cbn [fst snd] in *. destruct IH as (IH1 & IH2 & IH3 & IH4).
      split; [|split; [|split]].
      * rewrite IH1. unfold pushHand, push, setHand. cbn.
        now rewrite <- app_assoc.
      * cbn [List.length]. rewrite IH2. subst st2.
        cbn [deck discardPile modifyPlayer setPlayers setDeck].
        rewrite Hd in Hlen. unfold push in Hlen.
        rewrite length_app in Hlen. simpl in Hlen. lia.
      * rewrite <- Hperm, Hd. cbn [app]. unfold push.
        rewrite <- app_assoc. cbn [app].
        rewrite <- Permutation_middle. apply perm_skip.
        rewrite IH3. subst st2. reflexivity.
      * intros j Hj. rewrite (IH4 j Hj). subst st2.
        cbn [players modifyPlayer setPlayers setDeck]. rewrite Hplayers.
        apply nth_error_updateAt_ne. congruence.
Qed.

Lemma current_is_player playerId st current :
  nth_error (players st) (currentPlayerIndex st) = Some current ->
  player_id current = playerId ->
  notYourTurn playerId st = Some false.
Proof.
  intros Hc Hid. unfold notYourTurn. rewrite Hc, Hid.
  now rewrite String.eqb_refl.
Qed.

(** X9: the current player, in the draw phase, draws five cards with an empty
    hand and two otherwise, at the end of the hand in the order drawn; a draw
    pile that runs out is refilled from the shuffled discard pile, so fewer
    cards come only when both piles are exhausted.  No card is lost: the
    cards drawn and the two piles afterwards are the two piles before.
    Nobody else's cards change and the action phase begins. *)
Theorem drawCards_draws (rnd : nat -> nat) (playerId : string)
    (st : GameState) (pi : nat) (player current : Player) :
  findEntry (hasPlayerId playerId) (players st) = Some (pi, player) ->
  nth_error (players st) (currentPlayerIndex st) = Some current ->
  player_id current = playerId ->
  turnPhase st = tpDraw ->
  let cardsToDraw := match hand player with [] => 5%nat | _ => 2%nat end in
  exists drawn st',
    drawCards rnd playerId st = (Ok drawn, st')
    /\ nth_error (players st') pi = Some (setHand (hand player ++ drawn) player)
    /\ List.length drawn
       = Nat.min cardsToDraw
           (List.length (deck st) + List.length (discardPile st))
    /\ Permutation (drawn ++ deck st' ++ discardPile st')
         (deck st ++ discardPile st)
    /\ (forall j, j <> pi -> nth_error (players st') j = nth_error (players st) j)
    /\ turnPhase st' = tpAction.
Proof.
  intros Hfind Hcur Hid Hphase cardsToDraw.
  unfold drawCards, asCurrentPlayer.
  rewrite Hfind, (current_is_player playerId st current Hcur Hid), Hphase.
  cbn [tpEqb negb]. fold cardsToDraw.
  apply findEntry_Some in Hfind. destruct Hfind as [Hnth _].
  pose proof (drawLoop_draws rnd pi cardsToDraw st player Hnth) as H.
  cbn zeta in H. destruct (drawLoop rnd cardsToDraw pi st) as [drawn st1].
  cbn [fst snd] in H. destruct H as (H1 & H2 & H3 & H4).
  exists drawn, (setTurnPhase tpAction st1). repeat split; assumption.
Qed.

Lemma drawCards_draws_witness :
  exists drawn st',
    drawCards noShuffle "A" afterDeal = (Ok drawn, st')
    /\ List.length drawn = 2%nat
    /\ turnPhase st' = tpAction.
Proof.
  edestruct (drawCards_draws noShuffle "A" afterDeal)
    as (drawn & st' & H1 & _ & H3 & _ & _ & H6).
  - vm_compute. reflexivity.
  - vm_compute. reflexivity.
  - reflexivity.
  - reflexivity.
  - exists drawn, st'. split; [exact H1|]. split; [exact H3 | exact H6].
Defined.

(* ================================================================== *)
(** ** Discarding *)

Section RemoveAt.
Context {A : Type}.

Lemma removeAt_Permutation i : forall (l : list A) x,
  nth_error l i = Some x -> Permutation (x :: removeAt i l) l.
Proof.
  induction i as [|i IH]; intros [|a l] x H; simpl in H; try discriminate.
  - now injection H as ->.
  - simpl. rewrite perm_swap. apply perm_skip. now apply IH.
Qed.

Lemma length_removeAt i (l : list A) x :
  nth_error l i = Some x -> S (List.length (removeAt i l)) = List.length l.
Proof.
  intros H. apply removeAt_Permutation in H.
  apply Permutation_length in H. exact H.
Qed.
End RemoveAt.

Lemma hasId_eq cardId card : hasId cardId card = true <-> card_id card = cardId.
Proof. unfold hasId. apply String.eqb_eq. Qed.

Lemma discardLoop_discards pi cardIds : forall st st' p,
  nth_error (players st) pi = Some p ->
  discardLoop pi cardIds st = (Ok tt, st') ->
  exists kept cards,
    nth_error (players st') pi = Some (setHand kept p)
    /\ map card_id cards = cardIds
    /\ Permutation (kept ++ cards) (hand p)
    /\ discardPile st' = (discardPile st ++ cards)%list
    /\ (forall j, j <> pi -> nth_error (players st') j = nth_error (players st) j)
    /\ sameTable st st'.
Proof.
  induction cardIds as [|cardId rest IH]; intros st st' p Hp H; cbn [discardLoop] in H.
  - injection H as <-. exists (hand p), []. rewrite !app_nil_r.
    repeat split; auto. rewrite Hp. now destruct p.
  - unfold handOf in H. rewrite Hp in H.
    destruct (findEntry (hasId cardId) (hand p)) as [[index card]|] eqn:Hf;
      [|discriminate].
    apply findEntry_Some in Hf. destruct Hf as [Hnth Hid].
    apply hasId_eq in Hid.
    eapply IH in H.
    2:{ cbn [players setDiscardPile modifyPlayer setPlayers].
        apply nth_error_updateAt_eq. exact Hp. }
    destruct H as (kept & cards & H1 & H2 & H3 & H4 & H5 & H6).
    exists kept, (card :: cards).
    split; [|split; [|split; [|split; [|split]]]].
    + rewrite H1. reflexivity.
    + cbn [map]. now rewrite Hid, H2.
    + rewrite <- Permutation_middle. cbn [hand setHand] in H3.
      rewrite H3. now apply removeAt_Permutation.
    + rewrite H4. cbn [discardPile setDiscardPile]. unfold push.
      now rewrite <- app_assoc.
    + intros j Hj. rewrite (H5 j Hj).
      cbn [players setDiscardPile modifyPlayer setPlayers].
      apply nth_error_updateAt_ne. congruence.
    + destruct H6 as [[Ha Hb] [Hc Hd]]. repeat split; try assumption.
      rewrite Hd. cbn [players setDiscardPile modifyPlayer setPlayers].
      apply length_updateAt.
Qed.

Lemma discardCards_discards (playerId : string) (cardIds : list string)
    (st st' : GameState) (pi : nat) (player : Player) :
  findEntry (hasPlayerId playerId) (players st) = Some (pi, player) ->
  discardCards playerId cardIds st = (Ok tt, st') ->
  exists kept cards,
    nth_error (players st') pi = Some (setHand kept player)
    /\ List.length kept = 7%nat
    /\ map card_id cards = cardIds
    /\ Permutation (kept ++ cards) (hand player)
    /\ discardPile st' = (discardPile st ++ cards)%list
    /\ (forall j, j <> pi -> nth_error (players st') j = nth_error (players st) j)
    /\ turnPhase st = tpDiscard
    /\ turnPhase st' = tpDraw /\ actionsRemaining st' = 3
    /\ pendingAction st' = None
    /\ currentPlayerIndex st'
       = ((currentPlayerIndex st + 1) mod List.length (players st))%nat.
Proof.
  intros Hfind H. unfold discardCards, asCurrentPlayer in H. rewrite Hfind in H.
  destruct (notYourTurn playerId st) as [[|]|]; try discriminate.
  destruct (tpEqb (turnPhase st) tpDiscard) eqn:Hphase; [|discriminate].
  apply tpEqb_eq in Hphase. cbn [negb] in H.
  destruct (Z.of_nat (List.length cardIds)
            =? Z.of_nat (List.length (hand player)) - 7) eqn:Hn; [|discriminate].
  apply Z.eqb_eq in Hn. cbn [negb] in H.
  apply findEntry_Some in Hfind. destruct Hfind as [Hnth _].
  destruct (discardLoop pi cardIds st) as [[[]|msg] st1] eqn:Hloop;
    [|discriminate].
  cbn [andThen ok] in H. injection H as <-.
  destruct (discardLoop_discards pi cardIds st st1 player Hnth Hloop)
    as (kept & cards & H1 & H2 & H3 & H4 & H5 & [[Ha Hb] [Hc Hd]]).
  exists kept, cards. cbn [endTurn players discardPile turnPhase
    actionsRemaining pendingAction currentPlayerIndex setPendingAction
    setActionsRemaining setTurnPhase setCurrentPlayerIndex].
  repeat split; try assumption; try reflexivity.
  - apply Permutation_length in H3. rewrite length_app in H3.
    rewrite <- H2, length_map in Hn. lia.
  - now rewrite Hc, Hd.
Qed.

(** X10: a [discardCards] call that returns normally was made in the discard
    phase and leaves the player with exactly seven cards in hand: the cards
    named went from the hand to the end of the discard pile, in the order
    named; then the turn passed to the next player, who is to draw with three
    actions and nothing pending. *)
Theorem discardCards_leaves_seven (playerId : string) (cardIds : list string)
    (st st' : GameState) (pi : nat) (player : Player) :
  findEntry (hasPlayerId playerId) (players st) = Some (pi, player) ->
  discardCards playerId cardIds st = (Ok tt, st') ->
  exists kept cards,
    nth_error (players st') pi = Some (setHand kept player)
    /\ List.length kept = 7%nat
    /\ map card_id cards = cardIds
    /\ Permutation (kept ++ cards) (hand player)
    /\ discardPile st' = (discardPile st ++ cards)%list
    /\ (forall j, j <> pi -> nth_error (players st') j = nth_error (players st) j)
    /\ turnPhase st = tpDiscard
    /\ turnPhase st' = tpDraw /\ actionsRemaining st' = 3
    /\ pendingAction st' = None
    /\ currentPlayerIndex st'
       = ((currentPlayerIndex st + 1) mod List.length (players st))%nat.
Proof. apply discardCards_discards. Qed.

Lemma discardCards_leaves_seven_witness :
  let st := runAll mustDiscard freshGame in
  let st' := snd (discardCards "A" ["c104"; "c103"] st) in
  List.length (handOf 0 st) = 9%nat
  /\ List.length (handOf 0 st') = 7%nat
  /\ map card_id (discardPile st') = ["c104"; "c103"].
Proof.
  cbv zeta.
  edestruct (discardCards_leaves_seven "A" ["c104"; "c103"]
               (runAll mustDiscard freshGame))
    as (kept & cards & H1 & H2 & H3 & _ & H5 & _).
  - vm_compute. reflexivity.
  - apply surjective_pairing.
  - split; [vm_compute; reflexivity|]. split.
    + unfold handOf. rewrite H1. exact H2.
    + rewrite H5, map_app, H3. vm_compute. reflexivity.
Defined.

(* ================================================================== *)
(** ** Calls that are refused *)

Ltac break_in H :=
  match type of H with
  | context [match ?x with _ => _ end] => destruct x eqn:?
  end.

(** Split a call that threw on everything it branched on; in each branch the
    state thrown with is the state given. *)
Ltac thrown_unchanged H :=
  repeat first
    [ discriminate H
    | injection H as _ <-; reflexivity
    | break_in H ].

(** X11: [startGame], [drawCards], [endTurnEarly] and [rearrangeProperty]
    make all their checks before they assign anything: when one of them
    throws, the state is exactly as it was.  ([addPlayer] and [removePlayer]
    never throw.) *)
Theorem refused_call_changes_nothing (op : Op) (st st' : GameState)
    (msg : string) :
  checksFirst op = true ->
  run op st = (Throw msg, st') ->
  st' = st.
Proof.
  intros Hop H. destruct op; try discriminate Hop; cbn [run] in H.
  - discriminate.
  - discriminate.
  - unfold startGame, throw, ok in H. thrown_unchanged H.
  - unfold void in H.
    destruct (drawCards rnd playerId st) as [[drawn|m] s] eqn:E;
      [discriminate|].
    injection H as _ <-.
    unfold drawCards, asCurrentPlayer, throw in E. thrown_unchanged E.
  - unfold endTurnEarly, asCurrentPlayer, throw, ok in H. thrown_unchanged H.
  - unfold rearrangeProperty, asCurrentPlayer, throw, ok in H.
    thrown_unchanged H.
Qed.

Lemma refused_call_changes_nothing_witness :
  snd (run (OpDrawCards noShuffle "B") afterDeal) = afterDeal.
Proof.
  apply (refused_call_changes_nothing (OpDrawCards noShuffle "B") afterDeal _
           "Not your turn").
  - reflexivity.
  - vm_compute. reflexivity.
Defined.

(* ================================================================== *)
(** ** Playing a card *)

(** What the tail of [playCard] (count the action, look for a winner, set
    the phase) does to the fields other than phase and winner. *)
Lemma played_fields pi n st :
  let st' := afterPlay pi (checkWinner (setActionsRemaining n st)) in
  players st' = players st /\ deck st' = deck st
  /\ discardPile st' = discardPile st
  /\ pendingAction st' = pendingAction st
  /\ actionsRemaining st' = n
  /\ currentPlayerIndex st' = currentPlayerIndex st
  /\ turnPhase st' = phaseAfterPlay pi (setActionsRemaining n st).
Proof.
  cbv zeta. unfold afterPlay, checkWinner, phaseAfterPlay, handOf.
  cbn [players setActionsRemaining actionsRemaining pendingAction turnPhase].
  destruct (find isWinner (players st));
    cbn [players setPhase setWinner setActionsRemaining actionsRemaining
         pendingAction turnPhase];
    destruct (n <=? 0); destruct (pendingAction st) eqn:Hpa; cbn [andb];
    try destruct (7 <? _)%nat; repeat split; exact Hpa.
Qed.

(** [playCard] once its checks have passed: the card leaves the hand, the
    play proper runs, and the tail follows if the play returned. *)
Lemma playCard_checked rnd playerId cardId target st pi player current
    cardIndex card :
  findEntry (hasPlayerId playerId) (players st) = Some (pi, player) ->
  nth_error (players st) (currentPlayerIndex st) = Some current ->
  player_id current = playerId ->
  turnPhase st = tpAction ->
  0 < actionsRemaining st ->
  findEntry (hasId cardId) (hand player) = Some (cardIndex, card) ->
  playCard rnd playerId cardId target st
  = let st1 := modifyPlayer pi (takeFromHand cardIndex) st in
    (if targetAsBank target || isMoney card
     then ok (modifyPlayer pi (pushBank card) st1)
     else match face card with
          | Property c w wcs =>
              playPropertyCard pi card c w wcs (tget propertySetColor target) st1
          | Action a => playActionCard rnd pi playerId card a target st1
          | Rent colors w => playRentCard pi playerId card colors w target st1
          | Money => ok st1
          end)
    >> (fun st2 =>
          ok (afterPlay pi
                (checkWinner (setActionsRemaining (actionsRemaining st2 - 1) st2)))).
Proof.
  intros Hfind Hcur Hid Hphase Hact Hcard.
  unfold playCard, asCurrentPlayer.
  rewrite Hfind, (current_is_player playerId st current Hcur Hid), Hphase, Hcard.
  cbn [tpEqb negb].
  destruct (actionsRemaining st <=? 0) eqn:E; [apply Z.leb_le in E; lia|].
  reflexivity.
Qed.

Lemma players_takeFromHand pi cardIndex st p :
  nth_error (players st) pi = Some p ->
  nth_error (players (modifyPlayer pi (takeFromHand cardIndex) st)) pi
  = Some (takeFromHand cardIndex p).
Proof. intros H. cbn. now apply nth_error_updateAt_eq. Qed.

(** X12: any card in hand can be banked: played with [asBank], or being a
    money card, it moves from the hand to the end of the player's bank at the
    cost of one action; piles, pending action and the other players are left
    alone, and the phase changes only when that was the last action. *)
Theorem playCard_banks (rnd : nat -> nat) (playerId cardId : string)
    (target : option PlayCardTarget) (st : GameState) (pi : nat)
    (player current : Player) (cardIndex : nat) (card : Card) :
  findEntry (hasPlayerId playerId) (players st) = Some (pi, player) ->
  nth_error (players st) (currentPlayerIndex st) = Some current ->
  player_id current = playerId ->
  turnPhase st = tpAction ->
  0 < actionsRemaining st ->
  findEntry (hasId cardId) (hand player) = Some (cardIndex, card) ->
  targetAsBank target || isMoney card = true ->
  exists st',
    playCard rnd playerId cardId target st = (Ok tt, st')
    /\ nth_error (players st') pi
       = Some (pushBank card (takeFromHand cardIndex player))
    /\ (forall j, j <> pi -> nth_error (players st') j = nth_error (players st) j)
    /\ actionsRemaining st' = actionsRemaining st - 1
    /\ deck st' = deck st /\ discardPile st' = discardPile st
    /\ pendingAction st' = pendingAction st
    /\ turnPhase st'
       = if (actionsRemaining st =? 1)
            && match pendingAction st with None => true | Some _ => false end
         then if (8 <? List.length (hand player))%nat then tpDiscard
              else tpFinishing
         else tpAction.
Proof.
  intros Hfind Hcur Hid Hphase Hact Hcard Hbank.
  rewrite (playCard_checked rnd playerId cardId target st pi player current
             cardIndex card) by assumption.
  cbv zeta. rewrite Hbank. cbn [andThen ok].
  eexists. split; [reflexivity|].
  match goal with
  | |- context [afterPlay pi (checkWinner (setActionsRemaining ?n ?s))] =>
      destruct (played_fields pi n s) as (H1 & H2 & H3 & H4 & H5 & H6 & H7)
  end.
  apply findEntry_Some in Hfind, Hcard.
  destruct Hfind as [Hp _], Hcard as [Hc _].
  rewrite H1, H2, H3, H4, H5, H7.
  split; [|split; [|split; [|split; [|split; [|split]]]]]; try reflexivity.
  - cbn [players modifyPlayer setPlayers].
    apply nth_error_updateAt_eq. now apply nth_error_updateAt_eq.
  - intros j Hj. cbn [players modifyPlayer setPlayers].
    rewrite !nth_error_updateAt_ne by congruence. reflexivity.
  - unfold phaseAfterPlay, handOf.
    cbn [players modifyPlayer setPlayers setActionsRemaining actionsRemaining
         pendingAction turnPhase].
    rewrite (nth_error_updateAt_eq pi _ _ (takeFromHand cardIndex player))
      by now apply nth_error_updateAt_eq.
    cbn [hand pushBank setBank takeFromHand setHand].
    pose proof (length_removeAt cardIndex (hand player) card Hc) as Hlen.
    destruct (actionsRemaining st =? 1) eqn:E1;
      [apply Z.eqb_eq in E1 | apply Z.eqb_neq in E1].
    + destruct (actionsRemaining st - 1 <=? 0) eqn:E0;
        [|apply Z.leb_gt in E0; lia].
      destruct (pendingAction st); cbn [andb]; [exact Hphase|].
      destruct (7 <? List.length (removeAt cardIndex (hand player)))%nat eqn:E7;
        destruct (8 <? List.length (hand player))%nat eqn:E8; try reflexivity;
        [apply Nat.ltb_lt in E7; apply Nat.ltb_ge in E8
        |apply Nat.ltb_ge in E7; apply Nat.ltb_lt in E8]; lia.
    + destruct (actionsRemaining st - 1 <=? 0) eqn:E0;
        [apply Z.leb_le in E0; lia|].
      exact Hphase.
Qed.

Lemma playCard_banks_witness :
  exists st',
    playCard noShuffle "A" "c104" toBank afterDraw = (Ok tt, st')
    /\ map card_id (bankOf 0 st') = ["c104"]
    /\ isRent (createRentCard allColors 3 true "c104") = true
    /\ actionsRemaining st' = 2.
Proof.
  edestruct (playCard_banks noShuffle "A" "c104" toBank afterDraw)
    as (st' & H1 & H2 & _ & H4 & _).
  - vm_compute. reflexivity.
  - vm_compute. reflexivity.
  - reflexivity.
  - reflexivity.
  - vm_compute. reflexivity.
  - vm_compute. reflexivity.
  - reflexivity.
  - exists st'. split; [exact H1|]. split; [|split; [reflexivity|]].
    + unfold bankOf. rewrite H2. reflexivity.
    + rewrite H4. reflexivity.
Defined.

(** *** Laying down a property *)





(** *** House and hotel *)

Lemma rentCount_push_other card s f :
  isAction card = true ->
  set_color (f s) = set_color s ->
  set_cards (f s) = push (set_cards s) card ->
  baseRentAt (set_color (f s)) (rentCount (f s))
  = baseRentAt (set_color s) (rentCount s).
Proof.
  intros Hcard Hcol Hcards. rewrite Hcol. f_equal.
  unfold rentCount. rewrite Hcards. unfold push.
  rewrite filter_app, length_app. cbn [filter].
  unfold isAction in Hcard. unfold isProperty, cardIsWildcard.
  destruct (face card); try discriminate. cbn. lia.
Qed.

Lemma propertiesOf_modifySet pi k f st p s :
  nth_error (players st) pi = Some p ->
  nth_error (properties p) k = Some s ->
  nth_error (propertiesOf pi (modifyPlayer pi (modifySet k f) st)) k
  = Some (f s).
Proof.
  intros Hp Hs. unfold propertiesOf. cbn [players modifyPlayer setPlayers].
  rewrite (nth_error_updateAt_eq pi _ _ p Hp).
  cbn [properties modifySet setProperties]. now apply nth_error_updateAt_eq.
Qed.

Lemma propertiesOf_found pi st c k s :
  findEntry (hasColor c) (propertiesOf pi st) = Some (k, s) ->
  exists p, nth_error (players st) pi = Some p
            /\ findEntry (hasColor c) (properties p) = Some (k, s).
Proof.
  unfold propertiesOf. destruct (nth_error (players st) pi) as [p|];
    [eauto | discriminate].
Qed.

(** X14: a House is accepted only on a set of the player's own that is
    marked complete and has no house yet; the card is pushed on that set and
    the set's rent goes up by exactly 3. *)
Theorem addHouse_raises_rent (pi : nat) (card : Card)
    (target : option PlayCardTarget) (st st' : GameState) :
  isAction card = true ->
  addHouse pi card target st = (Ok tt, st') ->
  exists c k s s',
    tget propertySetColor target = Some c
    /\ findEntry (hasColor c) (propertiesOf pi st) = Some (k, s)
    /\ isComplete s = true /\ hasHouse s = false
    /\ nth_error (propertiesOf pi st') k = Some s'
    /\ hasHouse s' = true /\ hasHotel s' = hasHotel s
    /\ set_cards s' = push (set_cards s) card
    /\ calculateRent s' = calculateRent s + 3.
Proof.
  intros Hcard H. unfold addHouse in H.
  destruct (tget propertySetColor target) as [c|]; [|discriminate].
  destruct (findEntry (hasColor c) (propertiesOf pi st)) as [[k s]|] eqn:Hf;
    [|discriminate].
  destruct (isComplete s) eqn:Hc; [|discriminate].
  destruct (hasHouse s) eqn:Hh; [discriminate|].
  cbn [negb] in H. injection H as <-.
  destruct (propertiesOf_found pi st c k s Hf) as (p & Hp & Hfp).
  apply findEntry_Some in Hfp. destruct Hfp as [Hk _].
  exists c, k, s, (setCards (push (set_cards s) card) (setHasHouse true s)).
  split; [reflexivity|]. split; [exact Hf|]. split; [exact Hc|].
  split; [exact Hh|].
  split; [exact (propertiesOf_modifySet pi k
                   (fun s => setCards (push (set_cards s) card)
                               (setHasHouse true s)) st p s Hp Hk)|].
  repeat (split; [reflexivity|]).
  rewrite !calculateRent_split.
    rewrite (rentCount_push_other card s
               (fun s => setCards (push (set_cards s) card) (setHasHouse true s))
               Hcard eq_refl eq_refl).
    unfold improvements. cbn [hasHouse hasHotel setCards setHasHouse].
    rewrite Hh. lia.
Qed.

(** X15: a Hotel is accepted only on a set of the player's own that is
    marked complete and has a house but no hotel; the card is pushed on that
    set and the set's rent goes up by exactly 4. *)
Theorem addHotel_raises_rent (pi : nat) (card : Card)
    (target : option PlayCardTarget) (st st' : GameState) :
  isAction card = true ->
  addHotel pi card target st = (Ok tt, st') ->
  exists c k s s',
    tget propertySetColor target = Some c
    /\ findEntry (hasColor c) (propertiesOf pi st) = Some (k, s)
    /\ isComplete s = true /\ hasHouse s = true /\ hasHotel s = false
    /\ nth_error (propertiesOf pi st') k = Some s'
    /\ hasHouse s' = true /\ hasHotel s' = true
    /\ set_cards s' = push (set_cards s) card
    /\ calculateRent s' = calculateRent s + 4.
Proof.
  intros Hcard H. unfold addHotel in H.
  destruct (tget propertySetColor target) as [c|]; [|discriminate].
  destruct (findEntry (hasColor c) (propertiesOf pi st)) as [[k s]|] eqn:Hf;
    [|discriminate].
  destruct (isComplete s) eqn:Hc; [|discriminate].
  destruct (hasHouse s) eqn:Hh; [|discriminate].
  destruct (hasHotel s) eqn:Ht; [discriminate|].
  cbn [negb] in H. injection H as <-.
  destruct (propertiesOf_found pi st c k s Hf) as (p & Hp & Hfp).
  apply findEntry_Some in Hfp. destruct Hfp as [Hk _].
  exists c, k, s, (setCards (push (set_cards s) card) (setHasHotel true s)).
  split; [reflexivity|]. split; [exact Hf|]. split; [exact Hc|].
  split; [exact Hh|]. split; [exact Ht|].
  split; [exact (propertiesOf_modifySet pi k
                   (fun s => setCards (push (set_cards s) card)
                               (setHasHotel true s)) st p s Hp Hk)|].
  split; [exact Hh|].
  repeat (split; [reflexivity|]).
  rewrite !calculateRent_split.
    rewrite (rentCount_push_other card s
               (fun s => setCards (push (set_cards s) card) (setHasHotel true s))
               Hcard eq_refl eq_refl).
    unfold improvements. cbn [hasHouse hasHotel setCards setHasHotel].
    rewrite Hh, Ht. lia.
Qed.

Lemma addHouse_raises_rent_witness :
  let st' := snd (addHouse 0 houseCard (onColor brown) debtPending) in
  exists s s',
    nth_error (propertiesOf 0 debtPending) 0 = Some s
    /\ nth_error (propertiesOf 0 st') 0 = Some s'
    /\ calculateRent s = 2 /\ calculateRent s' = 5.
Proof.
  cbv zeta.
  edestruct (addHouse_raises_rent 0 houseCard (onColor brown) debtPending)
    as (c & k & s & s' & H1 & H2 & _ & _ & H5 & _ & _ & _ & H9).
  - reflexivity.
  - vm_compute. reflexivity.
  - assert (Hs : nth_error (propertiesOf 0 debtPending) 0 = Some s /\ k = 0%nat
                 /\ calculateRent s = 2).
    { cbn in H1. injection H1 as <-.
      vm_compute in H2. injection H2 as <- <-. vm_compute. repeat split. }
    destruct Hs as (Hs & -> & Hr).
    exists s, s'. rewrite H9, Hr. repeat split; assumption.
Defined.

Lemma addHotel_raises_rent_witness :
  let st := snd (addHouse 0 houseCard (onColor brown) debtPending) in
  let st' := snd (addHotel 0 hotelCard (onColor brown) st) in
  exists s', nth_error (propertiesOf 0 st') 0 = Some s' /\ calculateRent s' = 9.
Proof.
  cbv zeta.
  edestruct (addHotel_raises_rent 0 hotelCard (onColor brown)
               (snd (addHouse 0 houseCard (onColor brown) debtPending)))
    as (c & k & s & s' & H1 & H2 & _ & _ & _ & H5 & _ & _ & _ & H9).
  - reflexivity.
  - vm_compute. reflexivity.
  - assert (Hs : k = 0%nat /\ calculateRent s = 5).
    { cbn in H1. injection H1 as <-.
      vm_compute in H2. injection H2 as <- <-. vm_compute. repeat split. }
    destruct Hs as (-> & Hr).
    exists s'. rewrite H9, Hr. split; [exact H5 | reflexivity].
Defined.

(** *** Charging rent *)

Lemma handOf_takeFromHand pi cardIndex st p :
  nth_error (players st) pi = Some p ->
  handOf pi (modifyPlayer pi (takeFromHand cardIndex) st)
  = removeAt cardIndex (hand p).
Proof.
  intros Hp. unfold handOf. now rewrite (players_takeFromHand pi cardIndex st p Hp).
Qed.

Lemma propertiesOf_takeFromHand pi cardIndex st p :
  nth_error (players st) pi = Some p ->
  propertiesOf pi (modifyPlayer pi (takeFromHand cardIndex) st) = properties p.
Proof.
  intros Hp. unfold propertiesOf.
  now rewrite (players_takeFromHand pi cardIndex st p Hp).
Qed.

(** X16: a two-colour rent card played by the current player charges every
    other player the rent of the matching set: the pending action carries
    that amount, names no single target and starts with nobody having
    answered.  Asked to double, and with a Double The Rent card left in hand,
    the amount is twice the rent, that card is discarded under the rent card
    and the play costs two actions instead of one; asked to double without
    such a card, the rent is charged once and one action is spent. *)
Theorem playCard_charges_rent (rnd : nat -> nat) (playerId cardId : string)
    (target : option PlayCardTarget) (st : GameState) (pi : nat)
    (player current : Player) (cardIndex : nat) (card : Card)
    (colors : list PropertyColor) (s : PropertySet) :
  findEntry (hasPlayerId playerId) (players st) = Some (pi, player) ->
  nth_error (players st) (currentPlayerIndex st) = Some current ->
  player_id current = playerId ->
  turnPhase st = tpAction ->
  0 < actionsRemaining st ->
  findEntry (hasId cardId) (hand player) = Some (cardIndex, card) ->
  targetAsBank target = false ->
  face card = Rent colors false ->
  matchingSet colors target (properties player) = Some s ->
  let doubled := rentDoubled target (removeAt cardIndex (hand player)) in
  exists st' pa extra,
    playCard rnd playerId cardId target st = (Ok tt, st')
    /\ pendingAction st' = Some pa
    /\ pa_type pa = PRent /\ fromPlayerId pa = playerId
    /\ toPlayerId pa = None /\ respondedPlayers pa = Some []
    /\ amount pa
       = Some (if doubled then calculateRent s * 2 else calculateRent s)
    /\ turnPhase st' = tpResponding
    /\ actionsRemaining st'
       = actionsRemaining st - (if doubled then 2 else 1)
    /\ discardPile st' = (discardPile st ++ extra ++ [card])%list
    /\ Forall (fun c => isActionOf doubleRent c = true) extra
    /\ List.length extra = (if doubled then 1%nat else 0%nat)
    /\ (List.length (handOf pi st') + List.length extra + 1
        = List.length (hand player))%nat.
Proof.
  intros Hfind Hcur Hid Hphase Hact Hcard Hbank Hface Hset doubled.
  rewrite (playCard_checked rnd playerId cardId target st pi player current
             cardIndex card) by assumption.
  cbv zeta. rewrite Hbank, Hface.
  assert (Hmoney : isMoney card = false) by (unfold isMoney; now rewrite Hface).
  rewrite Hmoney. cbn [orb].
  apply findEntry_Some in Hfind, Hcard.
  destruct Hfind as [Hp _], Hcard as [Hc _].
  pose proof (length_removeAt cardIndex (hand player) card Hc) as Hlen.
  unfold playRentCard.
  rewrite (propertiesOf_takeFromHand pi cardIndex st player Hp).
  unfold matchingSet in Hset. rewrite Hset.
  rewrite (handOf_takeFromHand pi cardIndex st player Hp).
  subst doubled. unfold rentDoubled.
  rewrite (find_findEntry (isActionOf doubleRent)).
  assert (Htail : forall st2 pa0 extra (doubled : bool),
            pendingAction st2 = Some pa0 ->
            pa_type pa0 = PRent -> fromPlayerId pa0 = playerId ->
            toPlayerId pa0 = None -> respondedPlayers pa0 = Some [] ->
            amount pa0
            = Some (if doubled then calculateRent s * 2 else calculateRent s) ->
            turnPhase st2 = tpResponding ->
            actionsRemaining st2
            = actionsRemaining st - (if doubled then 1 else 0) ->
            discardPile st2 = (discardPile st ++ extra ++ [card])%list ->
            Forall (fun c => isActionOf doubleRent c = true) extra ->
            List.length extra = (if doubled then 1%nat else 0%nat) ->
            (List.length (handOf pi st2) + List.length extra + 1
             = List.length (hand player))%nat ->
            exists st' pa extra,
              (ok st2
               >> (fun st3 =>
                     ok (afterPlay pi
                           (checkWinner
                              (setActionsRemaining (actionsRemaining st3 - 1) st3)))))
              = (Ok tt, st')
              /\ pendingAction st' = Some pa
              /\ pa_type pa = PRent /\ fromPlayerId pa = playerId
              /\ toPlayerId pa = None /\ respondedPlayers pa = Some []
              /\ amount pa
                 = Some (if doubled then calculateRent s * 2 else calculateRent s)
              /\ turnPhase st' = tpResponding
              /\ actionsRemaining st'
                 = actionsRemaining st - (if doubled then 2 else 1)
              /\ discardPile st' = (discardPile st ++ extra ++ [card])%list
              /\ Forall (fun c => isActionOf doubleRent c = true) extra
              /\ List.length extra = (if doubled then 1%nat else 0%nat)
              /\ (List.length (handOf pi st') + List.length extra + 1
                  = List.length (hand player))%nat).
  { intros st2 pa0 extra doubled T1 T2 T3 T4 T5 T6 T7 T8 T9 T10 T11 T12.
    cbn [andThen ok].
    destruct (played_fields pi (actionsRemaining st2 - 1) st2)
      as (H1 & H2 & H3 & H4 & H5 & H6 & H7).
    eexists _, pa0, extra. split; [reflexivity|].
    split; [now rewrite H4|]. do 5 (split; [assumption|]).
    split.
    { rewrite H7. unfold phaseAfterPlay.
      cbn [pendingAction setActionsRemaining turnPhase]. rewrite T1.
      now rewrite andb_false_r. }
    split; [rewrite H5, T8; destruct doubled; lia|].
    split; [now rewrite H3|]. do 2 (split; [assumption|]).
    unfold handOf in *. now rewrite H1. }
  destruct (targetDoubleRent target) eqn:Hd; cbn [andb].
  - destruct (findEntry (isActionOf doubleRent) (removeAt cardIndex (hand player)))
      as [[di dc]|] eqn:Hdr; cbn [option_map].
    + apply findEntry_Some in Hdr. destruct Hdr as [Hdn Hda].
      pose proof (length_removeAt di _ dc Hdn) as Hlen2.
      cbv beta iota zeta. eapply (Htail _ _ [dc] true); try reflexivity.
      * cbn. unfold push. now rewrite <- app_assoc.
      * now constructor.
      * unfold handOf. cbn [players modifyPlayer setPlayers setDiscardPile
          setActionsRemaining setTurnPhase setPendingAction].
        rewrite (nth_error_updateAt_eq pi _ _ (takeFromHand cardIndex player))
          by now apply nth_error_updateAt_eq.
        cbn [hand setHand takeFromHand List.length]. lia.
    + cbv beta iota zeta. eapply (Htail _ _ [] false); try reflexivity.
      * cbn. lia.
      * constructor.
      * rewrite <- (handOf_takeFromHand pi cardIndex st player Hp) in Hlen.
        cbn [List.length]. unfold handOf in *. cbn in *. lia.
  - cbv beta iota zeta. eapply (Htail _ _ [] false); try reflexivity.
    * cbn. lia.
    * constructor.
    * rewrite <- (handOf_takeFromHand pi cardIndex st player Hp) in Hlen.
      cbn [List.length]. unfold handOf in *. cbn in *. lia.
Qed.

Lemma playCard_charges_rent_witness :
  exists st' pa,
    playCard noShuffle "A" "c93" doubling rentReady = (Ok tt, st')
    /\ pendingAction st' = Some pa
    /\ amount pa = Some 2
    /\ actionsRemaining rentReady = 2 /\ actionsRemaining st' = 0.
Proof.
  edestruct (playCard_charges_rent noShuffle "A" "c93" doubling rentReady)
    as (st' & pa & extra & H1 & H2 & _ & _ & _ & _ & H7 & _ & H9 & _).
  - vm_compute. reflexivity.
  - vm_compute. reflexivity.
  - reflexivity.
  - reflexivity.
  - vm_compute. reflexivity.
  - vm_compute. reflexivity.
  - reflexivity.
  - reflexivity.
  - vm_compute. reflexivity.
  - exists st', pa. split; [exact H1|]. split; [exact H2|].
    split; [rewrite H7; vm_compute; reflexivity|].
    split; [vm_compute; reflexivity|].
    rewrite H9. vm_compute. reflexivity.
Defined.

(** *** Pass Go *)

Lemma drawLoop_budget rnd pi n : forall st,
  actionsRemaining (snd (drawLoop rnd n pi st)) = actionsRemaining st
  /\ pendingAction (snd (drawLoop rnd n pi st)) = pendingAction st.
Proof.
  induction n as [|n IH]; intros st; cbn [drawLoop]; [now split|].
  set (st1 := match deck st with
              | [] => setDiscardPile []
                        (setDeck (shuffleDeck rnd (discardPile st)) st)
              | _ => st
              end).
  assert (H1 : actionsRemaining st1 = actionsRemaining st
               /\ pendingAction st1 = pendingAction st)
    by (subst st1; now destruct (deck st)).
  clearbody st1. destruct (pop (deck st1)) as [[card|] d].
  - specialize (IH (modifyPlayer pi (pushHand card) (setDeck d st1))).
    destruct (drawLoop rnd n pi _) as [drawn st2]. exact (conj
      (eq_trans (proj1 IH) (proj1 H1)) (eq_trans (proj2 IH) (proj2 H1))).
  - specialize (IH (setDeck d st1)). exact (conj
      (eq_trans (proj1 IH) (proj1 H1)) (eq_trans (proj2 IH) (proj2 H1))).
Qed.

(** X17: Pass Go played by the current player draws two cards to the end of
    the hand the card has left, refilling the draw pile from the shuffled
    discard pile when it is empty and drawing fewer only when both piles are
    exhausted; the Pass Go card itself is put on top of the discard pile
    after the draw, so it is never among the cards drawn.  One action is
    spent and nothing becomes pending. *)
Theorem playCard_passGo (rnd : nat -> nat) (playerId cardId : string)
    (target : option PlayCardTarget) (st : GameState) (pi : nat)
    (player current : Player) (cardIndex : nat) (card : Card) :
  findEntry (hasPlayerId playerId) (players st) = Some (pi, player) ->
  nth_error (players st) (currentPlayerIndex st) = Some current ->
  player_id current = playerId ->
  turnPhase st = tpAction ->
  0 < actionsRemaining st ->
  findEntry (hasId cardId) (hand player) = Some (cardIndex, card) ->
  targetAsBank target = false ->
  face card = Action passGo ->
  exists drawn pile st',
    playCard rnd playerId cardId target st = (Ok tt, st')
    /\ nth_error (players st') pi
       = Some (setHand (removeAt cardIndex (hand player) ++ drawn) player)
    /\ List.length drawn
       = Nat.min 2 (List.length (deck st) + List.length (discardPile st))
    /\ discardPile st' = push pile card
    /\ Permutation (drawn ++ deck st' ++ pile) (deck st ++ discardPile st)
    /\ (forall j, j <> pi -> nth_error (players st') j = nth_error (players st) j)
    /\ actionsRemaining st' = actionsRemaining st - 1
    /\ pendingAction st' = pendingAction st.
Proof.
  intros Hfind Hcur Hid Hphase Hact Hcard Hbank Hface.
  rewrite (playCard_checked rnd playerId cardId target st pi player current
             cardIndex card) by assumption.
  cbv zeta. rewrite Hbank, Hface.
  assert (Hmoney : isMoney card = false) by (unfold isMoney; now rewrite Hface).
  rewrite Hmoney. cbn [orb playActionCard].
  apply findEntry_Some in Hfind. destruct Hfind as [Hp _].
  pose proof (drawLoop_draws rnd pi 2 _ _
                (players_takeFromHand pi cardIndex st player Hp)) as H.
  pose proof (drawLoop_budget rnd pi 2
                (modifyPlayer pi (takeFromHand cardIndex) st)) as Hb.
  cbv zeta in H.
  destruct (drawLoop rnd 2 pi (modifyPlayer pi (takeFromHand cardIndex) st))
    as [drawn st2].
  cbn [fst snd] in *. destruct H as (D1 & D2 & D3 & D4), Hb as [B1 B2].
  cbn [andThen ok].
  match goal with
  | |- context [afterPlay pi (checkWinner (setActionsRemaining ?n ?s0))] =>
      destruct (played_fields pi n s0) as (H1 & H2 & H3 & H4 & H5 & H6 & H7)
  end.
  exists drawn, (discardPile st2). eexists. split; [reflexivity|].
  rewrite H1, H2, H3, H4, H5.
  cbn [players deck discardPile pendingAction actionsRemaining setDiscardPile].
  split; [exact D1|]. split; [exact D2|]. split; [reflexivity|].
  split; [exact D3|].
  split.
  { intros j Hj. rewrite (D4 j Hj). cbn.
    apply nth_error_updateAt_ne. congruence. }
  split; [now rewrite B1 | exact B2].
Qed.

Lemma playCard_passGo_witness :
  exists (drawn : list Card) st',
    playCard noShuffle "A" "c75" None holdingPassGo = (Ok tt, st')
    /\ List.length drawn = 2%nat
    /\ List.length (handOf 0 holdingPassGo) = 7%nat
    /\ List.length (handOf 0 st') = 8%nat
    /\ map card_id (discardPile st') = ["c75"].
Proof.
  edestruct (playCard_passGo noShuffle "A" "c75" None holdingPassGo)
    as (drawn & pile & st' & H1 & H2 & H3 & H4 & _).
  - vm_compute. reflexivity.
  - vm_compute. reflexivity.
  - reflexivity.
  - reflexivity.
  - vm_compute. reflexivity.
  - vm_compute. reflexivity.
  - reflexivity.
  - reflexivity.
  - exists drawn, st'. split; [exact H1|]. split; [exact H3|].
    split; [vm_compute; reflexivity|].
    vm_compute in H1. injection H1 as <-. vm_compute. split; reflexivity.
Defined.

(* ================================================================== *)
(** ** Turn order *)

Lemma endTurn_iter st k :
  (currentPlayerIndex st < List.length (players st))%nat ->
  List.length (players (Nat.iter k endTurn st)) = List.length (players st)
  /\ currentPlayerIndex (Nat.iter k endTurn st)
     = ((currentPlayerIndex st + k) mod List.length (players st))%nat.
Proof.
  intros Hi. induction k as [|k [IHlen IHidx]].
  - split; [reflexivity|]. cbn [Nat.iter]. rewrite Nat.add_0_r.
    symmetry. now apply Nat.mod_small.
  - change (Nat.iter (S k) endTurn st) with (endTurn (Nat.iter k endTurn st)).
    split; [exact IHlen|].
    unfold endTurn at 1. cbn [currentPlayerIndex setPendingAction
      setActionsRemaining setTurnPhase setCurrentPlayerIndex players].
    rewrite IHlen, IHidx, Nat.Div0.add_mod_idemp_l. f_equal. lia.
Qed.

(** X18: turns go round the table: each [endTurn] hands the turn to the next
    seat, the last seat handing it to the first, so [k] turn ends move it [k]
    seats on and as many turn ends as there are players bring it back to
    where it was. *)
Theorem endTurn_round_robin (st : GameState) (k : nat) :
  (currentPlayerIndex st < List.length (players st))%nat ->
  let n := List.length (players st) in
  currentPlayerIndex (Nat.iter k endTurn st)
  = ((currentPlayerIndex st + k) mod n)%nat
  /\ (currentPlayerIndex (Nat.iter k endTurn st) < n)%nat
  /\ currentPlayerIndex (Nat.iter n endTurn st) = currentPlayerIndex st.
Proof.
  intros Hi n.
  assert (Hk : forall j, currentPlayerIndex (Nat.iter j endTurn st)
                         = ((currentPlayerIndex st + j) mod n)%nat)
    by (intros j; now destruct (endTurn_iter st j Hi)).
  split; [apply Hk|]. split.
  - rewrite Hk. apply Nat.mod_upper_bound. subst n. lia.
  - rewrite Hk.
    replace (currentPlayerIndex st + n)%nat
      with (currentPlayerIndex st + 1 * n)%nat by lia.
    rewrite Nat.Div0.mod_add. now apply Nat.mod_small.
Qed.

Lemma endTurn_round_robin_witness :
  map (fun k => currentPlayerIndex (Nat.iter k endTurn threeInLobby))
      [0; 1; 2; 3; 4]%nat
  = [0; 1; 2; 0; 1]%nat.
Proof.
  pose proof (fun k => proj1 (endTurn_round_robin threeInLobby k
                                ltac:(vm_compute; lia))) as H.
  cbn [map]. rewrite !H. reflexivity.
Defined.

(* ================================================================== *)
(** ** The per-viewer projection, composed *)

Lemma redactHand_twice v w p :
  redactHand w (redactHand v p)
  = if isViewer v p && isViewer w p then p
    else setHand (map (fun _ => hiddenCard) (hand p)) p.
Proof.
  unfold redactHand.
  assert (Hw : isViewer w (setHand (if isViewer v p then hand p
                                     else map (fun _ => hiddenCard) (hand p)) p)
               = isViewer w p) by now destruct w.
  rewrite Hw. cbn [hand setHand].
  destruct (isViewer v p), (isViewer w p); cbn [andb]; destruct p; cbn;
    try reflexivity; now rewrite map_map.
Qed.

Lemma getPublicGameState_compose v w st :
  getPublicGameState w (getPublicGameState v st)
  = setPlayers (map (fun p => redactHand w (redactHand v p)) (players st)) st.
Proof. destruct st. unfold getPublicGameState. cbn. now rewrite map_map. Qed.

(** X19: projecting a projection shows nothing new: for the same viewer the
    second projection changes nothing, and for another viewer it leaves no
    hand visible at all, exactly as the projection for no viewer does.  What
    one player is sent cannot be turned into what another player is sent. *)
Theorem getPublicGameState_twice (v w : string) (st : GameState) :
  getPublicGameState (Some v) (getPublicGameState (Some v) st)
  = getPublicGameState (Some v) st
  /\ (v <> w ->
      getPublicGameState (Some w) (getPublicGameState (Some v) st)
      = getPublicGameState None st).
Proof.
  rewrite !getPublicGameState_compose. unfold getPublicGameState. split.
  - apply (f_equal (fun l => setPlayers l st)). apply map_ext.
    intros p. rewrite redactHand_twice. unfold redactHand.
    destruct (isViewer (Some v) p); cbn [andb]; [now destruct p | reflexivity].
  - intros Hvw. apply (f_equal (fun l => setPlayers l st)). apply map_ext.
    intros p. rewrite redactHand_twice. unfold redactHand. cbn [isViewer].
    destruct (String.eqb (player_id p) v) eqn:Ev; cbn [andb]; [|reflexivity].
    destruct (String.eqb (player_id p) w) eqn:Ew; [|reflexivity].
    apply String.eqb_eq in Ev, Ew. congruence.
Qed.

Lemma getPublicGameState_twice_witness :
  getPublicGameState (Some "B") (getPublicGameState (Some "A") afterDeal)
  = getPublicGameState None afterDeal.
Proof.
  apply (proj2 (getPublicGameState_twice "A" "B" afterDeal)). discriminate.
Defined.

(* ================================================================== *)
(** ** Cards on the move *)

Create HintDb moves.

Lemma found_in_hand playerId st pi player p cardIndex (card : Card) :
  findEntry (hasPlayerId playerId) (players st) = Some (pi, player) ->
  findEntry p (hand player) = Some (cardIndex, card) ->
  nth_error (handOf pi st) cardIndex = Some card.
Proof.
  intros H1 H2. apply findEntry_Some in H1, H2.
  unfold handOf. rewrite (proj1 H1). exact (proj1 H2).
Qed.

Lemma found_in_sets playerId st pi player p k (s : PropertySet) :
  findEntry (hasPlayerId playerId) (players st) = Some (pi, player) ->
  findEntry p (properties player) = Some (k, s) ->
  nth_error (propertiesOf pi st) k = Some s.
Proof.
  intros H1 H2. apply findEntry_Some in H1, H2.
  unfold propertiesOf. rewrite (proj1 H1). exact (proj1 H2).
Qed.

Lemma deck_resumeTurn st : deck (snd (resumeTurn st)) = deck st.
Proof. unfold resumeTurn. repeat break_match; reflexivity. Qed.

Lemma deck_trackResponse pid pa st : deck (snd (trackResponse pid pa st)) = deck st.
Proof.
  unfold trackResponse. repeat break_match; rewrite ?deck_resumeTurn; reflexivity.
Qed.

Section UpdateTwice.
Context {A : Type}.

Lemma updateAt_twice i (f g : A -> A) : forall l,
  updateAt i g (updateAt i f l) = updateAt i (fun x => g (f x)) l.
Proof.
  induction i as [|i IH]; intros [|a l]; simpl; try reflexivity.
  now rewrite IH.
Qed.

Lemma updateAt_ext i (f g : A -> A) : forall l,
  (forall x, f x = g x) -> updateAt i f l = updateAt i g l.
Proof.
  induction i as [|i IH]; intros [|a l] H; simpl; try reflexivity.
  - now rewrite H.
  - now rewrite IH.
Qed.
End UpdateTwice.

(** The splice and the completion update of [rearrangeProperty], one
    assignment after the other. *)
Lemma take_then_recompute pi k j st :
  modifyPlayer pi
    (modifySet k (fun s => updatePropertySetCompletion (takeFromSet j s))) st
  = modifyPlayer pi (modifySet k updatePropertySetCompletion)
      (modifyPlayer pi (modifySet k (takeFromSet j)) st).
Proof.
  unfold modifyPlayer. cbn [players setPlayers].
  apply (f_equal (fun l => setPlayers l st)).
  rewrite updateAt_twice. apply updateAt_ext. intros p.
  unfold modifySet. cbn [properties setProperties].
  now rewrite updateAt_twice.
Qed.

(** A card relation [W flight st0 st] is read "[st] and the cards in
    [flight] still stand to [st0] as they should".  The hypotheses are the
    moves the operations are made of: a card leaves a hand, a bank or a set
    and joins the cards in flight, or leaves them for a hand, a bank, a set
    or the discard pile; a card in flight may also be dropped, which is what
    happens to an action card once it is played. *)
Section Moves.
Variable W : list Card -> GameState -> GameState -> Prop.
Hypothesis W_drop : forall c fl st0 st, W (c :: fl) st0 st -> W fl st0 st.
Hypothesis W_fields : forall fl st0 st st',
  players st' = players st -> deck st' = deck st ->
  discardPile st' = discardPile st ->
  W fl st0 st -> W fl st0 st'.
Hypothesis W_reshuffle : forall rnd fl st0 st,
  W fl st0 st ->
  W fl st0 (setDiscardPile [] (setDeck (shuffleDeck rnd (discardPile st)) st)).
Hypothesis W_draw : forall pi card d fl st0 st,
  pop (deck st) = (Some card, d) ->
  W fl st0 st -> W fl st0 (modifyPlayer pi (pushHand card) (setDeck d st)).
Hypothesis W_drawNone : forall d fl st0 st,
  pop (deck st) = (None, d) -> W fl st0 st -> W fl st0 (setDeck d st).
Hypothesis W_takeHand : forall i j c fl st0 st,
  nth_error (handOf i st) j = Some c ->
  W fl st0 st ->
  W (c :: fl) st0 (modifyPlayer i (fun p => setHand (removeAt j (hand p)) p) st).
Hypothesis W_pushHand : forall i c fl st0 st,
  W (c :: fl) st0 st -> W fl st0 (modifyPlayer i (pushHand c) st).
Hypothesis W_takeBank : forall i j c fl st0 st,
  nth_error (bankOf i st) j = Some c ->
  W fl st0 st ->
  W (c :: fl) st0 (modifyPlayer i (fun p => setBank (removeAt j (bank p)) p) st).
Hypothesis W_pushBank : forall i c fl st0 st,
  W (c :: fl) st0 st -> W fl st0 (modifyPlayer i (pushBank c) st).
Hypothesis W_pushDiscard : forall c fl st0 st,
  W (c :: fl) st0 st -> W fl st0 (setDiscardPile (push (discardPile st) c) st).
Hypothesis W_place : forall i col c fl st0 st,
  W (c :: fl) st0 st -> W fl st0 (modifyPlayer i (placeProperty col c) st).
Hypothesis W_takeSet : forall i k s j fl st0 st,
  nth_error (propertiesOf i st) k = Some s ->
  W fl st0 st ->
  W (andCard (nth_error (set_cards s) j) fl) st0
    (modifyPlayer i (modifySet k (takeFromSet j)) st).
Hypothesis W_recompute : forall i k fl st0 st,
  W fl st0 st ->
  W fl st0 (modifyPlayer i (modifySet k updatePropertySetCompletion) st).
Hypothesis W_prune : forall i fl st0 st,
  W fl st0 st -> W fl st0 (modifyPlayer i pruneEmptySets st).
Hypothesis W_house : forall i k c fl st0 st,
  W (c :: fl) st0 st ->
  W fl st0
    (modifyPlayer i
       (modifySet k (fun s =>
          setCards (push (set_cards s) c) (setHasHouse true s))) st).
Hypothesis W_hotel : forall i k c fl st0 st,
  W (c :: fl) st0 st ->
  W fl st0
    (modifyPlayer i
       (modifySet k (fun s =>
          setCards (push (set_cards s) c) (setHasHotel true s))) st).
Hypothesis W_breakDeal : forall fi pi idx theSet fl st0 st,
  nth_error (propertiesOf pi st) idx = Some theSet ->
  W fl st0 st ->
  W fl st0
    (modifyPlayer fi (fun p => setProperties (push (properties p) theSet) p)
       (modifyPlayer pi
          (fun p => setProperties (removeAt idx (properties p)) p) st)).

Lemma moved_drop_option card fl st0 st : W (andCard card fl) st0 st -> W fl st0 st.
Proof. destruct card; cbn [andCard]; eauto. Qed.

Lemma moved_andThen fl st0 A B (r : Result A) (k : A -> GameState -> Result B) :
  W fl st0 (snd r) ->
  (forall a st, W fl st0 st -> W fl st0 (snd (k a st))) ->
  W fl st0 (snd (andThen r k)).
Proof. intros Hr Hk. destruct r as [[a|msg] st]; cbn in *; auto. Qed.

Lemma moved_setTurnPhase fl st0 p st : W fl st0 st -> W fl st0 (setTurnPhase p st).
Proof. now apply W_fields. Qed.

Lemma moved_setPendingAction fl st0 pa st :
  W fl st0 st -> W fl st0 (setPendingAction pa st).
Proof. now apply W_fields. Qed.

Lemma moved_setActionsRemaining fl st0 n st :
  W fl st0 st -> W fl st0 (setActionsRemaining n st).
Proof. now apply W_fields. Qed.

Lemma moved_resumeTurn fl st0 st : W fl st0 st -> W fl st0 (snd (resumeTurn st)).
Proof.
  apply W_fields;
    [apply players_resumeTurn | apply deck_resumeTurn | apply discardPile_resumeTurn].
Qed.

Lemma moved_trackResponse fl st0 pid pa st :
  W fl st0 st -> W fl st0 (snd (trackResponse pid pa st)).
Proof.
  apply W_fields;
    [apply players_trackResponse | apply deck_trackResponse
    | apply discardPile_trackResponse].
Qed.

Lemma moved_played fl st0 pi n st :
  W fl st0 st -> W fl st0 (afterPlay pi (checkWinner (setActionsRemaining n st))).
Proof.
  destruct (played_fields pi n st) as (H1 & H2 & H3 & _).
  now apply W_fields.
Qed.

Lemma moved_checkWinner fl st0 st : W fl st0 st -> W fl st0 (checkWinner st).
Proof.
  apply W_fields; unfold checkWinner; now destruct (find isWinner (players st)).
Qed.

Lemma moved_drawLoop fl st0 rnd pi n : forall st,
  W fl st0 st -> W fl st0 (snd (drawLoop rnd n pi st)).
Proof.
  induction n as [|n IH]; intros st H; cbn [drawLoop]; [exact H|].
  set (st1 := match deck st with
              | [] => setDiscardPile []
                        (setDeck (shuffleDeck rnd (discardPile st)) st)
              | _ => st
              end).
  assert (H1 : W fl st0 st1) by (subst st1; destruct (deck st); auto).
  clearbody st1. destruct (pop (deck st1)) as [[card|] d] eqn:Hpop.
  - specialize (IH (modifyPlayer pi (pushHand card) (setDeck d st1))).
    destruct (drawLoop rnd n pi _) as [drawn st2]. eauto.
  - eauto.
Qed.

Lemma moved_playPropertyCard fl st0 pi card c w wcs t st :
  W (card :: fl) st0 st ->
  W fl st0 (snd (playPropertyCard pi card c w wcs t st)).
Proof. unfold playPropertyCard. break_match; cbn [snd ok throw]; eauto. Qed.

Lemma moved_placeIfProperty fl st0 i card c st :
  W (andCard card fl) st0 st ->
  W fl st0 (snd (placeIfProperty i card c st)).
Proof.
  unfold placeIfProperty. destruct card as [cd|]; cbn [andCard]; [|auto].
  destruct (face cd); cbn [snd ok]; eauto using moved_playPropertyCard.
Qed.

Lemma moved_addHouse fl st0 pi card t st :
  W (card :: fl) st0 st -> W fl st0 (snd (addHouse pi card t st)).
Proof. unfold addHouse. repeat break_match; cbn [snd ok throw]; eauto. Qed.

Lemma moved_addHotel fl st0 pi card t st :
  W (card :: fl) st0 st -> W fl st0 (snd (addHotel pi card t st)).
Proof. unfold addHotel. repeat break_match; cbn [snd ok throw]; eauto. Qed.

Lemma moved_playActionCard fl st0 rnd pi pid card a t st :
  W (card :: fl) st0 st ->
  W fl st0 (snd (playActionCard rnd pi pid card a t st)).
Proof.
  intros H. unfold playActionCard, openPending.
  destruct a; repeat break_match; cbn [snd ok throw];
    eauto using moved_addHouse, moved_addHotel, moved_setTurnPhase,
      moved_setPendingAction, moved_setActionsRemaining.
  apply W_pushDiscard. now apply moved_drawLoop.
Qed.

Lemma moved_playRentCard fl st0 pi pid card cs w t st :
  W (card :: fl) st0 st ->
  W fl st0 (snd (playRentCard pi pid card cs w t st)).
Proof.
  intros H. unfold playRentCard.
  destruct (match tget propertySetColor t with
            | Some targetColor => _
            | None => _
            end) as [s|]; [|cbn; eauto].
  match goal with
  | |- W fl st0 (snd (let '(_, _) := ?X in _)) =>
      assert (Hx : W (card :: fl) st0 (snd X)); [|destruct X as [amount st1]]
  end.
  { destruct (targetDoubleRent t); [|exact H].
    destruct (findEntry (isActionOf doubleRent) (handOf pi st))
      as [[di dc]|] eqn:Hd; [|exact H].
    apply findEntry_Some in Hd. destruct Hd as [Hd _]. cbn [snd].
    apply moved_setActionsRemaining.
    apply (W_pushDiscard dc (card :: fl) st0
             (modifyPlayer pi (fun p => setHand (removeAt di (hand p)) p) st)).
    now apply W_takeHand. }
  cbn [snd] in Hx. cbv zeta.
  destruct (if w then _ else _) as [pa|]; cbn [snd ok throw]; [|eauto].
  apply W_pushDiscard, moved_setTurnPhase, moved_setPendingAction. exact Hx.
Qed.

Lemma moved_asCurrentPlayer fl st0 A playerId st (k : nat -> Player -> Result A) :
  W fl st0 st ->
  (forall pi p, findEntry (hasPlayerId playerId) (players st) = Some (pi, p) ->
                W fl st0 (snd (k pi p))) ->
  W fl st0 (snd (asCurrentPlayer playerId st k)).
Proof.
  intros H Hk. unfold asCurrentPlayer.
  destruct (findEntry (hasPlayerId playerId) (players st)) as [[pi p]|];
    [|exact H].
  destruct (notYourTurn playerId st) as [[|]|]; auto.
Qed.

Lemma moved_playCard fl st0 rnd pid cid t st :
  W fl st0 st -> W fl st0 (snd (playCard rnd pid cid t st)).
Proof.
  intros H. unfold playCard. apply moved_asCurrentPlayer; [exact H|].
  intros pi player Hfind.
  destruct (negb (tpEqb (turnPhase st) tpAction)); [exact H|].
  destruct (actionsRemaining st <=? 0); [exact H|].
  destruct (findEntry (hasId cid) (hand player)) as [[cardIndex card]|] eqn:Hc;
    [|exact H].
  pose proof (W_takeHand pi cardIndex card fl st0 st
                (found_in_hand pid st pi player _ cardIndex card Hfind Hc) H)
    as H1.
  apply moved_andThen; [|intros _ st2 H2; now apply moved_played].
  destruct (targetAsBank t || isMoney card); [cbn; eauto|].
  destruct (face card);
    eauto using moved_playPropertyCard, moved_playActionCard,
      moved_playRentCard.
Qed.

Lemma moved_refuse fl st0 pi fi pid pa st :
  W fl st0 st -> W fl st0 (snd (refuse pi fi pid pa st)).
Proof.
  intros H. unfold refuse.
  destruct (findEntry (isActionOf justSayNo) (handOf pi st)) as [[j c]|] eqn:Hj;
    [|exact H].
  apply findEntry_Some in Hj. destruct Hj as [Hj _].
  assert (H1 : W fl st0
                 (setDiscardPile (push (discardPile st) c)
                    (modifyPlayer pi
                       (fun p => setHand (removeAt j (hand p)) p) st))).
  { apply (W_pushDiscard c fl st0
             (modifyPlayer pi (fun p => setHand (removeAt j (hand p)) p) st)).
    now apply W_takeHand. }
  cbv zeta. destruct (respondedPlayers pa); [now apply moved_trackResponse|].
  destruct (find _ _); [now apply moved_setPendingAction|].
  now apply moved_resumeTurn.
Qed.

Lemma moved_payCard fl st0 pi fi cid st :
  W fl st0 st -> W fl st0 (snd (payCard pi fi cid st)).
Proof.
  intros H. unfold payCard.
  destruct (findEntry (hasId cid) (bankOf pi st)) as [[bi c]|] eqn:Hb.
  - apply findEntry_Some in Hb. destruct Hb as [Hb _]. cbn [snd ok].
    apply W_pushBank. now apply W_takeBank.
  - destruct (findInSets cid 0 (propertiesOf pi st)) as [[[k j] c]|] eqn:Hs;
      [|exact H].
    apply findInSets_Some in Hs. destruct Hs as (s & _ & Hk & Hj & _).
    rewrite Nat.sub_0_r in Hk.
    pose proof (W_takeSet pi k s j fl st0 st Hk H) as H1.
    rewrite Hj in H1. cbn [andCard] in H1.
    apply moved_andThen; [|intros _ st2 H2; cbn; now apply W_recompute].
    destruct (face c); cbn [snd ok]; eauto using moved_playPropertyCard.
Qed.

Lemma moved_payCards fl st0 pi fi ids : forall st,
  W fl st0 st -> W fl st0 (snd (payCards pi fi ids st)).
Proof.
  induction ids as [|cid rest IH]; intros st H; cbn [payCards]; [exact H|].
  apply moved_andThen; [now apply moved_payCard | intros _ st1; apply IH].
Qed.

Lemma moved_settlePayment fl st0 pi fi p pa r st :
  W fl st0 st -> W fl st0 (snd (settlePayment pi fi p pa r st)).
Proof.
  intros H. unfold settlePayment.
  destruct (accept r); [|exact H].
  destruct (truthyAmount (amount pa)); [|exact H].
  cbv zeta. destruct (_ && _); [exact H|].
  apply moved_andThen; [now apply moved_payCards|].
  intros _ st1 H1. cbn. now apply W_prune.
Qed.

Lemma moved_executeSlyDeal fl st0 fi pi tc cid st :
  W fl st0 st -> W fl st0 (snd (executeSlyDeal fi pi tc cid st)).
Proof.
  intros H. unfold executeSlyDeal.
  destruct tc as [tc|]; [|exact H].
  destruct (findEntry (hasColor tc) (propertiesOf pi st)) as [[k s]|] eqn:Hk;
    [|exact H].
  apply findEntry_Some in Hk. destruct Hk as [Hk _].
  destruct (isComplete s); [exact H|]. cbv zeta.
  apply moved_andThen.
  - apply moved_placeIfProperty. now apply W_takeSet.
  - intros _ st2 H2. cbn. now apply W_prune, W_recompute.
Qed.

Lemma moved_giveInExchange fl st0 fi pi k gid gf st :
  W fl st0 st -> W fl st0 (snd (giveInExchange fi pi k gid gf st)).
Proof.
  intros H. unfold giveInExchange.
  destruct (truthy gid) as [cardId|]; [|exact H].
  destruct gf as [gc|]; [|exact H].
  destruct (findEntry (hasColor gc) (propertiesOf fi st)) as [[g s]|] eqn:Hg;
    [|exact H].
  apply findEntry_Some in Hg. destruct Hg as [Hg _].
  destruct (isComplete s); [exact H|].
  destruct (findEntry (hasId cardId) (set_cards s)) as [[j c]|] eqn:Hj;
    [|exact H].
  apply findEntry_Some in Hj. destruct Hj as [Hj _].
  pose proof (W_takeSet fi g s j fl st0 st Hg H) as H1. rewrite Hj in H1.
  apply moved_andThen.
  - now apply moved_placeIfProperty.
  - intros _ st2 H2. cbn [snd]. now apply W_prune, W_recompute.
Qed.

Lemma moved_executeForcedDeal fl st0 fi pi tc cid gid gf st :
  W fl st0 st -> W fl st0 (snd (executeForcedDeal fi pi tc cid gid gf st)).
Proof.
  intros H. unfold executeForcedDeal.
  destruct tc as [tc|]; [|exact H].
  destruct (findEntry (hasColor tc) (propertiesOf pi st)) as [[k s]|] eqn:Hk;
    [|exact H].
  apply findEntry_Some in Hk. destruct Hk as [Hk _].
  destruct (isComplete s); [exact H|]. cbv zeta.
  pose proof (W_takeSet pi k s (chosenIndex cid (set_cards s)) fl st0 st Hk H)
    as H1.
  set (taken := nth_error (set_cards s) (chosenIndex cid (set_cards s))) in *.
  clearbody taken.
  pose proof (moved_giveInExchange (andCard taken fl) st0 fi pi k gid gf _ H1)
    as H2.
  destruct (giveInExchange fi pi k gid gf _) as [[k'|msg] st2]; cbn [snd] in *;
    [|now apply moved_drop_option in H2].
  cbn [andThen].
  apply moved_andThen; [now apply moved_placeIfProperty|].
  intros _ st3 H3. cbn [snd ok]. apply W_prune.
  destruct k'; [now apply W_recompute | exact H3].
Qed.

Lemma moved_executeDealBreaker fl st0 fi pi tc st :
  W fl st0 st -> W fl st0 (snd (executeDealBreaker fi pi tc st)).
Proof.
  intros H. unfold executeDealBreaker.
  destruct tc as [tc|]; [|exact H].
  destruct (findEntry (hasColor tc) (propertiesOf pi st)) as [[k s]|] eqn:Hk;
    [|exact H].
  apply findEntry_Some in Hk. destruct Hk as [Hk _].
  cbn [snd ok]. now apply W_breakDeal.
Qed.

Lemma moved_executeEffect fl st0 fi pi pa r st :
  W fl st0 st -> W fl st0 (snd (executeEffect fi pi pa r st)).
Proof.
  intros H. unfold executeEffect.
  destruct (pa_type pa) as [[]|];
    auto using moved_executeSlyDeal, moved_executeForcedDeal,
      moved_executeDealBreaker.
Qed.

Lemma moved_respondToAction fl st0 pid r st :
  W fl st0 st -> W fl st0 (snd (respondToAction pid r st)).
Proof.
  intros H. unfold respondToAction.
  destruct (pendingAction st) as [pa|]; [|exact H].
  destruct (findEntry (hasPlayerId pid) (players st)) as [[pi p]|]; [|exact H].
  destruct (findEntry (hasPlayerId (fromPlayerId pa)) (players st))
    as [[fi f]|]; [|exact H].
  destruct (alreadyResponded pid pa); [exact H|].
  destruct (useJustSayNo r); [now apply moved_refuse|].
  apply moved_andThen; [|intros _ st2; apply moved_trackResponse].
  apply moved_andThen; [now apply moved_settlePayment|].
  intros _ st1 H1. destruct (_ && _); [now apply moved_executeEffect | exact H1].
Qed.

Lemma moved_discardLoop fl st0 pi ids : forall st,
  W fl st0 st -> W fl st0 (snd (discardLoop pi ids st)).
Proof.
  induction ids as [|cid rest IH]; intros st H; cbn [discardLoop]; [exact H|].
  destruct (findEntry (hasId cid) (handOf pi st)) as [[j c]|] eqn:Hj;
    [|exact H].
  apply findEntry_Some in Hj. destruct Hj as [Hj _]. apply IH.
  apply (W_pushDiscard c fl st0
           (modifyPlayer pi (fun p => setHand (removeAt j (hand p)) p) st)).
  now apply W_takeHand.
Qed.

Lemma moved_endTurn fl st0 st : W fl st0 st -> W fl st0 (endTurn st).
Proof. now apply W_fields. Qed.

Lemma moved_discardCards fl st0 pid ids st :
  W fl st0 st -> W fl st0 (snd (discardCards pid ids st)).
Proof.
  intros H. unfold discardCards. apply moved_asCurrentPlayer; [exact H|].
  intros pi p _. destruct (negb _); [exact H|]. cbv zeta.
  destruct (negb _); [exact H|].
  apply moved_andThen; [now apply moved_discardLoop|].
  intros _ st1 H1. now apply moved_endTurn.
Qed.

Lemma moved_endTurnEarly fl st0 pid st :
  W fl st0 st -> W fl st0 (snd (endTurnEarly pid st)).
Proof.
  intros H. unfold endTurnEarly. apply moved_asCurrentPlayer; [exact H|].
  intros pi p _. destruct (_ && _); [exact H|].
  destruct (pendingAction st); [exact H|].
  destruct (7 <? _)%nat; cbn [snd ok];
    [now apply moved_setTurnPhase | now apply moved_endTurn].
Qed.

Lemma moved_drawCards fl st0 rnd pid st :
  W fl st0 st -> W fl st0 (snd (drawCards rnd pid st)).
Proof.
  intros H. unfold drawCards. apply moved_asCurrentPlayer; [exact H|].
  intros pi p _. destruct (negb _); [exact H|]. cbv zeta.
  pose proof (moved_drawLoop fl st0 rnd pi
                (match hand p with [] => 5 | _ => 2 end)%nat st H) as H1.
  destruct (drawLoop rnd _ pi st) as [drawn st1]. cbn [snd] in *.
  now apply moved_setTurnPhase.
Qed.

Lemma moved_rearrangeProperty fl st0 pid cid a b st :
  W fl st0 st -> W fl st0 (snd (rearrangeProperty pid cid a b st)).
Proof.
  intros H. unfold rearrangeProperty. apply moved_asCurrentPlayer; [exact H|].
  intros pi p Hfind. destruct (_ && _); [exact H|].
  destruct (findEntry (hasColor a) (properties p)) as [[k s]|] eqn:Hk;
    [|exact H].
  pose proof (found_in_sets pid st pi p _ k s Hfind Hk) as Hs.
  destruct (findEntry (hasId cid) (set_cards s)) as [[j c]|] eqn:Hj;
    [|exact H].
  apply findEntry_Some in Hj. destruct Hj as [Hj _].
  destruct (negb (cardIsWildcard c)); [exact H|].
  destruct (match face c with
            | Property _ _ (Some l) => negb (includesColor l b)
            | _ => false
            end); [exact H|].
  cbv zeta. cbn [snd ok]. apply moved_checkWinner, W_prune, W_place.
  rewrite take_then_recompute. apply W_recompute.
  pose proof (W_takeSet pi k s j fl st0 st Hs H) as H1.
  now rewrite Hj in H1.
Qed.
End Moves.

(* ================================================================== *)
(** ** Counting the cards in play *)

Section Counting.
Variable f : Card -> bool.

Lemma countCards_app l1 l2 :
  countCards f (l1 ++ l2) = (countCards f l1 + countCards f l2)%nat.
Proof. unfold countCards. now rewrite filter_app, length_app. Qed.

Lemma countCards_cons c l :
  countCards f (c :: l) = (counts f c + countCards f l)%nat.
Proof. unfold countCards, counts. cbn [filter]. now destruct (f c). Qed.

Lemma countCards_push l c :
  countCards f (push l c) = (countCards f l + counts f c)%nat.
Proof.
  unfold push. rewrite countCards_app, countCards_cons.
  change (countCards f []) with 0%nat. lia.
Qed.

Lemma countCards_removeAt i : forall l c,
  nth_error l i = Some c ->
  (countCards f (removeAt i l) + counts f c = countCards f l)%nat.
Proof.
  induction i as [|i IH]; intros [|a l] c H; simpl in H; try discriminate.
  - injection H as ->. cbn [removeAt]. rewrite countCards_cons. lia.
  - cbn [removeAt]. rewrite !countCards_cons. specialize (IH l c H). lia.
Qed.

Lemma countCards_removeAt_none i : forall l : list Card,
  nth_error l i = None -> removeAt i l = l.
Proof.
  induction i as [|i IH]; intros [|a l] H; simpl in *; try reflexivity;
    try discriminate.
  now rewrite IH.
Qed.

Lemma countCards_Permutation l1 l2 :
  Permutation l1 l2 -> countCards f l1 = countCards f l2.
Proof.
  intros H. unfold countCards.
  induction H; simpl; repeat destruct (f _); simpl; congruence.
Qed.

Lemma countCards_flat_map {A} (g : A -> list Card) l :
  countCards f (flat_map g l) = list_sum (map (fun x => countCards f (g x)) l).
Proof.
  induction l as [|a l IH]; [reflexivity|].
  cbn [flat_map map list_sum]. now rewrite countCards_app, IH.
Qed.

Lemma countHeld_playerCards p : countCards f (playerCards p) = countHeld f p.
Proof.
  unfold playerCards, countHeld, countInSets, allSetCards.
  rewrite !countCards_app, countCards_flat_map. lia.
Qed.

Lemma census_sum st :
  census f st
  = (countCards f (deck st) + countCards f (discardPile st)
     + list_sum (map (countHeld f) (players st)))%nat.
Proof.
  unfold census, cardsInPlay.
  rewrite !countCards_app, countCards_flat_map.
  rewrite (map_ext _ _ countHeld_playerCards). lia.
Qed.

Lemma list_sum_updateAt_any {A} (g : A -> nat) i (h : A -> A) : forall l,
  match nth_error l i with
  | Some x => (list_sum (map g (updateAt i h l)) + g x
               = list_sum (map g l) + g (h x))%nat
  | None => updateAt i h l = l
  end.
Proof.
  induction i as [|i IH]; intros [|a l]; simpl; try reflexivity; [lia|].
  specialize (IH l). destruct (nth_error l i); [lia | now rewrite IH].
Qed.

Lemma census_modifyPlayer i h st :
  match nth_error (players st) i with
  | Some p => (census f (modifyPlayer i h st) + countHeld f p
               = census f st + countHeld f (h p))%nat
  | None => modifyPlayer i h st = st
  end.
Proof.
  pose proof (list_sum_updateAt_any (countHeld f) i h (players st)) as H.
  destruct (nth_error (players st) i).
  - rewrite !census_sum. cbn [players deck discardPile modifyPlayer setPlayers].
    lia.
  - unfold modifyPlayer. rewrite H. apply setPlayers_same.
Qed.

Lemma countInSets_updateAt k g sets :
  match nth_error sets k with
  | Some s => (countInSets f (updateAt k g sets) + countCards f (set_cards s)
               = countInSets f sets + countCards f (set_cards (g s)))%nat
  | None => updateAt k g sets = sets
  end.
Proof.
  apply (list_sum_updateAt_any (fun s => countCards f (set_cards s))).
Qed.

Lemma countInSets_push sets s :
  countInSets f (push sets s)
  = (countInSets f sets + countCards f (set_cards s))%nat.
Proof.
  unfold countInSets, push. rewrite map_app, list_sum_app. simpl. lia.
Qed.

Lemma countInSets_prune sets :
  countInSets f (filter nonEmptySet sets) = countInSets f sets.
Proof.
  unfold countInSets. induction sets as [|s sets IH]; [reflexivity|].
  cbn [filter]. unfold nonEmptySet at 1.
  destruct (set_cards s) eqn:E; simpl; rewrite E; simpl; now rewrite IH.
Qed.

Lemma countInSets_removeAt k : forall sets s,
  nth_error sets k = Some s ->
  (countInSets f (removeAt k sets) + countCards f (set_cards s)
   = countInSets f sets)%nat.
Proof.
  unfold countInSets.
  induction k as [|k IH]; intros [|a l] s H; simpl in H; try discriminate.
  - injection H as ->. simpl. lia.
  - simpl. specialize (IH l s H). lia.
Qed.

Lemma countHeld_placeProperty c card p :
  countHeld f (placeProperty c card p) = (countHeld f p + counts f card)%nat.
Proof.
  unfold placeProperty, countHeld.
  destruct (findEntry (hasColor c) (properties p)) as [[k s]|] eqn:Hk.
  - apply findEntry_Some in Hk. destruct Hk as [Hk _].
    cbn [hand bank properties modifySet setProperties].
    pose proof (countInSets_updateAt k (addToSet card) (properties p)) as H.
    rewrite Hk in H. cbn [addToSet set_cards updatePropertySetCompletion
      setIsComplete setCards] in H.
    rewrite countCards_push in H. lia.
  - cbn [hand bank properties setProperties].
    rewrite countInSets_push.
    change (set_cards (addToSet card (newSet c))) with (push [] card).
    rewrite countCards_push. change (countCards f []) with 0%nat. lia.
Qed.
End Counting.

(** *** The moves, counted *)

Lemma within_refl st : within [] st st.
Proof. intros f. change (countCards f []) with 0%nat. lia. Qed.

Lemma within_drop c fl st0 st : within (c :: fl) st0 st -> within fl st0 st.
Proof. intros H f. specialize (H f). rewrite countCards_cons in H. lia. Qed.

Lemma within_fields fl st0 st st' :
  players st' = players st -> deck st' = deck st ->
  discardPile st' = discardPile st ->
  within fl st0 st -> within fl st0 st'.
Proof.
  intros Hp Hd Hx H f. specialize (H f).
  rewrite census_sum in *. now rewrite Hp, Hd, Hx.
Qed.

Lemma within_reshuffle rnd fl st0 st :
  within fl st0 st ->
  within fl st0 (setDiscardPile [] (setDeck (shuffleDeck rnd (discardPile st)) st)).
Proof.
  intros H f. specialize (H f). rewrite census_sum in *.
  cbn [players deck discardPile setDeck setDiscardPile].
  rewrite (countCards_Permutation f _ _ (shuffleDeck_Permutation rnd _)).
  change (countCards f []) with 0%nat. lia.
Qed.

Lemma pop_Some {A} (l : list A) x d : pop l = (Some x, d) -> l = push d x.
Proof.
  destruct (pop_cases l) as [[_ H]|(y & l' & -> & H)]; rewrite H; intros E;
    [discriminate | now injection E as -> ->].
Qed.

Lemma pop_None {A} (l : list A) d : pop l = (None, d) -> l = [] /\ d = [].
Proof.
  destruct (pop_cases l) as [[-> H]|(y & l' & -> & H)]; rewrite H; intros E;
    [now injection E as <- | discriminate].
Qed.

(** A push into the hand, the bank or a set of a player adds at most the
    card pushed: nothing when there is no such player. *)
Lemma census_push_bound f i h c st :
  (forall p, countHeld f (h p) = countHeld f p + counts f c)%nat ->
  (census f (modifyPlayer i h st) <= census f st + counts f c)%nat.
Proof.
  intros Hh. pose proof (census_modifyPlayer f i h st) as H.
  destruct (nth_error (players st) i) as [p|].
  - rewrite Hh in H. lia.
  - rewrite H. lia.
Qed.

Lemma within_push h i c fl st0 st :
  (forall f p, countHeld f (h p) = countHeld f p + counts f c)%nat ->
  within (c :: fl) st0 st -> within fl st0 (modifyPlayer i h st).
Proof.
  intros Hh H f. specialize (H f). rewrite countCards_cons in H.
  pose proof (census_push_bound f i h c st (Hh f)). lia.
Qed.

Lemma within_pushHand i c fl st0 st :
  within (c :: fl) st0 st -> within fl st0 (modifyPlayer i (pushHand c) st).
Proof.
  apply within_push. intros f p. unfold countHeld, pushHand.
  cbn [hand bank properties setHand]. rewrite countCards_push. lia.
Qed.

Lemma within_pushBank i c fl st0 st :
  within (c :: fl) st0 st -> within fl st0 (modifyPlayer i (pushBank c) st).
Proof.
  apply within_push. intros f p. unfold countHeld, pushBank.
  cbn [hand bank properties setBank]. rewrite countCards_push. lia.
Qed.

Lemma within_place i col c fl st0 st :
  within (c :: fl) st0 st ->
  within fl st0 (modifyPlayer i (placeProperty col c) st).
Proof. apply within_push. intros f p. apply countHeld_placeProperty. Qed.

Lemma countHeld_modifySet f k g p :
  match nth_error (properties p) k with
  | Some s => (countHeld f (modifySet k g p) + countCards f (set_cards s)
               = countHeld f p + countCards f (set_cards (g s)))%nat
  | None => modifySet k g p = p
  end.
Proof.
  pose proof (countInSets_updateAt f k g (properties p)) as H.
  destruct (nth_error (properties p) k).
  - unfold countHeld, modifySet. cbn [hand bank properties setProperties]. lia.
  - unfold modifySet. rewrite H. now destruct p.
Qed.

Lemma within_improve g i k c fl st0 st :
  (forall s, set_cards (g s) = push (set_cards s) c) ->
  within (c :: fl) st0 st ->
  within fl st0 (modifyPlayer i (modifySet k g) st).
Proof.
  intros Hg H f. specialize (H f). rewrite countCards_cons in H.
  pose proof (census_modifyPlayer f i (modifySet k g) st) as Hm.
  destruct (nth_error (players st) i) as [p|]; [|rewrite Hm; lia].
  pose proof (countHeld_modifySet f k g p) as Hs.
  destruct (nth_error (properties p) k) as [s|].
  - rewrite Hg, countCards_push in Hs. lia.
  - rewrite Hs in Hm. lia.
Qed.

Lemma within_same_cards g i k fl st0 st :
  (forall s, set_cards (g s) = set_cards s) ->
  within fl st0 st -> within fl st0 (modifyPlayer i (modifySet k g) st).
Proof.
  intros Hg H f. specialize (H f).
  pose proof (census_modifyPlayer f i (modifySet k g) st) as Hm.
  destruct (nth_error (players st) i) as [p|]; [|rewrite Hm; lia].
  pose proof (countHeld_modifySet f k g p) as Hs.
  destruct (nth_error (properties p) k) as [s|].
  - rewrite Hg in Hs. lia.
  - rewrite Hs in Hm. lia.
Qed.

Lemma within_house i k c fl st0 st :
  within (c :: fl) st0 st ->
  within fl st0
    (modifyPlayer i
       (modifySet k (fun s =>
          setCards (push (set_cards s) c) (setHasHouse true s))) st).
Proof. now apply within_improve. Qed.

Lemma within_hotel i k c fl st0 st :
  within (c :: fl) st0 st ->
  within fl st0
    (modifyPlayer i
       (modifySet k (fun s =>
          setCards (push (set_cards s) c) (setHasHotel true s))) st).
Proof. now apply within_improve. Qed.

Lemma within_recompute i k fl st0 st :
  within fl st0 st ->
  within fl st0 (modifyPlayer i (modifySet k updatePropertySetCompletion) st).
Proof. now apply within_same_cards. Qed.

Lemma countHeld_prune f p : countHeld f (pruneEmptySets p) = countHeld f p.
Proof.
  unfold countHeld, pruneEmptySets. cbn [hand bank properties setProperties].
  now rewrite countInSets_prune.
Qed.

Lemma within_prune i fl st0 st :
  within fl st0 st -> within fl st0 (modifyPlayer i pruneEmptySets st).
Proof.
  intros H f. specialize (H f).
  pose proof (census_modifyPlayer f i pruneEmptySets st) as Hm.
  destruct (nth_error (players st) i) as [p|]; [|rewrite Hm; lia].
  rewrite countHeld_prune in Hm. lia.
Qed.

Lemma within_draw pi card d fl st0 st :
  pop (deck st) = (Some card, d) ->
  within fl st0 st ->
  within fl st0 (modifyPlayer pi (pushHand card) (setDeck d st)).
Proof.
  intros Hpop H. apply within_pushHand. intros f. specialize (H f).
  apply pop_Some in Hpop. rewrite census_sum in *.
  cbn [players deck discardPile setDeck]. rewrite Hpop, countCards_push in H.
  rewrite countCards_cons. lia.
Qed.

Lemma within_drawNone d fl st0 st :
  pop (deck st) = (None, d) -> within fl st0 st -> within fl st0 (setDeck d st).
Proof.
  intros Hpop H f. specialize (H f). apply pop_None in Hpop.
  destruct Hpop as [Hd ->]. rewrite census_sum in *.
  cbn [players deck discardPile setDeck]. now rewrite Hd in H.
Qed.

Lemma within_pushDiscard c fl st0 st :
  within (c :: fl) st0 st ->
  within fl st0 (setDiscardPile (push (discardPile st) c) st).
Proof.
  intros H f. specialize (H f). rewrite census_sum in *.
  cbn [players deck discardPile setDiscardPile].
  rewrite countCards_push. rewrite countCards_cons in H. lia.
Qed.

Lemma within_takeHand i j c fl st0 st :
  nth_error (handOf i st) j = Some c ->
  within fl st0 st ->
  within (c :: fl) st0
    (modifyPlayer i (fun p => setHand (removeAt j (hand p)) p) st).
Proof.
  intros Hc H f. specialize (H f). rewrite countCards_cons.
  pose proof (census_modifyPlayer f i
                (fun p => setHand (removeAt j (hand p)) p) st) as Hm.
  unfold handOf in Hc.
  destruct (nth_error (players st) i) as [p|]; [|destruct j; discriminate].
  unfold countHeld in Hm. cbn [hand bank properties setHand] in Hm.
  pose proof (countCards_removeAt f j (hand p) c Hc). lia.
Qed.

Lemma within_takeBank i j c fl st0 st :
  nth_error (bankOf i st) j = Some c ->
  within fl st0 st ->
  within (c :: fl) st0
    (modifyPlayer i (fun p => setBank (removeAt j (bank p)) p) st).
Proof.
  intros Hc H f. specialize (H f). rewrite countCards_cons.
  pose proof (census_modifyPlayer f i
                (fun p => setBank (removeAt j (bank p)) p) st) as Hm.
  unfold bankOf in Hc.
  destruct (nth_error (players st) i) as [p|]; [|destruct j; discriminate].
  unfold countHeld in Hm. cbn [hand bank properties setBank] in Hm.
  pose proof (countCards_removeAt f j (bank p) c Hc). lia.
Qed.

Lemma within_takeSet i k s j fl st0 st :
  nth_error (propertiesOf i st) k = Some s ->
  within fl st0 st ->
  within (andCard (nth_error (set_cards s) j) fl) st0
    (modifyPlayer i (modifySet k (takeFromSet j)) st).
Proof.
  intros Hs H f. specialize (H f).
  pose proof (census_modifyPlayer f i (modifySet k (takeFromSet j)) st) as Hm.
  unfold propertiesOf in Hs.
  destruct (nth_error (players st) i) as [p|]; [|destruct k; discriminate].
  pose proof (countHeld_modifySet f k (takeFromSet j) p) as Hk.
  rewrite Hs in Hk. cbn [takeFromSet set_cards setCards] in Hk.
  destruct (nth_error (set_cards s) j) as [c|] eqn:Hc; cbn [andCard].
  - rewrite countCards_cons.
    pose proof (countCards_removeAt f j (set_cards s) c Hc). lia.
  - rewrite (countCards_removeAt_none j (set_cards s) Hc) in Hk. lia.
Qed.

Lemma within_breakDeal fi pi idx theSet fl st0 st :
  nth_error (propertiesOf pi st) idx = Some theSet ->
  within fl st0 st ->
  within fl st0
    (modifyPlayer fi (fun p => setProperties (push (properties p) theSet) p)
       (modifyPlayer pi
          (fun p => setProperties (removeAt idx (properties p)) p) st)).
Proof.
  intros Hs H f. specialize (H f).
  set (st1 := modifyPlayer pi
                (fun p => setProperties (removeAt idx (properties p)) p) st).
  assert (H1 : (census f st1 + countCards f (set_cards theSet)
                = census f st)%nat).
  { pose proof (census_modifyPlayer f pi
                  (fun p => setProperties (removeAt idx (properties p)) p) st)
      as Hm.
    unfold propertiesOf in Hs.
    destruct (nth_error (players st) pi) as [p|]; [|destruct idx; discriminate].
    unfold countHeld in Hm. cbn [hand bank properties setProperties] in Hm.
    pose proof (countInSets_removeAt f idx (properties p) theSet Hs).
    subst st1. lia. }
  clearbody st1.
  pose proof (census_modifyPlayer f fi
                (fun p => setProperties (push (properties p) theSet) p) st1)
    as Hm.
  destruct (nth_error (players st1) fi) as [p|]; [|rewrite Hm; lia].
  unfold countHeld in Hm. cbn [hand bank properties setProperties] in Hm.
  rewrite countInSets_push in Hm. lia.
Qed.

(** *** No operation makes a card *)

(** Close the hypotheses of a lemma of the section of moves with the counted
    moves. *)
Ltac counted :=
  first
    [ exact within_drop | exact within_fields | exact within_reshuffle
    | exact within_draw | exact within_drawNone | exact within_takeHand
    | exact within_pushHand | exact within_takeBank | exact within_pushBank
    | exact within_pushDiscard | exact within_place | exact within_takeSet
    | exact within_prune | exact within_breakDeal | exact within_house
    | exact within_hotel | exact within_recompute ].

Lemma census_addPlayer f playerId name socket st :
  census f (snd (addPlayer playerId name socket st)) = census f st.
Proof.
  rewrite !census_sum. unfold addPlayer.
  cbn [snd players deck discardPile setPlayers]. unfold push.
  rewrite map_app, list_sum_app.
  change (list_sum (map (countHeld f)
                      [mkPlayer playerId name [] [] [] true socket]))
    with 0%nat.
  lia.
Qed.

Lemma list_sum_removeAt {A} (g : A -> nat) i : forall l,
  (list_sum (map g (removeAt i l)) <= list_sum (map g l))%nat.
Proof.
  induction i as [|i IH]; intros [|a l]; simpl; try lia.
  specialize (IH l). lia.
Qed.

Lemma census_removePlayer f playerId st :
  (census f (removePlayer playerId st) <= census f st)%nat.
Proof.
  unfold removePlayer.
  destruct (findEntry (hasPlayerId playerId) (players st)) as [[i p]|]; [|lia].
  cbv zeta. pose proof (list_sum_removeAt (countHeld f) i (players st)).
  destruct (_ <=? _)%nat; rewrite !census_sum;
    cbn [players deck discardPile setPlayers setCurrentPlayerIndex]; lia.
Qed.

Lemma no_new_cards op st :
  isStartGame op = false -> within [] st (snd (run op st)).
Proof.
  intros Hop. pose proof (within_refl st) as H.
  destruct op; try discriminate Hop; cbn [run].
  - intros f. cbn [snd ok]. rewrite census_addPlayer.
    change (countCards f []) with 0%nat. lia.
  - intros f. cbn [snd ok]. pose proof (census_removePlayer f playerId st).
    change (countCards f []) with 0%nat. lia.
  - pose proof (moved_drawCards within) as L.
    specialize (L ltac:(counted) ltac:(counted) ltac:(counted) ltac:(counted)
                  [] st rnd playerId st H).
    unfold void. now destruct (drawCards rnd playerId st) as [[?|?] ?].
  - apply (moved_playCard within); try counted; exact H.
  - apply (moved_respondToAction within); try counted; exact H.
  - apply (moved_discardCards within); try counted; exact H.
  - apply (moved_endTurnEarly within); try counted; exact H.
  - apply (moved_rearrangeProperty within); try counted; exact H.
Qed.

Lemma dealt_countHeld f ps qs :
  Forall2 (fun p q => q = setBank [] (setProperties [] (setHand (hand q) p)))
    ps qs ->
  map (countHeld f) qs = map (fun q => countCards f (hand q)) qs.
Proof.
  induction 1 as [|p q ps qs Hq _ IH]; [reflexivity|].
  cbn [map]. rewrite IH. f_equal. rewrite Hq. unfold countHeld.
  cbn [hand bank properties setBank setProperties setHand].
  change (countCards f []) with 0%nat. change (countInSets f []) with 0%nat.
  lia.
Qed.

Lemma census_startGame f uuid rnd st :
  fst (startGame uuid rnd st) = Ok tt ->
  census f (snd (startGame uuid rnd st)) = countCards f (createDeck uuid).
Proof.
  intros Hok.
  assert (Hn : (2 <= List.length (players st) <= 5)%nat).
  { unfold startGame in Hok.
    destruct (List.length (players st) <? 2)%nat eqn:E2; [discriminate|].
    destruct (5 <? List.length (players st))%nat eqn:E5; [discriminate|].
    apply Nat.ltb_ge in E2, E5. lia. }
  destruct (startGame_dealt uuid rnd st Hn)
    as (_ & Hseats & _ & Hperm & Hdiscard & _).
  rewrite <- (countCards_Permutation f _ _ Hperm).
  rewrite census_sum, Hdiscard, countCards_app, countCards_flat_map.
  change (countCards f []) with 0%nat.
  rewrite (dealt_countHeld f _ _ Hseats). lia.
Qed.

Lemma startGame_throws uuid rnd st :
  fst (startGame uuid rnd st) <> Ok tt -> snd (startGame uuid rnd st) = st.
Proof.
  unfold startGame. repeat break_match; cbn; congruence.
Qed.

Lemma outcome_cases (r : Result unit) : fst r = Ok tt \/ fst r <> Ok tt.
Proof. destruct r as [[[]|msg] st]; [now left | now right]. Qed.

Lemma reachable_census st :
  Reachable st ->
  exists uuid, forall f, (census f st <= countCards f (createDeck uuid))%nat.
Proof.
  induction 1 as [gameId uuid rnd room | op st Hst (uuid & IH)].
  - exists uuid. intros f. unfold census, cardsInPlay, createGameState.
    cbn [deck discardPile players flat_map]. rewrite !app_nil_r.
    now rewrite (countCards_Permutation f _ _ (shuffleDeck_Permutation rnd _)).
  - destruct (isStartGame op) eqn:Hop.
    + destruct op; try discriminate Hop. cbn [run].
      destruct (outcome_cases (startGame uuid0 rnd st)) as [Hok|Hthrow].
      * exists uuid0. intros f. now rewrite census_startGame.
      * exists uuid. now rewrite startGame_throws.
    + exists uuid. intros f. pose proof (no_new_cards op st Hop f) as H.
      specialize (IH f). lia.
Qed.

(** *** What follows for the cards themselves *)

Lemma Card_eq_dec (a b : Card) : {a = b} + {a <> b}.
Proof.
  assert (Hc : forall x y : PropertyColor, {x = y} + {x <> y})
    by decide equality.
  assert (Ha : forall x y : ActionType, {x = y} + {x <> y})
    by decide equality.
  assert (Hl : forall x y : list PropertyColor, {x = y} + {x <> y})
    by (apply list_eq_dec, Hc).
  assert (Ho : forall x y : option (list PropertyColor), {x = y} + {x <> y})
    by decide equality.
  assert (Hf : forall x y : CardFace, {x = y} + {x <> y})
    by (decide equality; apply Bool.bool_dec).
  decide equality; auto using string_dec, Z.eq_dec.
Qed.

Lemma countCards_positive f l :
  (0 < countCards f l)%nat <-> exists c, In c l /\ f c = true.
Proof.
  unfold countCards. split.
  - destruct (filter f l) as [|c r] eqn:E; [simpl; lia|]. intros _.
    exists c. apply filter_In. rewrite E. now left.
  - intros (c & Hin & Hf).
    assert (H : In c (filter f l)) by now apply filter_In.
    destruct (filter f l); [contradiction | simpl; lia].
Qed.

Lemma sub_census_incl l d :
  (forall f, (countCards f l <= countCards f d)%nat) -> incl l d.
Proof.
  intros H c Hc.
  specialize (H (fun c' => if Card_eq_dec c c' then true else false)).
  assert (Hpos : (0 < countCards
                        (fun c' => if Card_eq_dec c c' then true else false) l)%nat).
  { apply countCards_positive. exists c. split; [exact Hc|].
    now destruct (Card_eq_dec c c). }
  assert (Hd : (0 < countCards
                      (fun c' => if Card_eq_dec c c' then true else false) d)%nat)
    by lia.
  apply countCards_positive in Hd. destruct Hd as (c' & Hin & Heq).
  destruct (Card_eq_dec c c'); [now subst | discriminate].
Qed.

Lemma count_occ_ids l x :
  count_occ string_dec (map card_id l) x
  = countCards (fun c => String.eqb (card_id c) x) l.
Proof.
  induction l as [|c l IH]; [reflexivity|].
  cbn [map count_occ]. rewrite countCards_cons, IH. unfold counts.
  destruct (string_dec (card_id c) x) as [E|E].
  - apply String.eqb_eq in E. now rewrite E.
  - apply String.eqb_neq in E. now rewrite E.
Qed.

Lemma sub_census_NoDup l d :
  (forall f, (countCards f l <= countCards f d)%nat) ->
  NoDup (map card_id d) -> NoDup (map card_id l).
Proof.
  intros H Hd. apply (NoDup_count_occ string_dec). intros x.
  rewrite (NoDup_count_occ string_dec) in Hd. specialize (Hd x).
  rewrite count_occ_ids in *.
  specialize (H (fun c => String.eqb (card_id c) x)). lia.
Qed.

(** X20: no operation makes a card.  In every state the exported operations
    can produce from a fresh game there is one deck (the one [createGameState]
    or the last successful [startGame] built) such that the cards in the draw
    pile, the discard pile and the players' hands, banks and property sets,
    taken together, are cards of that deck, none more often than the deck
    has it.  So there are at most 105 cards in play, each is a catalog card,
    and when the deck's ids are distinct no id occurs twice in play. *)
Theorem cards_in_play_come_from_one_deck (st : GameState) :
  Reachable st ->
  exists uuid,
    (forall f, (census f st <= countCards f (createDeck uuid))%nat)
    /\ incl (cardsInPlay st) (createDeck uuid)
    /\ (List.length (cardsInPlay st) <= 105)%nat
    /\ Forall (fun c => homeColorAllowed c = true) (cardsInPlay st)
    /\ (NoDup (map card_id (createDeck uuid)) ->
        NoDup (map card_id (cardsInPlay st))).
Proof.
  intros Hst. destruct (reachable_census st Hst) as (uuid & H).
  exists uuid. split; [exact H|].
  assert (Hincl : incl (cardsInPlay st) (createDeck uuid))
    by (apply sub_census_incl; exact H).
  split; [exact Hincl|]. split; [|split].
  - specialize (H (fun _ => true)). unfold census, countCards in H.
    rewrite !forallb_filter_id in H by now apply forallb_forall.
    now rewrite length_createDeck in H.
  - apply Forall_forall. intros c Hc. apply Hincl in Hc.
    pose proof (createDeck_homeColorAllowed uuid) as Hd.
    rewrite forallb_forall in Hd. now apply Hd.
  - apply sub_census_NoDup. exact H.
Qed.

Lemma cards_in_play_come_from_one_deck_witness :
  exists uuid, incl (cardsInPlay debtPending) (createDeck uuid)
               /\ (List.length (cardsInPlay debtPending) <= 105)%nat.
Proof.
  destruct (cards_in_play_come_from_one_deck debtPending)
    as (uuid & _ & H2 & H3 & _).
  - apply Reachable_from_fresh.
  - exists uuid. split; assumption.
Defined.

(* ================================================================== *)
(** ** Who sits where *)

Lemma sameSeats_modifyPlayer h st0 i st :
  (forall p, seat (h p) = seat p) ->
  sameSeats st0 st -> sameSeats st0 (modifyPlayer i h st).
Proof.
  intros Hh H. unfold sameSeats in *. rewrite <- H.
  cbn [players modifyPlayer setPlayers]. clear H.
  revert i. induction (players st) as [|p l IH]; intros [|i]; simpl;
    try reflexivity; [now rewrite Hh | now rewrite IH].
Qed.

Lemma seat_placeProperty c card p : seat (placeProperty c card p) = seat p.
Proof. unfold placeProperty. now destruct (findEntry _ _) as [[? ?]|]. Qed.

Lemma dealt_seats ps qs :
  Forall2 (fun p q => q = setBank [] (setProperties [] (setHand (hand q) p)))
    ps qs ->
  map seat qs = map seat ps.
Proof.
  induction 1 as [|p q ps qs Hq _ IH]; [reflexivity|].
  cbn [map]. rewrite IH. f_equal. now rewrite Hq.
Qed.

(** Close the hypotheses of a lemma of the section of moves for the seats:
    every move assigns hand, bank or properties only. *)
Ltac seated :=
  intros; unfold sameSeats in *; cbn [players setDeck setDiscardPile];
  repeat (apply sameSeats_modifyPlayer;
          [intros ?; first [reflexivity | apply seat_placeProperty]|]);
  first [assumption | congruence].

Lemma seats_kept op st :
  match op with
  | OpAddPlayer _ _ _ | OpRemovePlayer _ => True
  | _ => sameSeats st (snd (run op st))
  end.
Proof.
  assert (H : sameSeats st st) by reflexivity.
  pose (W := fun (_ : list Card) => sameSeats).
  destruct op; cbn [run]; try exact I.
  - destruct (outcome_cases (startGame uuid rnd st)) as [Hok|Hthrow].
    + assert (Hn : (2 <= List.length (players st) <= 5)%nat).
      { unfold startGame in Hok.
        destruct (List.length (players st) <? 2)%nat eqn:E2; [discriminate|].
        destruct (5 <? List.length (players st))%nat eqn:E5; [discriminate|].
        apply Nat.ltb_ge in E2, E5. lia. }
      destruct (startGame_dealt uuid rnd st Hn) as (_ & Hseats & _).
      now apply dealt_seats.
    + now rewrite startGame_throws.
  - pose proof (moved_drawCards W) as L.
    specialize (L ltac:(seated) ltac:(seated) ltac:(seated) ltac:(seated)
                  [] st rnd playerId st H).
    unfold void. now destruct (drawCards rnd playerId st) as [[?|?] ?].
  - apply (moved_playCard W) with (fl := []); try seated.
  - apply (moved_respondToAction W) with (fl := []); try seated.
  - apply (moved_discardCards W) with (fl := []); try seated.
  - apply (moved_endTurnEarly W) with (fl := []); try seated.
  - apply (moved_rearrangeProperty W) with (fl := []); try seated.
Qed.

Lemma map_removeAt {A B} (g : A -> B) i : forall l,
  map g (removeAt i l) = removeAt i (map g l).
Proof.
  induction i as [|i IH]; intros [|a l]; simpl; try reflexivity.
  now rewrite IH.
Qed.

(** X21: who sits where changes only in the lobby.  [addPlayer] appends the
    new player's seat (id, name, connected, socket) and [removePlayer] deletes
    the seat of the first player with the id, or nothing; every other
    exported operation, returning or throwing, leaves ids, names, connection
    flags, sockets and the order of the players exactly as they were. *)
Theorem seats_change_only_in_the_lobby (op : Op) (st : GameState) :
  let st' := snd (run op st) in
  match op with
  | OpAddPlayer playerId name socket =>
      map seat (players st')
      = (map seat (players st) ++ [(playerId, name, true, socket)])%list
  | OpRemovePlayer playerId =>
      match findEntry (hasPlayerId playerId) (players st) with
      | Some (i, _) => map seat (players st') = removeAt i (map seat (players st))
      | None => st' = st
      end
  | _ => map seat (players st') = map seat (players st)
  end.
Proof.
  cbv zeta. pose proof (seats_kept op st) as H.
  destruct op; try exact H; cbn [run snd ok].
  - unfold addPlayer, push. cbn [snd players setPlayers].
    now rewrite map_app.
  - unfold removePlayer.
    destruct (findEntry (hasPlayerId playerId) (players st)) as [[i p]|];
      [|reflexivity].
    cbv zeta. destruct (_ <=? _)%nat; cbn [players setPlayers
      setCurrentPlayerIndex]; apply map_removeAt.
Qed.

(* ================================================================== *)
(** ** Actions that every other player answers *)

Lemma allResponded_ids from responded ps :
  allResponded from responded ps
  = forallb (includesStr responded)
      (filter (fun x => negb (String.eqb x from)) (map player_id ps)).
Proof.
  unfold allResponded. induction ps as [|p ps IH]; [reflexivity|].
  cbn [map filter]. unfold hasPlayerId at 1.
  destruct (negb (String.eqb (player_id p) from)); cbn [forallb];
    now rewrite IH.
Qed.

Lemma seats_ids ps qs :
  map seat ps = map seat qs -> map player_id ps = map player_id qs.
Proof.
  intros H. apply (f_equal (map (fun s => fst (fst (fst s))))) in H.
  now rewrite !map_map in H.
Qed.

Lemma allResponded_seats from responded ps qs :
  map seat ps = map seat qs ->
  allResponded from responded ps = allResponded from responded qs.
Proof. intros H. now rewrite !allResponded_ids, (seats_ids ps qs H). Qed.

Lemma trackResponse_multi playerId pa responded st st' :
  respondedPlayers pa = Some responded ->
  trackResponse playerId pa st = (Ok tt, st') ->
  players st' = players st
  /\ if allResponded (fromPlayerId pa) (push responded playerId) (players st)
     then pendingAction st' = None
     else pendingAction st' = Some (withResponded (push responded playerId) pa)
          /\ turnPhase st' = turnPhase st.
Proof.
  intros Hr H.
  pose proof (players_trackResponse playerId pa st) as Hp.
  rewrite H in Hp. cbn [snd] in Hp. split; [exact Hp|].
  unfold trackResponse in H. rewrite Hr in H. cbv zeta in H.
  cbn [players setPendingAction] in H.
  destruct (allResponded (fromPlayerId pa) (push responded playerId) (players st)).
  - pose proof (pendingAction_resumeTurn
                  (setPendingAction
                     (Some (withResponded (push responded playerId) pa)) st))
      as Hn.
    now rewrite H in Hn.
  - injection H as <-. now split.
Qed.

Lemma answer_tracked playerId response st st' pa responded :
  pendingAction st = Some pa ->
  respondedPlayers pa = Some responded ->
  respondToAction playerId response st = (Ok tt, st') ->
  includesStr responded playerId = false
  /\ sameSeats st st'
  /\ if allResponded (fromPlayerId pa) (push responded playerId) (players st)
     then pendingAction st' = None
     else pendingAction st' = Some (withResponded (push responded playerId) pa)
          /\ turnPhase st' = turnPhase st.
Proof.
  intros Hpa Hr H.
  assert (Hmid : includesStr responded playerId = false
                 /\ exists st1, sameSeats st st1 /\ turnPhase st1 = turnPhase st
                                /\ trackResponse playerId pa st1 = (Ok tt, st')).
  { unfold respondToAction in H. rewrite Hpa in H.
    destruct (findEntry (hasPlayerId playerId) (players st)) as [[pi p]|];
      [|discriminate].
    destruct (findEntry (hasPlayerId (fromPlayerId pa)) (players st))
      as [[fi fp]|]; [|discriminate].
    unfold alreadyResponded, isMultiPlayerAction in H. rewrite Hr in H.
    destruct (includesStr responded playerId); [discriminate|].
    split; [reflexivity|].
    destruct (useJustSayNo response).
    - unfold refuse in H.
      destruct (findEntry (isActionOf justSayNo) (handOf pi st))
        as [[j c]|]; [|discriminate].
      cbv zeta in H. rewrite Hr in H. eexists. split; [|split; [|exact H]].
      + unfold sameSeats. cbn [players setDiscardPile].
        now apply sameSeats_modifyPlayer.
      + reflexivity.
    - rewrite andb_false_r in H.
      assert (Ls : sameSeats st (snd (settlePayment pi fi p pa response st))).
      { apply (moved_settlePayment (fun _ => sameSeats)) with (fl := []);
          seated. }
      pose proof (sameTable_settlePayment st pi fi p pa response st
                    (sameTable_refl st)) as [[_ Ht] _].
      destruct (settlePayment pi fi p pa response st) as [[[]|msg] st1];
        [|discriminate].
      cbn [andThen ok snd] in *. eauto. }
  destruct Hmid as (Hnew & st1 & Hseats & Hphase & Htrack).
  destruct (trackResponse_multi playerId pa responded st1 st' Hr Htrack)
    as [Hp Hres].
  split; [exact Hnew|]. split; [unfold sameSeats in *; now rewrite Hp|].
  rewrite (allResponded_seats _ _ (players st) (players st1)) by now symmetry.
  now rewrite <- Hphase.
Qed.

Lemma includesStr_In l x : includesStr l x = true <-> In x l.
Proof.
  unfold includesStr. rewrite existsb_exists. split.
  - intros (y & Hy & E). apply String.eqb_eq in E. now subst.
  - intros H. exists x. split; [exact H | apply String.eqb_refl].
Qed.

Lemma answerChain_needs_pending calls st st' :
  pendingAction st = None -> answerChain calls st = Some st' -> calls = [].
Proof.
  intros Hn H. destruct calls as [|[p r] rest]; [reflexivity|].
  cbn [answerChain] in H. unfold respondToAction in H. rewrite Hn in H.
  discriminate.
Qed.

Lemma answers_tracked calls : forall st st' pa responded,
  pendingAction st = Some pa ->
  respondedPlayers pa = Some responded ->
  calls <> [] ->
  answerChain calls st = Some st' ->
  sameSeats st st'
  /\ NoDup (map fst calls)
  /\ (forall x, In x (map fst calls) -> ~ In x responded)
  /\ (pendingAction st' = None
      <-> allResponded (fromPlayerId pa) (responded ++ map fst calls)
            (players st) = true)
  /\ (pendingAction st' <> None ->
      pendingAction st'
      = Some (withResponded (responded ++ map fst calls) pa)
      /\ turnPhase st' = turnPhase st).
Proof.
  induction calls as [|[p r] rest IH]; intros st st' pa responded Hpa Hr Hne H;
    [congruence|].
  cbn [answerChain] in H.
  destruct (respondToAction p r st) as [[[]|msg] st1] eqn:Hcall; [|discriminate].
  destruct (answer_tracked p r st st1 pa responded Hpa Hr Hcall)
    as (Hnew & Hseats & Hres).
  assert (Hnotin : ~ In p responded).
  { intros Hin. apply includesStr_In in Hin. congruence. }
  cbn [map fst]. unfold push in Hres.
  destruct (allResponded (fromPlayerId pa) (responded ++ [p]) (players st))
    eqn:Hall.
  - pose proof (answerChain_needs_pending rest st1 st' Hres H) as ->.
    cbn [answerChain] in H. injection H as <-. cbn [map].
    split; [exact Hseats|]. split; [repeat constructor; auto|].
    split; [intros x [<-|[]]; exact Hnotin|].
    split; [now split | congruence].
  - destruct Hres as [Hp1 Ht1]. destruct rest as [|call rest].
    + cbn [answerChain] in H. injection H as <-. cbn [map].
      split; [exact Hseats|]. split; [repeat constructor; auto|].
      split; [intros x [<-|[]]; exact Hnotin|].
      split; [rewrite Hp1; split; congruence|].
      intros _. now split.
    + destruct (IH st1 st' (withResponded (responded ++ [p])%list pa)
                  (responded ++ [p])%list Hp1 eq_refl ltac:(discriminate) H)
        as (I1 & I2 & I3 & I4 & I5).
      cbn [fromPlayerId withResponded] in I4.
      rewrite <- app_assoc in I4, I5. cbn [app] in I4, I5.
      rewrite (allResponded_seats _ _ (players st1) (players st)) in I4
        by exact Hseats.
      split; [unfold sameSeats in *; congruence|].
      split.
      { constructor; [|exact I2]. intros Hin. apply (I3 p Hin).
        apply in_or_app. right. now left. }
      split.
      { intros x [<-|Hx]; [exact Hnotin|]. intros Hin. apply (I3 x Hx).
        apply in_or_app. now left. }
      split; [exact I4|].
      intros Hsome. destruct (I5 Hsome) as [I6 I7]. split; [exact I6|].
      congruence.
Qed.

(** X22: an action that every other player must answer (a birthday, a
    two-colour rent) stays pending through every answer but the last.  In a
    run of answers that all return normally nobody answers twice, the seats
    stay as they are, and the action is cleared exactly when the players
    who have answered include every player other than the initiator,
    whatever the order and whether they pay, decline or refuse; until then
    the pending action lists who has answered and the turn phase is
    unchanged. *)
Theorem everyone_else_must_answer (calls : list (string * ActionResponse))
    (st st' : GameState) (pa : PendingAction) (responded : list string) :
  pendingAction st = Some pa ->
  respondedPlayers pa = Some responded ->
  calls <> [] ->
  answerChain calls st = Some st' ->
  sameSeats st st'
  /\ NoDup (map fst calls)
  /\ (forall x, In x (map fst calls) -> ~ In x responded)
  /\ (pendingAction st' = None
      <-> allResponded (fromPlayerId pa) (responded ++ map fst calls)
            (players st) = true)
  /\ (pendingAction st' <> None ->
      pendingAction st'
      = Some (withResponded (responded ++ map fst calls) pa)
      /\ turnPhase st' = turnPhase st).
Proof. apply answers_tracked. Qed.

Lemma everyone_else_must_answer_witness :
  (exists st1, answerChain [("C", decline)] birthdayParty = Some st1
               /\ pendingAction st1 <> None)
  /\ exists st2, answerChain [("C", decline); ("B", decline)] birthdayParty
                 = Some st2
                 /\ pendingAction st2 = None.
Proof.
  split.
  - destruct (answerChain [("C", decline)] birthdayParty) as [st1|] eqn:E;
      [|vm_compute in E; discriminate].
    edestruct (everyone_else_must_answer [("C", decline)] birthdayParty st1)
      as (_ & _ & _ & H4 & _).
    + vm_compute. reflexivity.
    + reflexivity.
    + discriminate.
    + exact E.
    + exists st1. split; [reflexivity|]. intros Hn. apply H4 in Hn.
      vm_compute in Hn. discriminate.
  - destruct (answerChain [("C", decline); ("B", decline)] birthdayParty)
      as [st2|] eqn:E; [|vm_compute in E; discriminate].
    edestruct (everyone_else_must_answer [("C", decline); ("B", decline)]
                 birthdayParty st2) as (_ & _ & _ & H4 & _).
    + vm_compute. reflexivity.
    + reflexivity.
    + discriminate.
    + exact E.
    + exists st2. split; [reflexivity|]. apply H4. vm_compute. reflexivity.
Defined.

(* ================================================================== *)
(** ** Moving a wildcard *)



Lemma countInSets_allSetCards f sets :
  countCards f (allSetCards sets) = countInSets f sets.
Proof. unfold allSetCards, countInSets. apply countCards_flat_map. Qed.


Lemma players_checkWinner st : players (checkWinner st) = players st.
Proof. unfold checkWinner. now destruct (find isWinner (players st)). Qed.



(* ================================================================== *)
(** ** Noticing a win *)

Lemma sameMatch_refl st : sameMatch st st.
Proof. split; reflexivity. Qed.

Lemma checkWinner_finds st :
  match find isWinner (players st) with
  | Some p => phase (checkWinner st) = phFinished
              /\ winner (checkWinner st) = Some (player_id p)
  | None => checkWinner st = st
  end.
Proof. unfold checkWinner. now destruct (find isWinner (players st)). Qed.

Lemma afterPlay_match pi st :
  players (afterPlay pi st) = players st
  /\ phase (afterPlay pi st) = phase st /\ winner (afterPlay pi st) = winner st.
Proof. unfold afterPlay. repeat break_match; repeat split. Qed.

Lemma sameMatch_played rnd pi playerId card target st :
  sameMatch st
    (snd (if targetAsBank target || isMoney card
          then ok (modifyPlayer pi (pushBank card) st)
          else match face card with
               | Property c w wcs =>
                   playPropertyCard pi card c w wcs
                     (tget propertySetColor target) st
               | Action a => playActionCard rnd pi playerId card a target st
               | Rent colors w => playRentCard pi playerId card colors w target st
               | Money => ok st
               end)).
Proof.
  pose proof (sameMatch_refl st) as H.
  destruct (targetAsBank target || isMoney card); [exact H|].
  destruct (face card).
  - eapply kept_playPropertyCard; eauto; frame_survives sameMatch_modifyPlayer.
  - exact H.
  - eapply kept_playActionCard; eauto; frame_survives sameMatch_modifyPlayer.
  - eapply kept_playRentCard; eauto; frame_survives sameMatch_modifyPlayer.
Qed.

(** X24: [playCard] and [rearrangeProperty] notice a win at once.  When one
    of them returns and some player then has three or more sets marked
    complete, the phase is finished and the winner is the first such player
    in seat order; when nobody has, phase and winner are what they were
    before the call. *)
Theorem win_noticed_after_play (op : Op) (st st' : GameState) :
  checksWinner op = true ->
  run op st = (Ok tt, st') ->
  match find isWinner (players st') with
  | Some p => phase st' = phFinished /\ winner st' = Some (player_id p)
  | None => phase st' = phase st /\ winner st' = winner st
  end.
Proof.
  intros Hop H. destruct op; try discriminate Hop; cbn [run] in H.
  - unfold playCard, asCurrentPlayer in H.
    destruct (findEntry (hasPlayerId playerId) (players st)) as [[pi player]|];
      [|discriminate].
    destruct (notYourTurn playerId st) as [[|]|]; try discriminate.
    destruct (negb _); [discriminate|].
    destruct (actionsRemaining st <=? 0); [discriminate|].
    destruct (findEntry (hasId cardId) (hand player)) as [[cardIndex card]|];
      [|discriminate].
    cbv zeta in H.
    pose proof (sameMatch_played rnd pi playerId card target
                  (modifyPlayer pi
                     (fun p => setHand (removeAt cardIndex (hand p)) p) st))
      as [Hph Hwin].
    destruct (if targetAsBank target || isMoney card then _ else _)
      as [[[]|msg] st2]; [|discriminate].
    cbn [andThen ok snd] in *. injection H as <-.
    destruct (afterPlay_match pi
                (checkWinner
                   (setActionsRemaining (actionsRemaining st2 - 1) st2)))
      as (Hp & Hf & Hw).
    rewrite Hp, Hf, Hw.
    pose proof (checkWinner_finds
                  (setActionsRemaining (actionsRemaining st2 - 1) st2)) as Hc.
    rewrite players_checkWinner.
    destruct (find isWinner _); [exact Hc|]. rewrite Hc.
    cbn [phase winner setActionsRemaining]. cbn in Hph, Hwin. now split.
  - unfold rearrangeProperty, asCurrentPlayer in H.
    repeat break_in H; try discriminate. cbv zeta in H. injection H as <-.
    match goal with
    | |- context [checkWinner ?s] => pose proof (checkWinner_finds s) as Hc
    end.
    rewrite players_checkWinner.
    destruct (find isWinner _); [exact Hc|]. rewrite Hc. now split.
Qed.

Lemma win_noticed_after_play_witness :
  let op := OpPlayCard noShuffle "A" "c21" None in
  phase oneCardFromWinning = phPlaying
  /\ phase (snd (run op oneCardFromWinning)) = phFinished
  /\ winner (snd (run op oneCardFromWinning)) = Some "A".
Proof.
  cbv zeta. split; [vm_compute; reflexivity|].
  destruct (run (OpPlayCard noShuffle "A" "c21" None) oneCardFromWinning)
    as [[[]|msg] st'] eqn:E; [|vm_compute in E; discriminate].
  pose proof (win_noticed_after_play
                (OpPlayCard noShuffle "A" "c21" None) oneCardFromWinning st'
                eq_refl E) as H.
  destruct (find isWinner (players st')) as [p|] eqn:F.
  - destruct H as [H1 H2]. split; [exact H1|]. cbn [snd]. rewrite H2.
    vm_compute in E. injection E as <-. vm_compute in F. injection F as <-.
    reflexivity.
  - vm_compute in E. injection E as <-. vm_compute in F. discriminate.
Defined.

(* ================================================================== *)
(** ** The hand limit *)

(** X25: a turn never passes with more than seven cards in the hand of the
    player who ends it.  When [endTurnEarly] or [discardCards] returns,
    either the turn has passed (next seat, draw phase, three actions, nothing
    pending) and the caller holds at most seven cards, or the caller holds
    more than seven, the phase is discard and it is still the caller's
    turn. *)
Theorem turn_passes_with_seven_or_fewer (op : Op) (st st' : GameState)
    (playerId : string) (pi : nat) (player : Player) :
  endsTurn op = true ->
  caller op = Some playerId ->
  findEntry (hasPlayerId playerId) (players st) = Some (pi, player) ->
  run op st = (Ok tt, st') ->
  (turnPhase st' = tpDraw
   /\ (List.length (handOf pi st') <= 7)%nat
   /\ currentPlayerIndex st'
      = ((currentPlayerIndex st + 1) mod List.length (players st))%nat
   /\ actionsRemaining st' = 3 /\ pendingAction st' = None)
  \/ (turnPhase st' = tpDiscard
      /\ (7 < List.length (handOf pi st'))%nat
      /\ currentPlayerIndex st' = currentPlayerIndex st
      /\ players st' = players st).
Proof.
  intros Hop Hcaller Hfind H.
  destruct op; try discriminate Hop; cbn [caller] in Hcaller;
    injection Hcaller as ->; cbn [run] in H.
  - destruct (discardCards_discards playerId cardIds st st' pi player Hfind H)
      as (kept & cards & H1 & H2 & _ & _ & _ & _ & _ & H8 & H9 & H10 & H11).
    left. unfold handOf. rewrite H1. cbn [hand setHand]. rewrite H2.
    repeat split; auto.
  - unfold endTurnEarly, asCurrentPlayer in H. rewrite Hfind in H.
    destruct (notYourTurn playerId st) as [[|]|]; try discriminate.
    destruct (_ && _); [discriminate|].
    destruct (pendingAction st); [discriminate|].
    apply findEntry_Some in Hfind. destruct Hfind as [Hp _].
    destruct (7 <? List.length (hand player))%nat eqn:E7;
      injection H as <-; unfold handOf;
      cbn [players endTurn setPendingAction setActionsRemaining setTurnPhase
           setCurrentPlayerIndex turnPhase currentPlayerIndex actionsRemaining
           pendingAction]; rewrite Hp.
    + right. apply Nat.ltb_lt in E7. repeat split; auto.
    + left. apply Nat.ltb_ge in E7. repeat split; auto.
Qed.

Lemma turn_passes_with_seven_or_fewer_witness :
  let st := runAll mustDiscard freshGame in
  turnPhase st = tpDiscard
  /\ (7 < List.length (handOf 0 st))%nat
  /\ currentPlayerIndex st = 0%nat.
Proof.
  cbv zeta.
  destruct (turn_passes_with_seven_or_fewer (OpEndTurnEarly "A")
              (runAll (removelast mustDiscard) freshGame)
              (runAll mustDiscard freshGame) "A" 0
              (mkPlayer "A" "Alice" (handOf 0 (runAll mustDiscard freshGame))
                 [] [] true "sa"))
    as [(H1 & _)|(H1 & H2 & H3 & _)].
  - reflexivity.
  - reflexivity.
  - vm_compute. reflexivity.
  - vm_compute. reflexivity.
  - vm_compute in H1. discriminate.
  - split; [exact H1|]. split; [exact H2|]. rewrite H3. vm_compute. reflexivity.
Defined.

(* ================================================================== *)
(** ** What an answer depends on *)

(** The settlement and the effects work on the players only: they neither
    read nor write the pending action. *)
Section PendingUnread.
Variable x : option PendingAction.

Lemma andThen_onState A B (r : Result A) (k : A -> GameState -> Result B) :
  (forall a s, k a ((setPendingAction x) s) = onState (setPendingAction x) (k a s)) ->
  andThen (onState (setPendingAction x) r) k = onState (setPendingAction x) (andThen r k).
Proof.
  intros Hk. destruct r as [[a|msg] s]; unfold onState; cbn; [|reflexivity].
  rewrite Hk. reflexivity.
Qed.

Lemma unread_playPropertyCard pi card c w wcs t s :
  playPropertyCard pi card c w wcs t ((setPendingAction x) s)
  = onState (setPendingAction x) (playPropertyCard pi card c w wcs t s).
Proof. unfold playPropertyCard. now destruct (_ && _). Qed.

Lemma unread_placeIfProperty i card c s :
  placeIfProperty i card c ((setPendingAction x) s) = onState (setPendingAction x) (placeIfProperty i card c s).
Proof.
  unfold placeIfProperty. destruct card as [cd|]; [|reflexivity].
  destruct (face cd); try reflexivity. apply unread_playPropertyCard.
Qed.

Lemma unread_payCard pi fi cid s :
  payCard pi fi cid ((setPendingAction x) s) = onState (setPendingAction x) (payCard pi fi cid s).
Proof.
  unfold payCard. change (bankOf pi ((setPendingAction x) s)) with (bankOf pi s).
  change (propertiesOf pi ((setPendingAction x) s)) with (propertiesOf pi s).
  destruct (findEntry (hasId cid) (bankOf pi s)) as [[bi c]|]; [reflexivity|].
  destruct (findInSets cid 0 (propertiesOf pi s)) as [[[k j] c]|];
    [|reflexivity].
  change (modifyPlayer pi (modifySet k (takeFromSet j)) ((setPendingAction x) s))
    with ((setPendingAction x) (modifyPlayer pi (modifySet k (takeFromSet j)) s)).
  destruct (face c); rewrite ?unread_playPropertyCard;
    try (change (ok (modifyPlayer fi (pushBank c) ((setPendingAction x) ?s0)))
           with (onState (setPendingAction x) (ok (modifyPlayer fi (pushBank c) s0))));
    try apply andThen_onState; reflexivity.
Qed.

Lemma unread_payCards pi fi ids : forall s,
  payCards pi fi ids ((setPendingAction x) s) = onState (setPendingAction x) (payCards pi fi ids s).
Proof.
  induction ids as [|cid rest IH]; intros s; cbn [payCards]; [reflexivity|].
  rewrite unread_payCard. apply andThen_onState. intros _ s1. apply IH.
Qed.

Lemma unread_settlePayment pi fi p pa r s :
  settlePayment pi fi p pa r ((setPendingAction x) s) = onState (setPendingAction x) (settlePayment pi fi p pa r s).
Proof.
  unfold settlePayment. destruct (accept r); [|reflexivity].
  destruct (truthyAmount (amount pa)); [|reflexivity].
  cbv zeta. destruct (_ && _); [reflexivity|].
  rewrite unread_payCards. apply andThen_onState. reflexivity.
Qed.

Lemma unread_executeSlyDeal fi pi tc cid s :
  executeSlyDeal fi pi tc cid ((setPendingAction x) s) = onState (setPendingAction x) (executeSlyDeal fi pi tc cid s).
Proof.
  unfold executeSlyDeal. destruct tc as [tc|]; [|reflexivity].
  change (propertiesOf pi ((setPendingAction x) s)) with (propertiesOf pi s).
  destruct (findEntry (hasColor tc) (propertiesOf pi s)) as [[k t]|];
    [|reflexivity].
  destruct (isComplete t); [reflexivity|]. cbv zeta.
  change (modifyPlayer pi (modifySet k (takeFromSet ?j)) ((setPendingAction x) s))
    with ((setPendingAction x) (modifyPlayer pi (modifySet k (takeFromSet j)) s)).
  rewrite unread_placeIfProperty. apply andThen_onState. reflexivity.
Qed.

Lemma unread_giveInExchange fi pi k gid gf s :
  giveInExchange fi pi k gid gf ((setPendingAction x) s)
  = onState (setPendingAction x) (giveInExchange fi pi k gid gf s).
Proof.
  unfold giveInExchange. destruct (truthy gid) as [cardId|]; [|reflexivity].
  destruct gf as [gc|]; [|reflexivity].
  change (propertiesOf fi ((setPendingAction x) s)) with (propertiesOf fi s).
  destruct (findEntry (hasColor gc) (propertiesOf fi s)) as [[j t]|];
    [|reflexivity].
  destruct (isComplete t); [reflexivity|].
  destruct (findEntry (hasId cardId) (set_cards t)) as [[ci c]|];
    [|reflexivity].
  change (modifyPlayer fi (modifySet j (takeFromSet ci)) ((setPendingAction x) s))
    with ((setPendingAction x) (modifyPlayer fi (modifySet j (takeFromSet ci)) s)).
  rewrite unread_placeIfProperty. apply andThen_onState. reflexivity.
Qed.

Lemma unread_executeForcedDeal fi pi tc cid gid gf s :
  executeForcedDeal fi pi tc cid gid gf ((setPendingAction x) s)
  = onState (setPendingAction x) (executeForcedDeal fi pi tc cid gid gf s).
Proof.
  unfold executeForcedDeal. destruct tc as [tc|]; [|reflexivity].
  change (propertiesOf pi ((setPendingAction x) s)) with (propertiesOf pi s).
  destruct (findEntry (hasColor tc) (propertiesOf pi s)) as [[k t]|];
    [|reflexivity].
  destruct (isComplete t); [reflexivity|]. cbv zeta.
  change (modifyPlayer pi (modifySet k (takeFromSet ?j)) ((setPendingAction x) s))
    with ((setPendingAction x) (modifyPlayer pi (modifySet k (takeFromSet j)) s)).
  rewrite unread_giveInExchange. apply andThen_onState.
  intros k' s2. rewrite unread_placeIfProperty. apply andThen_onState.
  intros _ s3. destruct k'; reflexivity.
Qed.

Lemma unread_executeEffect fi pi pa r s :
  executeEffect fi pi pa r ((setPendingAction x) s) = onState (setPendingAction x) (executeEffect fi pi pa r s).
Proof.
  unfold executeEffect. destruct (pa_type pa) as [[]|]; try reflexivity.
  - apply unread_executeSlyDeal.
  - apply unread_executeForcedDeal.
  - unfold executeDealBreaker. destruct (targetSet pa) as [tc|]; [|reflexivity].
    change (propertiesOf pi ((setPendingAction x) s)) with (propertiesOf pi s).
    now destruct (findEntry (hasColor tc) (propertiesOf pi s)) as [[k t]|].
Qed.
End PendingUnread.

Lemma unaddressed_twice st : unaddressed (unaddressed st) = unaddressed st.
Proof. unfold unaddressed. cbn. now destruct (pendingAction st). Qed.

Lemma unaddressed_set pa s :
  unaddressed (setPendingAction (Some (unaddressedAction pa)) s)
  = unaddressed (setPendingAction (Some pa) s).
Proof. reflexivity. Qed.

Lemma resumeTurn_unread x s :
  resumeTurn (setPendingAction x s) = resumeTurn s.
Proof. unfold resumeTurn. cbn. repeat break_match; reflexivity. Qed.

Lemma trackResponse_unread pid pa x s :
  trackResponse pid pa (setPendingAction x s) = trackResponse pid pa s.
Proof.
  unfold trackResponse. destruct (respondedPlayers pa); [|apply resumeTurn_unread].
  reflexivity.
Qed.

Lemma resumeTurn_unaddressed s :
  unaddressed (snd (resumeTurn s)) = snd (resumeTurn s).
Proof.
  unfold unaddressed. rewrite pendingAction_resumeTurn. cbn [option_map].
  pose proof (pendingAction_resumeTurn s) as H.
  destruct (snd (resumeTurn s)). cbn in *. now subst.
Qed.

Lemma trackResponse_unaddressed pid pa s :
  fst (trackResponse pid (unaddressedAction pa) s)
  = fst (trackResponse pid pa s)
  /\ unaddressed (snd (trackResponse pid (unaddressedAction pa) s))
     = unaddressed (snd (trackResponse pid pa s)).
Proof.
  unfold trackResponse. cbn [respondedPlayers unaddressedAction fromPlayerId].
  destruct (respondedPlayers pa) as [responded|]; [|now split].
  cbv zeta. cbn [players setPendingAction].
  destruct (allResponded _ _ _); [|now split].
  rewrite !resumeTurn_unread. now split.
Qed.

Lemma refuse_unaddressed pi fi pid pa s :
  fst (refuse pi fi pid (unaddressedAction pa) (unaddressed s))
  = fst (refuse pi fi pid pa s)
  /\ unaddressed (snd (refuse pi fi pid (unaddressedAction pa) (unaddressed s)))
     = unaddressed (snd (refuse pi fi pid pa s)).
Proof.
  unfold refuse. change (handOf pi (unaddressed s)) with (handOf pi s).
  destruct (findEntry (isActionOf justSayNo) (handOf pi s)) as [[j c]|];
    [|split; [reflexivity | apply unaddressed_twice]].
  cbv zeta. cbn [respondedPlayers unaddressedAction].
  set (s1 := setDiscardPile (push (discardPile s) c)
               (modifyPlayer pi (fun p => setHand (removeAt j (hand p)) p) s)).
  change (setDiscardPile (push (discardPile (unaddressed s)) c)
            (modifyPlayer pi (fun p => setHand (removeAt j (hand p)) p)
               (unaddressed s)))
    with (setPendingAction (option_map unaddressedAction (pendingAction s)) s1).
  destruct (respondedPlayers pa) as [responded|] eqn:Hr.
  - rewrite trackResponse_unread. apply trackResponse_unaddressed.
  - change (handOf fi (setPendingAction _ s1)) with (handOf fi s1).
    destruct (find (isActionOf justSayNo) (handOf fi s1)); [now split|].
    rewrite resumeTurn_unread. now split.
Qed.

Lemma answer_unaddressed pid r st :
  fst (respondToAction pid r (unaddressed st)) = fst (respondToAction pid r st)
  /\ unaddressed (snd (respondToAction pid r (unaddressed st)))
     = unaddressed (snd (respondToAction pid r st)).
Proof.
  destruct (pendingAction st) as [pa|] eqn:Hpa.
  2:{ assert (E : unaddressed st = st)
        by (unfold unaddressed; rewrite Hpa; now destruct st; cbn in *; subst).
      now rewrite E. }
  assert (Hun : unaddressed st
                = setPendingAction (Some (unaddressedAction pa)) st)
    by (unfold unaddressed; now rewrite Hpa).
  assert (Hidem : unaddressed
                    (setPendingAction (Some (unaddressedAction pa)) st)
                  = unaddressed st)
    by (rewrite <- Hun; apply unaddressed_twice).
  rewrite Hun. unfold respondToAction.
  change (pendingAction (setPendingAction (Some (unaddressedAction pa)) st))
    with (Some (unaddressedAction pa)).
  change (players (setPendingAction (Some (unaddressedAction pa)) st))
    with (players st).
  rewrite Hpa. cbv iota beta.
  change (fromPlayerId (unaddressedAction pa)) with (fromPlayerId pa).
  destruct (findEntry (hasPlayerId pid) (players st)) as [[pi p]|];
    [|split; [reflexivity | exact Hidem]].
  destruct (findEntry (hasPlayerId (fromPlayerId pa)) (players st))
    as [[fi fp]|]; [|split; [reflexivity | exact Hidem]].
  change (alreadyResponded pid (unaddressedAction pa))
    with (alreadyResponded pid pa).
  destruct (alreadyResponded pid pa); [split; [reflexivity | exact Hidem]|].
  destruct (useJustSayNo r).
  { rewrite <- Hun. apply refuse_unaddressed. }
  change (isMultiPlayerAction (unaddressedAction pa))
    with (isMultiPlayerAction pa).
  change (settlePayment pi fi p (unaddressedAction pa) r)
    with (settlePayment pi fi p pa r).
  change (executeEffect fi pi (unaddressedAction pa) r)
    with (executeEffect fi pi pa r).
  rewrite unread_settlePayment.
  rewrite (andThen_onState (Some (unaddressedAction pa)))
    by (intros [] s; destruct (_ && _);
        [apply unread_executeEffect | reflexivity]).
  assert (Hkeep : pendingAction
                    (snd (settlePayment pi fi p pa r st
                          >> (fun st1 =>
                                if accept r && negb (isMultiPlayerAction pa)
                                then executeEffect fi pi pa r st1
                                else ok st1)))
                  = Some pa).
  { rewrite <- Hpa.
    apply (kept_andThen (fun s0 s => pendingAction s = pendingAction s0)).
    - apply (sameTable_settlePayment st pi fi p pa r st (sameTable_refl st)).
    - intros [] s Hs. destruct (_ && _); [|exact Hs].
      rewrite <- Hs.
      apply (sameTable_executeEffect s fi pi pa r s (sameTable_refl s)). }
  destruct (settlePayment pi fi p pa r st
            >> (fun st1 =>
                  if accept r && negb (isMultiPlayerAction pa)
                  then executeEffect fi pi pa r st1
                  else ok st1)) as [[[]|msg] s2].
  - unfold onState. cbn [andThen fst snd].
    rewrite trackResponse_unread. apply trackResponse_unaddressed.
  - unfold onState. cbn [andThen fst snd] in *. split; [reflexivity|].
    unfold unaddressed. cbn. now rewrite Hkeep.
Qed.

(** X26: [respondToAction] never looks at whom the pending action is
    addressed to ([toPlayerId]) nor at [canSayNo]: on two states that differ
    in these two fields only, a call gives the same outcome and leaves states
    that again differ in these two fields at most.  So the answer of any
    player of the game is taken, addressed or not. *)
Theorem answer_ignores_the_addressee pid r st1 st2 :
  unaddressed st1 = unaddressed st2 ->
  fst (respondToAction pid r st1) = fst (respondToAction pid r st2)
  /\ unaddressed (snd (respondToAction pid r st1))
     = unaddressed (snd (respondToAction pid r st2)).
Proof.
  intros H.
  destruct (answer_unaddressed pid r st1) as [A1 B1].
  destruct (answer_unaddressed pid r st2) as [A2 B2].
  rewrite H in A1, B1. split; congruence.
Qed.

(** B owes A 5; the same debt addressed to A instead is paid by B all the
    same. *)
Lemma answer_ignores_the_addressee_witness :
  fst (respondToAction "B" payThree owesFive)
  = fst (respondToAction "B" payThree
           (setPendingAction
              (option_map (withTo "A") (pendingAction owesFive)) owesFive))
  /\ fst (respondToAction "B" payThree owesFive) = Ok tt
  /\ unaddressed (snd (respondToAction "B" payThree owesFive))
     = unaddressed
         (snd (respondToAction "B" payThree
                 (setPendingAction
                    (option_map (withTo "A") (pendingAction owesFive))
                    owesFive))).
Proof.
  destruct (answer_ignores_the_addressee "B" payThree owesFive
              (setPendingAction
                 (option_map (withTo "A") (pendingAction owesFive)) owesFive))
    as [H1 H2].
  - vm_compute. reflexivity.
  - split; [exact H1|]. split; [|exact H2]. vm_compute. reflexivity.
Defined.

(* ================================================================== *)
(** ** Deal Breaker *)

Lemma propertiesOf_modifyPlayer_same i f st p :
  nth_error (players st) i = Some p ->
  propertiesOf i (modifyPlayer i f st) = properties (f p).
Proof.
  intros H. unfold propertiesOf. cbn [players modifyPlayer setPlayers].
  now rewrite (nth_error_updateAt_eq i f _ p H).
Qed.

Lemma playerAt_modifyPlayer_other i j f st :
  i <> j -> nth_error (players (modifyPlayer i f st)) j
            = nth_error (players st) j.
Proof.
  intros H. cbn [players modifyPlayer setPlayers].
  now apply nth_error_updateAt_ne.
Qed.

(** X27: when a Deal Breaker is answered with an acceptance, the targeted
    set leaves the answering player and is appended, as it is (cards, house
    and hotel marks, completeness mark), to the sets of the player who
    played the card, also when that player already has a set of the colour;
    no hand and no bank changes, and the pending action is cleared. *)
Theorem deal_breaker_takes_the_set pid r st pa pi p fi fp tc k t :
  pendingAction st = Some pa ->
  pa_type pa = PAction dealBreaker ->
  respondedPlayers pa = None ->
  amount pa = None ->
  targetSet pa = Some tc ->
  findEntry (hasPlayerId pid) (players st) = Some (pi, p) ->
  findEntry (hasPlayerId (fromPlayerId pa)) (players st) = Some (fi, fp) ->
  fi <> pi ->
  accept r = true ->
  useJustSayNo r = false ->
  findEntry (hasColor tc) (properties p) = Some (k, t) ->
  let st' := snd (respondToAction pid r st) in
  propertiesOf pi st' = removeAt k (properties p)
  /\ propertiesOf fi st' = push (properties fp) t
  /\ (forall j, handOf j st' = handOf j st /\ bankOf j st' = bankOf j st)
  /\ (forall j, j <> pi -> j <> fi ->
                nth_error (players st') j = nth_error (players st) j)
  /\ pendingAction st' = None.
Proof.
  intros Hpa Hty Hresp Hamt Htc Hpi Hfi Hne Hacc Hjsn Hset st'. subst st'.
  pose proof (proj1 (findEntry_Some _ _ _ _ Hpi)) as Hp.
  pose proof (proj1 (findEntry_Some _ _ _ _ Hfi)) as Hfp.
  unfold respondToAction. rewrite Hpa, Hpi, Hfi.
  unfold alreadyResponded, isMultiPlayerAction. rewrite Hresp, Hjsn.
  unfold settlePayment. rewrite Hacc, Hamt. cbn [truthyAmount andb negb].
  unfold executeEffect. rewrite Hty, Htc. unfold executeDealBreaker.
  assert (Hprops : propertiesOf pi st = properties p)
    by (unfold propertiesOf; now rewrite Hp).
  cbn [ok andThen]. rewrite Hprops, Hset. cbn [ok andThen].
  unfold trackResponse. rewrite Hresp.
  set (st2 := modifyPlayer fi _ (modifyPlayer pi _ st)).
  assert (Hplayers : players (snd (resumeTurn st2)) = players st2)
    by apply players_resumeTurn.
  unfold propertiesOf, handOf, bankOf. rewrite Hplayers.
  rewrite pendingAction_resumeTurn.
  subst st2. cbn [players modifyPlayer setPlayers].
  split; [|split; [|split; [|split; [|reflexivity]]]].
  - rewrite nth_error_updateAt_ne by exact Hne.
    now rewrite (nth_error_updateAt_eq pi _ _ p Hp).
  - erewrite nth_error_updateAt_eq
      by (rewrite nth_error_updateAt_ne by auto; exact Hfp).
    reflexivity.
  - intros j. rewrite !nth_error_updateAt.
    destruct (fi =? j)%nat, (pi =? j)%nat;
      destruct (nth_error (players st) j); now split.
  - intros j H1 H2. rewrite !nth_error_updateAt_ne by auto. reflexivity.
Qed.

(** B accepts: the brown set, with house and hotel, is A's second set, and
    B is left with the red property. *)
Lemma deal_breaker_takes_the_set_witness :
  propertiesOf 1 (snd (respondToAction "B" giveIn setAtStake))
  = [oneRed]
  /\ propertiesOf 0 (snd (respondToAction "B" giveIn setAtStake))
     = [oneRed; fullBrown].
Proof.
  edestruct (deal_breaker_takes_the_set "B" giveIn setAtStake)
    as (H1 & H2 & _).
  - vm_compute. reflexivity.
  - vm_compute. reflexivity.
  - vm_compute. reflexivity.
  - vm_compute. reflexivity.
  - vm_compute. reflexivity.
  - vm_compute. reflexivity.
  - vm_compute. reflexivity.
  - discriminate.
  - vm_compute. reflexivity.
  - vm_compute. reflexivity.
  - vm_compute. reflexivity.
  - split; [exact H1 | exact H2].
Defined.

(* ================================================================== *)
(** ** What a payment takes from the payer *)

Lemma counts_hasId x card : hasId x card = true -> counts (hasId x) card = 1%nat.
Proof. unfold counts. now intros ->. Qed.

Lemma countCards_not_found f l : find f l = None -> countCards f l = 0%nat.
Proof.
  unfold countCards. rewrite find_filter. now destruct (filter f l).
Qed.

Lemma countOwned_prune f p : countOwned f (pruneEmptySets p) = countOwned f p.
Proof.
  unfold countOwned, pruneEmptySets. cbn [bank properties setProperties].
  now rewrite countInSets_prune.
Qed.

(** One turn of the payment loop takes one card with the id from the payer,
    when the payer has one. *)
Lemma payCard_takes pi fi x st p :
  pi <> fi ->
  playerAt pi st = Some p ->
  setsWellFormed p ->
  exists p',
    playerAt pi (snd (payCard pi fi x st)) = Some p'
    /\ countOwned (hasId x) p' = pred (countOwned (hasId x) p).
Proof.
  intros Hne Hp Hwf. unfold payCard.
  rewrite (bankOf_playerAt _ _ _ Hp), (propertiesOf_playerAt _ _ _ Hp).
  pose proof (find_findEntry (hasId x) (bank p)) as Hfb.
  destruct (findEntry (hasId x) (bank p)) as [[bi card]|] eqn:Hb; cbn in Hfb.
  - apply findEntry_Some in Hb as [Hn Hq].
    exists (takeFromBank bi p). split.
    + unfold playerAt. cbn [snd ok players modifyPlayer setPlayers].
      rewrite nth_error_updateAt_ne by auto.
      now apply nth_error_updateAt_eq.
    + unfold countOwned, takeFromBank. cbn [bank properties setBank].
      pose proof (countCards_removeAt (hasId x) bi _ _ Hn) as H.
      rewrite (counts_hasId _ _ Hq) in H. lia.
  - pose proof (findInSets_find x (properties p) 0) as Hfs.
    destruct (findInSets x 0 (properties p)) as [[[k i] card]|] eqn:Hs;
      cbn in Hfs.
    + destruct (findInSets_Some _ _ _ _ _ _ Hs) as (sk & _ & Hk & Hi & Hq).
      rewrite Nat.sub_0_r in Hk.
      assert (Hcard : homeColorAllowed card = true).
      { apply Hwf. apply allSetCards_In. exists sk.
        split; eapply nth_error_In; eauto. }
      rewrite (give_as_play fi card _ Hcard). cbn [andThen ok snd].
      exists (modifySet k updatePropertySetCompletion
                (modifySet k (takeFromSet i) p)).
      split.
      * unfold playerAt. cbn [players modifyPlayer setPlayers].
        apply nth_error_updateAt_eq.
        rewrite nth_error_updateAt_ne by auto.
        now apply nth_error_updateAt_eq.
      * unfold countOwned, modifySet. cbn [bank properties setProperties].
        pose proof (countInSets_updateAt (hasId x) k (takeFromSet i)
                      (properties p)) as H1.
        rewrite Hk in H1.
        pose proof (countInSets_updateAt (hasId x) k
                      updatePropertySetCompletion
                      (updateAt k (takeFromSet i) (properties p))) as H2.
        rewrite (nth_error_updateAt_eq k _ _ sk Hk) in H2.
        cbn [takeFromSet updatePropertySetCompletion setIsComplete setCards
             set_cards] in H1, H2.
        pose proof (countCards_removeAt (hasId x) i _ _ Hi) as H3.
        rewrite (counts_hasId _ _ Hq) in H3. lia.
    + exists p. split; [exact Hp|].
      unfold countOwned. rewrite <- countInSets_allSetCards.
      rewrite (countCards_not_found _ _ Hfb), (countCards_not_found _ _ Hfs).
      reflexivity.
Qed.

(** The payment loop takes from the payer, of every id, as many cards as
    the id was offered times, as far as the payer has them. *)
Lemma payCards_takes pi fi ids : forall st p f,
  pi <> fi ->
  playerAt pi st = Some p ->
  playerAt fi st = Some f ->
  setsWellFormed p ->
  exists p',
    playerAt pi (snd (payCards pi fi ids st)) = Some p'
    /\ forall x, countOwned (hasId x) p'
                 = (countOwned (hasId x) p - count_occ string_dec ids x)%nat.
Proof.
  induction ids as [|y ids IH]; intros st p f Hne Hp Hf Hwf; cbn [payCards].
  - exists p. split; [exact Hp|]. intros x. cbn. lia.
  - destruct (payCard_step pi fi y st p f Hp Hf Hwf)
      as (st1 & p1 & f1 & Hrun & Hp1 & Hf1 & _ & _ & _ & _ & HE & HF).
    destruct (payCard_takes pi fi y st p Hne Hp Hwf) as (p1' & Hp1' & Hy).
    rewrite Hrun in Hp1'. cbn [snd] in Hp1'.
    assert (p1' = p1) by congruence. subst p1'.
    rewrite Hrun. cbn [andThen].
    assert (Hwf1 : setsWellFormed p1) by (intros card Hin; apply Hwf, HF, Hin).
    destruct (IH st1 p1 f1 Hne Hp1 Hf1 Hwf1) as (p' & Hp' & Hcount).
    exists p'. split; [exact Hp'|]. intros x. rewrite Hcount.
    cbn [count_occ]. destruct (string_dec y x) as [->|Hyx].
    + rewrite Hy. lia.
    + destruct (HE x (fun H => Hyx (eq_sym H))) as [Hb Hs].
      unfold countOwned. rewrite <- !countInSets_allSetCards.
      unfold countCards. now rewrite Hb, Hs.
Qed.

(** X28: how [respondToAction] settles a payment, in the code's own
    measure.  Let the pending action carry a payment amount (not 0, which
    the source treats as absent) and let the responder own something.  The
    offered value is the sum, over the ids as they were sent, of the value of
    the card the id names in the responder's bank or sets; an id sent twice
    counts twice.  A response with [accept = true] and no refusal card whose
    offered value is below min(amount, total assets) throws and leaves the
    state unchanged.  When the offered value reaches that minimum, and the
    responder has not answered before, the call returns normally; every
    offered card found in the responder's bank is in the initiator's bank
    afterwards, every offered property card found in the responder's sets
    is in a set of the initiator of the card's own colour, and no set of the
    responder is empty.  The cards leave the payer: when the responder is
    not the initiator, the responder owns afterwards, of every id, as many
    cards fewer as the id was offered times (none, when that is more than
    the responder had). *)
Theorem payment_settlement (st : GameState) (playerId : string)
    (response : ActionResponse) (pa : PendingAction) (pi : nat)
    (responder : Player) (requiredAmount : Z) :
  pendingAction st = Some pa ->
  amount pa = Some requiredAmount ->
  requiredAmount <> 0 ->
  findEntry (hasPlayerId playerId) (players st) = Some (pi, responder) ->
  accept response = true ->
  useJustSayNo response = false ->
  0 < totalAssets responder ->
  let paymentIds :=
    match paymentCardIds response with Some l => l | None => [] end in
  let offered := paymentValue responder paymentIds in
  let minimumPayment := Z.min requiredAmount (totalAssets responder) in
  let r := respondToAction playerId response st in
  (offered < minimumPayment -> exists msg, r = (Throw msg, st))
  /\ (minimumPayment <= offered ->
      forall fi initiator,
        findEntry (hasPlayerId (fromPlayerId pa)) (players st)
        = Some (fi, initiator) ->
        alreadyResponded playerId pa = false ->
        paysOnly pa = true ->
        forallb homeColorAllowed (allSetCards (properties responder)) = true ->
        nth_error (players st) (currentPlayerIndex st) <> None ->
        fst r = Ok tt
        /\ (forall cardId card,
              In cardId paymentIds ->
              find (hasId cardId) (bank responder) = Some card ->
              In card (bankOf fi (snd r)))
        /\ (forall cardId card c,
              In cardId paymentIds ->
              find (hasId cardId) (bank responder) = None ->
              find (hasId cardId) (allSetCards (properties responder))
              = Some card ->
              cardColor card = Some c ->
              inSetOfColor fi c card (snd r))
        /\ Forall (fun s => set_cards s <> []) (propertiesOf pi (snd r))
        /\ (pi <> fi ->
            exists payer,
              nth_error (players (snd r)) pi = Some payer
              /\ forall cardId,
                   countOwned (hasId cardId) payer
                   = (countOwned (hasId cardId) responder
                      - count_occ string_dec paymentIds cardId)%nat)).
Proof.
  intros Hpa Hamount Hnz Hresp Hacc Hjsn Htotal. cbv zeta.
  assert (Htruthy : truthyAmount (amount pa) = Some requiredAmount).
  { rewrite Hamount. cbn. destruct (Z.eqb_spec requiredAmount 0); congruence. }
  split.
  - intros Hlow. unfold respondToAction. rewrite Hpa, Hresp.
    destruct (findEntry (hasPlayerId (fromPlayerId pa)) (players st))
      as [[fi initiator]|]; [|eexists; reflexivity].
    destruct (alreadyResponded playerId pa); [eexists; reflexivity|].
    rewrite Hjsn. unfold settlePayment. rewrite Hacc, Htruthy.
    destruct (Z.ltb_spec 0 (totalAssets responder)); [|lia].
    match goal with
    | |- context [(?a <? ?b)] => destruct (Z.ltb_spec a b); [|lia]
    end.
    cbn. eexists; reflexivity.
  - intros Henough fi initiator Hinit Hfresh Hpays Hwf Hcur.
    assert (Hsets : setsWellFormed responder).
    { intros card Hin. rewrite forallb_forall in Hwf. now apply Hwf. }
    pose proof Hresp as Hp. apply findEntry_Some in Hp as [Hp _].
    pose proof Hinit as Hf. apply findEntry_Some in Hf as [Hf _].
    destruct (payCards_transfers pi fi
                match paymentCardIds response with Some l => l | None => [] end
                st responder initiator Hp Hf Hsets)
      as (stP & p' & f' & Hrun & Hp' & Hf' & _ & _ & HC & HD).
    pose proof (sameTurn_payCards st pi fi
                  match paymentCardIds response with Some l => l | None => [] end
                  st (sameTurn_refl st)) as Hturn.
    rewrite Hrun in Hturn. cbn [snd] in Hturn.
    set (st2 := modifyPlayer pi pruneEmptySets stP).
    assert (Hturn2 : sameTurn st st2) by (now apply sameTurn_modifyPlayer).
    assert (Hr : respondToAction playerId response st
                 = trackResponse playerId pa st2).
    { unfold respondToAction. rewrite Hpa, Hresp, Hinit, Hfresh, Hjsn.
      unfold settlePayment. rewrite Hacc, Htruthy.
      match goal with
      | |- context [(0 <? ?t) && (?a <? ?b)] =>
          destruct (Z.ltb_spec a b); [lia|]; rewrite andb_false_r
      end.
      rewrite Hrun. cbn [andThen ok].
      rewrite executeEffect_paysOnly by exact Hpays.
      now destruct (true && negb (isMultiPlayerAction pa)). }
    rewrite Hr.
    pose proof (players_trackResponse playerId pa st2) as Hplayers.
    rewrite (bankOf_players fi _ st2 Hplayers).
    rewrite (propertiesOf_players pi _ st2 Hplayers).
    pose proof (playerAt_modifyPlayer pi pi pruneEmptySets stP _ _ Hp' Hp') as Hp2.
    rewrite Nat.eqb_refl in Hp2.
    pose proof (playerAt_modifyPlayer pi fi pruneEmptySets stP _ _ Hp' Hf') as Hf2.
    fold st2 in Hp2, Hf2.
    assert (Hbank : forall card, In card (bank f') -> In card (bankOf fi st2)).
    { intros card Hin. rewrite (bankOf_playerAt _ _ _ Hf2).
      destruct (Nat.eqb_spec pi fi) as [->|_]; [|exact Hin].
      replace p' with f' by congruence. exact Hin. }
    assert (Hown : forall c card, ownsIn f' c card -> inSetOfColor fi c card st2).
    { intros c card Hin. apply (inSetOfColor_ownsIn _ _ _ _ _ Hf2).
      destruct (Nat.eqb_spec pi fi) as [->|_]; [|exact Hin].
      apply ownsIn_prune. replace p' with f' by congruence. exact Hin. }
    split; [|split; [|split; [|split]]].
    + apply trackResponse_ok. now apply (sameTurn_current st).
    + intros cardId card Hin Hfind. apply Hbank. now apply (HC cardId).
    + intros cardId card c Hin Hbk Hfind Hc.
      unfold inSetOfColor. rewrite (propertiesOf_players fi _ st2 Hplayers).
      apply Hown. apply (homeSet_iff_ownsIn _ _ _ Hc).
      apply (HD cardId card Hin Hbk Hfind).
      unfold isProperty. unfold cardColor in Hc.
      destruct (face card); [reflexivity | discriminate..].
    + rewrite (propertiesOf_playerAt _ _ _ Hp2). apply Forall_forall.
      intros s Hs. unfold pruneEmptySets in Hs. cbn in Hs.
      apply filter_In in Hs as [_ Hs]. unfold nonEmptySet in Hs.
      destruct (set_cards s); [discriminate | discriminate].
    + intros Hne.
      destruct (payCards_takes pi fi
                  match paymentCardIds response with Some l => l | None => [] end
                  st responder initiator Hne Hp Hf Hsets)
        as (q & Hq & Hcount).
      rewrite Hrun in Hq. cbn [snd] in Hq.
      assert (q = p') by (unfold playerAt in *; congruence). subst q.
      exists (pruneEmptySets p'). split.
      * rewrite Hplayers. exact Hp2.
      * intros cardId. rewrite countOwned_prune. apply Hcount.
Qed.

(** Where B, worth 3, owes A 5: paying 2 is refused, paying all 3 settles
    the debt and both cards are in A's bank; and where B, worth 4 in one
    dark blue property, pays with it: the card is in A's dark blue set and B
    is left without sets and without the card. *)
Lemma payment_settlement_witness :
  (exists msg, respondToAction "B" payTwo owesFive = (Throw msg, owesFive))
  /\ fst (respondToAction "B" payThree owesFive) = Ok tt
  /\ In (createMoneyCard 1 "m1") (bankOf 0 (snd (respondToAction "B" payThree owesFive)))
  /\ In (createMoneyCard 2 "m2") (bankOf 0 (snd (respondToAction "B" payThree owesFive)))
  /\ fst (respondToAction "B" payDarkBlue debtPending) = Ok tt
  /\ inSetOfColor 0 darkBlue
       (plain "Boardwalk" darkBlue 4 "c21")
       (snd (respondToAction "B" payDarkBlue debtPending))
  /\ propertiesOf 1 (snd (respondToAction "B" payDarkBlue debtPending)) = []
  /\ exists payer,
       nth_error (players (snd (respondToAction "B" payDarkBlue debtPending))) 1
       = Some payer
       /\ countOwned (hasId "c21") payer = 0%nat.
Proof.
  split; [|split; [|split; [|split]]].
  - edestruct (payment_settlement owesFive "B" payTwo) as [HA _].
    + reflexivity.
    + reflexivity.
    + discriminate.
    + reflexivity.
    + reflexivity.
    + reflexivity.
    + vm_compute. reflexivity.
    + apply HA. vm_compute. reflexivity.
  - edestruct (payment_settlement owesFive "B" payThree) as [_ HB].
    + reflexivity.
    + reflexivity.
    + discriminate.
    + reflexivity.
    + reflexivity.
    + reflexivity.
    + vm_compute. reflexivity.
    + edestruct HB as (H1 & _).
      * vm_compute. discriminate.
      * reflexivity.
      * reflexivity.
      * reflexivity.
      * reflexivity.
      * vm_compute. discriminate.
      * exact H1.
  - edestruct (payment_settlement owesFive "B" payThree) as [_ HB].
    + reflexivity.
    + reflexivity.
    + discriminate.
    + reflexivity.
    + reflexivity.
    + reflexivity.
    + vm_compute. reflexivity.
    + edestruct HB as (_ & H2 & _).
      * vm_compute. discriminate.
      * reflexivity.
      * reflexivity.
      * reflexivity.
      * reflexivity.
      * vm_compute. discriminate.
      * apply (H2 "m1"); [left; reflexivity | reflexivity].
  - edestruct (payment_settlement owesFive "B" payThree) as [_ HB].
    + reflexivity.
    + reflexivity.
    + discriminate.
    + reflexivity.
    + reflexivity.
    + reflexivity.
    + vm_compute. reflexivity.
    + edestruct HB as (_ & H2 & _).
      * vm_compute. discriminate.
      * reflexivity.
      * reflexivity.
      * reflexivity.
      * reflexivity.
      * vm_compute. discriminate.
      * apply (H2 "m2"); [right; left; reflexivity | reflexivity].
  - edestruct (payment_settlement debtPending "B" payDarkBlue) as [_ HB].
    + vm_compute. reflexivity.
    + reflexivity.
    + discriminate.
    + vm_compute. reflexivity.
    + reflexivity.
    + reflexivity.
    + vm_compute. reflexivity.
    + edestruct HB as (H1 & _ & H3 & _ & H5).
      * vm_compute. discriminate.
      * vm_compute. reflexivity.
      * reflexivity.
      * reflexivity.
      * vm_compute. reflexivity.
      * vm_compute. discriminate.
      * split; [exact H1|]. split; [|split].
        -- apply (H3 "c21"); [left; reflexivity | reflexivity..].
        -- vm_compute. reflexivity.
        -- destruct H5 as (payer & Hpayer & Hcount); [discriminate|].
           exists payer. split; [exact Hpayer|]. rewrite Hcount.
           vm_compute. reflexivity.
Defined.
